(** * ansible_parallel: a shallow embedding and its verified properties

    The program runs several [ansible-playbook] processes under an asyncio
    event loop, bounded by a semaphore, multiplexes their classified output
    on one queue and renders it on the terminal.

    Part I embeds the source ([src/ansible_parallel.py]) function by
    function.  Part II proves the properties. *)

From Stdlib Require Import ZArith NArith String Ascii DecimalString.
From stdpp Require Import gmap list.

Set Default Proof Using "Type".
Set Warnings "-clear-no-such-hyp".
Local Open Scope Z_scope.

(* ================================================================== *)
(** * Part I.  The embedding                                            *)
(* ================================================================== *)

(** ** Python strings

    A Python [str] is a sequence of Unicode code points; [len], slicing
    and indexing count code points.  A code point is an [N]. *)

Abbreviation str := (list N).

Module Py.

(** An ASCII literal as a [str]. *)
Definition lit (s : string) : str := N_of_ascii <$> list_ascii_of_string s.

(** [a == b] on strings. *)
Definition eqb (a b : str) : bool := bool_decide (a = b).

(** [len(s)], a Python int. *)
Definition len (s : str) : Z := Z.of_nat (length s).

(** [c.isspace()] for one code point, the table of CPython's
    [_PyUnicode_IsWhitespace]. *)
Definition isspace (c : N) : bool :=
  ((9 <=? c) && (c <=? 13) || (28 <=? c) && (c <=? 32)
   || (c =? 133) || (c =? 160) || (c =? 5760)
   || (8192 <=? c) && (c <=? 8202)
   || (c =? 8232) || (c =? 8233) || (c =? 8239) || (c =? 8287)
   || (c =? 12288))%N.

(** [s.lstrip()], [s.rstrip()], [s.strip()] with no argument. *)
Fixpoint lstrip (s : str) : str :=
  match s with
  | c :: s' => if isspace c then lstrip s' else s
  | [] => []
  end.

Definition rstrip (s : str) : str := reverse (lstrip (reverse s)).

Definition strip (s : str) : str := rstrip (lstrip s).

(** The line feed, the separator of [s.split("\n")]. *)
Definition LF : N := 10%N.

(** [s.split("\n")]: never empty, [""] splits to [[""]]. *)
Fixpoint split_nl (s : str) : list str :=
  match s with
  | [] => [[]]
  | c :: s' =>
      if (c =? LF)%N then [] :: split_nl s'
      else match split_nl s' with
           | l :: ls => (c :: l) :: ls
           | [] => [[c]]
           end
  end.

(** [s.startswith(p)]. *)
Fixpoint startswith (s p : str) : bool :=
  match p, s with
  | [], _ => true
  | _ :: _, [] => false
  | a :: p', b :: s' => (a =? b)%N && startswith s' p'
  end.

(** [p in s], the substring test. *)
Fixpoint contains (s p : str) : bool :=
  startswith s p ||
  match s with
  | [] => false
  | _ :: s' => contains s' p
  end.

(** [s[:k]] for a Python int [k]: a negative [k] counts from the end. *)
Definition slice_to (s : str) (k : Z) : str :=
  if k <? 0 then take (Z.to_nat (Z.max 0 (len s + k))) s
  else take (Z.to_nat k) s.

(** ["".join(parts)]. *)
Definition join (parts : list str) : str := concat parts.

(** [str(n)] / [f"{n}"] for an int. *)
Definition of_int (n : Z) : str := lit (NilZero.string_of_int (Z.to_int n)).

(** [l.index(x)] on a list of strings; [None] stands for ValueError. *)
Fixpoint index (l : list str) (x : str) : option nat :=
  match l with
  | [] => None
  | y :: l' => if eqb y x then Some 0%nat else S <$> index l' x
  end.

(** [l.remove(x)]: drops the first occurrence; [None] stands for
    ValueError. *)
Fixpoint remove (l : list str) (x : str) : option (list str) :=
  match l with
  | [] => None
  | y :: l' => if eqb y x then Some l' else (y ::.) <$> remove l' x
  end.

End Py.

(** ** Events

    The tuples [(msgtype, playbook, msg)] put on the queue. *)

Inductive kind :=
  START | DONE | RECAP | OK | CHANGED | ERROR | UNREACHABLE | TASK | MSG.

Global Instance kind_eq_dec : EqDecision kind.
Proof. solve_decision. Defined.

Record event := Event { msgtype : kind; playbook : str; msg : str }.

Global Instance event_eq_dec : EqDecision event.
Proof. solve_decision. Defined.

(** ** prepare_chunk *)

Definition PLAY_RECAP : str := Py.lit "PLAY RECAP".
Definition kw_ok : str := Py.lit "ok:".
Definition kw_changed : str := Py.lit "changed:".
Definition kw_failed : str := Py.lit "failed:".
Definition kw_fatal : str := Py.lit "fatal:".
Definition kw_unreachable : str := Py.lit "unreachable:".
Definition kw_TASK : str := Py.lit "TASK".
Definition kw_ERROR : str := Py.lit "ERROR!".

(** The three tests after the [if len(lines) >= 2:] block. *)
Definition prepare_chunk_tail (chunk : str) : kind :=
  if Py.startswith chunk kw_TASK then TASK
  else if Py.contains chunk kw_ERROR then ERROR
  else MSG.

(** The kind chosen by [prepare_chunk].  The pattern [_ :: line1 :: _]
    is [len(lines) >= 2] with [line1 = lines[1]]. *)
Definition classify (chunk : str) : kind :=
  let lines := Py.split_nl (Py.strip chunk) in
  match lines with
  | _ :: line1 :: _ =>
      if Py.contains chunk PLAY_RECAP then RECAP
      else if Py.contains line1 kw_ok then OK
      else if Py.contains line1 kw_changed then CHANGED
      else if Py.contains line1 kw_failed || Py.contains line1 kw_fatal then ERROR
      else if Py.contains line1 kw_unreachable then UNREACHABLE
      else prepare_chunk_tail chunk
  | _ => prepare_chunk_tail chunk
  end.

Definition prepare_chunk (playbook chunk : str) : event :=
  Event (classify chunk) playbook chunk.

(** ** truncate *)

Definition ELLIPSIS : N := 8230%N.

Definition truncate (string : str) (max_width : Z) : str :=
  if Py.len string <=? max_width then string
  else Py.slice_to string (max_width - 1) ++ [ELLIPSIS].

(** ** The external process

    What the code observes of one [ansible-playbook] process: whether
    [create_subprocess_exec] succeeds, what each
    [(await process.stdout.readline()).decode()] yields until end of
    stream, and [process.returncode] after [process.wait()] (negative
    when the child was killed by a signal). *)

Inductive read :=
| Line (line : str)   (* a decoded line; the empty string is end of stream *)
| Fault.              (* readline() or decode() raised *)

Record process := Process {
  spawns : bool;
  stdout : list read;
  returncode : Z
}.

Inductive exn := OSError | ReadError | ValueError | KeyError.

Global Instance exn_eq_dec : EqDecision exn.
Proof. solve_decision. Defined.

(** ** run_playbook *)

Definition BLANK : str := [Py.LF].

Definition start_event (playbook : str) : event := Event START playbook [].

Definition done_event (playbook : str) (rc : Z) : event :=
  if rc =? 0 then Event DONE playbook (Py.lit "Done.")
  else Event DONE playbook (Py.lit "Exited with error code: " ++ Py.of_int rc).

(** [if task: results.put(prepare_chunk(playbook, "".join(task)))]. *)
Definition flush (playbook : str) (task : list str) : list event :=
  match task with
  | [] => []
  | _ :: _ => [prepare_chunk playbook (Py.join task)]
  end.

(** The [while True:] loop together with the flush after it, as the
    events it puts and whether it ended without raising. *)
Fixpoint read_loop (playbook : str) (task : list str) (stream : list read)
  : list event * bool :=
  match stream with
  | [] => (flush playbook task, true)
  | Fault :: _ => ([], false)
  | Line line :: rest =>
      if Py.eqb line [] then (flush playbook task, true)
      else if Py.eqb line BLANK then
        let '(evs, ok) := read_loop playbook [] rest in
        (prepare_chunk playbook (Py.join task ++ line) :: evs, ok)
      else read_loop playbook (task ++ [line]) rest
  end.

(** The whole coroutine: every event it puts, in order, and its return
    value ([None] when it raises). *)
Definition run_playbook (playbook : str) (p : process) : list event * option Z :=
  if spawns p then
    let '(evs, ok) := read_loop playbook [] (stdout p) in
    if ok then
      (start_event playbook :: evs ++ [done_event playbook (returncode p)],
       Some (returncode p))
    else (start_event playbook :: evs, None)
  else ([start_event playbook], None).

(** The same coroutine one suspension at a time.  A task is at one of
    these points of [playbook_wrapper] / [run_playbook]. *)
Inductive job_state :=
| Queued                                        (* at [async with semaphore] *)
| Entered                                       (* permit held, before put(START) *)
| Spawning                                      (* at create_subprocess_exec *)
| Reading (task : list str) (rest : list read)  (* at readline() *)
| Waiting                                       (* at process.wait() *)
| Returned (rc : Z)
| Failed (e : exn)
| Cancelled.

Global Instance read_eq_dec : EqDecision read.
Proof. solve_decision. Defined.

Global Instance job_state_eq_dec : EqDecision job_state.
Proof. solve_decision. Defined.

(** One step of the body of [run_playbook]: the next point and the
    events put on the way. *)
Definition run_playbook_step (playbook : str) (p : process) (js : job_state)
  : option (job_state * list event) :=
  match js with
  | Entered => Some (Spawning, [start_event playbook])
  | Spawning =>
      if spawns p then Some (Reading [] (stdout p), [])
      else Some (Failed OSError, [])
  | Reading task [] => Some (Waiting, flush playbook task)
  | Reading task (Fault :: _) => Some (Failed ReadError, [])
  | Reading task (Line line :: rest) =>
      if Py.eqb line [] then Some (Waiting, flush playbook task)
      else if Py.eqb line BLANK then
        Some (Reading [] rest, [prepare_chunk playbook (Py.join task ++ line)])
      else Some (Reading (task ++ [line]) rest, [])
  | Waiting =>
      Some (Returned (returncode p), [done_event playbook (returncode p)])
  | Queued | Returned _ | Failed _ | Cancelled => None
  end.

(** The task holds a permit of the semaphore: it is inside the
    [async with] block. *)
Definition holds_permit (js : job_state) : bool :=
  match js with
  | Entered | Spawning | Reading _ _ | Waiting => true
  | _ => false
  end.

(** The task is over: returned, raised or cancelled. *)
Definition finished (js : job_state) : bool :=
  match js with
  | Returned _ | Failed _ | Cancelled => true
  | _ => false
  end.

(** [sum(results)]. *)
Definition aggregate (results : list Z) : Z := foldl Z.add 0 results.

(** ** show_progression

    The renderer's local variables and the text written to [stream] so
    far.  [perf_counter()] readings are of an abstract type [time];
    [fmt_elapsed e s] stands for [f"{e - s:.0f}"]. *)

Record renderer (time : Type) := Renderer {
  recaps : list (str * list str);   (* defaultdict(list), in insertion order *)
  starts : gmap str time;
  ends : gmap str time;
  currently_running : list str;
  frameno : Z;
  longest_name : Z;
  columns : Z;
  stream : list str
}.
Arguments Renderer {time}.
Arguments recaps {time}.
Arguments starts {time}.
Arguments ends {time}.
Arguments currently_running {time}.
Arguments frameno {time}.
Arguments longest_name {time}.
Arguments columns {time}.
Arguments stream {time}.

Definition ESC : N := 27%N.
Definition DISABLE_CURSOR : str := ESC :: Py.lit "[?25l".
Definition ENABLE_CURSOR : str := ESC :: Py.lit "[?25h".
Definition ERASE_LINE : str := ESC :: Py.lit "[0K".
Definition ATTRS_OFF : str := ESC :: Py.lit "[m".

(** [f"\033[{n}A"] and its siblings for B, C and D. *)
Definition csi (n : Z) (final : string) : str :=
  ESC :: Py.lit "[" ++ Py.of_int n ++ Py.lit final.

(** [recaps[playbook].append(msg)] on the defaultdict. *)
Fixpoint recaps_append (recaps : list (str * list str)) (playbook msg : str)
  : list (str * list str) :=
  match recaps with
  | [] => [(playbook, [msg])]
  | (k, v) :: r =>
      if Py.eqb k playbook then (k, v ++ [msg]) :: r
      else (k, v) :: recaps_append r playbook msg
  end.

(** The inner loop of the report: the lines of a chunk, the summary
    marker lines skipped, each followed by a line feed. *)
Fixpoint report_lines (lines : list str) : list str :=
  match lines with
  | [] => []
  | line :: r =>
      if Py.contains line PLAY_RECAP then report_lines r
      else line :: [Py.LF] :: report_lines r
  end.

Section Renderer.
Context {time : Type}.
Variable fmt_elapsed : time → time → str.

Definition write (text : str) (r : renderer time) : renderer time :=
  Renderer (recaps r) (starts r) (ends r) (currently_running r)
           (frameno r) (longest_name r) (columns r) (stream r ++ [text]).

(** The statements before [try:], [None] when [max()] raises on an
    empty list. *)
Definition prologue (playbooks : list str) (term_columns : Z)
  : renderer time * option exn :=
  let r0 := Renderer [] ∅ ∅ [] 0 0 term_columns [DISABLE_CURSOR] in
  match playbooks with
  | [] => (r0, Some ValueError)
  | _ :: _ =>
      let longest := foldr Z.max 0 (Py.len <$> playbooks) in
      (Renderer [] ∅ ∅ [] 0 longest term_columns
         (DISABLE_CURSOR :: ((λ p, p ++ Py.lit ": " ++ [Py.LF]) <$> playbooks)),
       None)
  end.

(** One iteration of [while True:] for a result that is an event, with
    the clock reading [now] for [perf_counter()]. *)
Definition loop_body (playbooks : list str) (now : time) (ev : event)
    (r : renderer time) : renderer time * option exn :=
  let r := Renderer (recaps r) (starts r) (ends r) (currently_running r)
             (frameno r + 1) (longest_name r) (columns r) (stream r) in
  match Py.index playbooks (playbook ev) with
  | None => (r, Some ValueError)
  | Some position =>
      let diff := Z.of_nat (length playbooks) - Z.of_nat position in
      let r := write (csi diff "A") r in
      let r := write (csi (longest_name r + 2) "C") r in
      let r :=
        if decide (msgtype ev = START) then
          write (Py.lit "Started") (write ATTRS_OFF (write ERASE_LINE
            (Renderer (recaps r) (<[playbook ev := now]> (starts r)) (ends r)
               (currently_running r ++ [playbook ev])
               (frameno r) (longest_name r) (columns r) (stream r))))
        else r in
      let done :=
        if decide (msgtype ev = DONE) then
          match Py.remove (currently_running r) (playbook ev) with
          | None => None
          | Some running =>
              Some (write (msg ev) (write ATTRS_OFF (write ERASE_LINE
                (Renderer (recaps r) (starts r) (<[playbook ev := now]> (ends r))
                   running (frameno r) (longest_name r) (columns r) (stream r)))))
          end
        else Some r in
      match done with
      | None => (r, Some ValueError)
      | Some r =>
          let r :=
            if decide (msgtype ev = RECAP) then
              Renderer (recaps_append (recaps r) (playbook ev) (msg ev))
                (starts r) (ends r) (currently_running r)
                (frameno r) (longest_name r) (columns r) (stream r)
            else r in
          let r :=
            if decide (msgtype ev = TASK) then
              write (truncate (hd [] (Py.split_nl (msg ev)))
                       (columns r - longest_name r - 4))
                (write ATTRS_OFF (write ERASE_LINE r))
            else r in
          let r :=
            if decide (msgtype ev = ERROR) then
              Renderer (recaps_append (recaps r) (playbook ev) (msg ev))
                (starts r) (ends r) (currently_running r)
                (frameno r) (longest_name r) (columns r) (stream r)
            else r in
          let r := write (csi diff "B") r in
          let r := write (csi (columns r + 1) "D") r in
          (r, None)
      end
  end.

(** The header line of one playbook of the report; [None] is the
    KeyError of [ends[playbook]] or [starts[playbook]]. *)
Definition report_header (r : renderer time) (playbook : str) : option str :=
  match ends r !! playbook, starts r !! playbook with
  | Some e, Some s =>
      Some (Py.lit "# Playbook " ++ playbook ++ Py.lit ", ran in "
            ++ fmt_elapsed e s ++ Py.lit "s" ++ [Py.LF])
  | _, _ => None
  end.

(** [for playbook, recap in recaps.items(): ...]. *)
Fixpoint report_loop (items : list (str * list str)) (r : renderer time)
  : renderer time * option exn :=
  match items with
  | [] => (r, None)
  | (playbook, recap) :: rest =>
      match report_header r playbook with
      | None => (r, Some KeyError)
      | Some header =>
          let r := write header r in
          let r := foldl (λ r chunk,
                     foldl (λ r text, write text r) r
                           (report_lines (Py.split_nl chunk)))
                   r recap in
          report_loop rest r
      end
  end.

(** Everything after the [try: ... finally:] statement. *)
Definition final_report (r : renderer time) : renderer time * option exn :=
  report_loop (recaps r) (write [Py.LF] r).

End Renderer.

(** ** amain: the event loop

    The part of [amain] from the creation of the tasks on; what comes
    before it - the optional playbook check and the creation of the
    semaphore - is [amain_entry] below.  The tasks are the playbook
    tasks, the printer task and [amain] itself; a step of the system is
    one task running from one suspension to the next. *)

Record config := Config {
  jobs : list (str * process);   (* args.playbook, with what each process does *)
  max_playbooks : nat;           (* the size of the semaphore *)
  term_columns : Z               (* get_terminal_size().columns *)
}.

Definition playbooks (cfg : config) : list str := fst <$> jobs cfg.

(** What the queue carries: an event, tagged here with the index of the
    task that put it, or the final [None]. *)
Inductive item := Ev (producer : nat) (e : event) | Sentinel.

Global Instance item_eq_dec : EqDecision item.
Proof. solve_decision. Defined.

Inductive main_state :=
| Gathering                         (* at [await asyncio.gather(...)] *)
| AwaitPrinter (results : list Z)   (* None is put; at [await printer_task] *)
| Exited (rc : Z)                   (* returned [sum(results)] *)
| MainRaised.                       (* left by an exception, the other tasks cancelled *)

Inductive printer_state :=
| Draining             (* in the loop, at [await results.get()] *)
| Reporting            (* left the loop by [break], cursor restored *)
| Reported             (* the report is written *)
| PrinterRaised (e : exn)
| PrinterCancelled.

(** The queue is the list [chan] of everything put so far with the
    number [rd] of items the printer has taken. *)
Record sys (time : Type) := Sys {
  permits : nat;              (* the value of the semaphore *)
  tasks : list job_state;
  chan : list item;
  rd : nat;
  main : main_state;
  printer : printer_state;
  rstate : renderer time
}.
Arguments Sys {time}.
Arguments permits {time}.
Arguments tasks {time}.
Arguments chan {time}.
Arguments rd {time}.
Arguments main {time}.
Arguments printer {time}.
Arguments rstate {time}.

Inductive label (time : Type) :=
| LJob (i : nat)         (* playbook task i runs *)
| LMain                  (* amain runs *)
| LPrinter (now : time). (* the printer runs; [now] is the clock *)
Arguments LJob {time}.
Arguments LMain {time}.
Arguments LPrinter {time}.

(** A task that raised by itself, which [gather] propagates. *)
Definition failed (js : job_state) : bool :=
  match js with Failed _ => true | _ => false end.

Definition returned (js : job_state) : option Z :=
  match js with Returned rc => Some rc | _ => None end.

(** The result list of [gather] once every task has returned. *)
Definition gathered (ts : list job_state) : option (list Z) := mapM returned ts.

(** [task.cancel()] on a task that is not over.  A task suspended in
    this program's own awaits - the semaphore, [readline()],
    [process.wait()] - is woken by the CancelledError, which takes it out
    of [async with] if it was inside, and is over.  A task inside
    [create_subprocess_exec] receives the CancelledError inside asyncio's
    subprocess transport, which then waits for the child it has just
    started: the task stays where it is, still holding its permit, until
    that wait ends ([cancel_step] below), which it need not do. *)
Definition cancel (js : job_state) : job_state :=
  match js with
  | Spawning => Spawning
  | _ => if finished js then js else Cancelled
  end.

Definition holders (ts : list job_state) : nat :=
  length (filter (λ js, holds_permit js = true) ts).

Section System.
Context {time : Type}.
Variable fmt_elapsed : time → time → str.
Variable cfg : config.

Definition init : sys time :=
  let '(r, e) := prologue (playbooks cfg) (term_columns cfg) in
  Sys (max_playbooks cfg) (replicate (length (jobs cfg)) Queued) [] 0 Gathering
      (match e with None => Draining | Some e => PrinterRaised e end) r.

(** [amain] is left by an exception and [asyncio.run] cancels every
    task that is not over: a task that [cancel] takes out of
    [async with] gives its permit back, the cancelled printer passes
    through [finally:].  This is one step, taken when [asyncio.run]
    cancels: what the other tasks still do between the exception and
    the cancellation are steps of theirs before this one. *)
Definition crash (s : sys time) : sys time :=
  Sys (permits s + (holders (tasks s) - holders (cancel <$> tasks s)))
      (cancel <$> tasks s) (chan s) (rd s)
      MainRaised
      (match printer s with Draining => PrinterCancelled | p => p end)
      (match printer s with
       | Draining => write ENABLE_CURSOR (rstate s)
       | _ => rstate s
       end).

Definition job_step (i : nat) (s : sys time) : option (sys time) :=
  match tasks s !! i, jobs cfg !! i with
  | Some Queued, Some _ =>
      (* [async with semaphore]: acquire *)
      match permits s with
      | O => None
      | S n => Some (Sys n (<[i := Entered]> (tasks s)) (chan s) (rd s)
                       (main s) (printer s) (rstate s))
      end
  | Some js, Some (playbook, p) =>
      match run_playbook_step playbook p js with
      | None => None
      | Some (js', evs) =>
          (* leaving [async with] by return or exception releases *)
          Some (Sys (if finished js' then S (permits s) else permits s)
                    (<[i := js']> (tasks s))
                    (chan s ++ (Ev i <$> evs)) (rd s)
                    (main s) (printer s) (rstate s))
      end
  | _, _ => None
  end.

Definition main_step (s : sys time) : option (sys time) :=
  match main s with
  | Gathering =>
      if existsb failed (tasks s) then Some (crash s)
      else match gathered (tasks s) with
           | Some results =>
               Some (Sys (permits s) (tasks s) (chan s ++ [Sentinel]) (rd s)
                         (AwaitPrinter results) (printer s) (rstate s))
           | None => None
           end
  | AwaitPrinter results =>
      match printer s with
      | Reported =>
          Some (Sys (permits s) (tasks s) (chan s) (rd s)
                    (Exited (aggregate results)) (printer s) (rstate s))
      | PrinterRaised _ => Some (crash s)
      | _ => None
      end
  | Exited _ | MainRaised => None
  end.

Definition printer_step (now : time) (s : sys time) : option (sys time) :=
  match printer s with
  | Draining =>
      match chan s !! rd s with
      | None => None   (* the queue is empty: [get()] stays suspended *)
      | Some Sentinel =>
          Some (Sys (permits s) (tasks s) (chan s) (S (rd s)) (main s)
                    Reporting (write ENABLE_CURSOR (rstate s)))
      | Some (Ev _ ev) =>
          match loop_body (playbooks cfg) now ev (rstate s) with
          | (r, None) =>
              Some (Sys (permits s) (tasks s) (chan s) (S (rd s)) (main s)
                        Draining r)
          | (r, Some e) =>
              Some (Sys (permits s) (tasks s) (chan s) (S (rd s)) (main s)
                        (PrinterRaised e) (write ENABLE_CURSOR r))
          end
      end
  | Reporting =>
      match final_report fmt_elapsed (rstate s) with
      | (r, None) =>
          Some (Sys (permits s) (tasks s) (chan s) (rd s) (main s) Reported r)
      | (r, Some e) =>
          Some (Sys (permits s) (tasks s) (chan s) (rd s) (main s)
                    (PrinterRaised e) r)
      end
  | Reported | PrinterRaised _ | PrinterCancelled => None
  end.

(** The cancellation of a task that was inside
    [create_subprocess_exec] comes through: the CancelledError leaves
    [async with], which gives the permit back. *)
Definition cancel_step (i : nat) (s : sys time) : option (sys time) :=
  match tasks s !! i, jobs cfg !! i with
  | Some Spawning, Some _ =>
      Some (Sys (S (permits s)) (<[i := Cancelled]> (tasks s)) (chan s) (rd s)
                (main s) (printer s) (rstate s))
  | _, _ => None
  end.

(** One step of the event loop; [None] when the chosen task cannot
    run.  Nothing runs once [amain] has returned; once it is left by an
    exception the only steps are the cancellations that were pending. *)
Definition step (l : label time) (s : sys time) : option (sys time) :=
  match main s with
  | Exited _ => None
  | MainRaised =>
      match l with
      | LJob i => cancel_step i s
      | _ => None
      end
  | _ =>
      match l with
      | LJob i => job_step i s
      | LMain => main_step s
      | LPrinter now => printer_step now s
      end
  end.

(** A schedule run from a state. *)
Fixpoint exec (sched : list (label time)) (s : sys time) : option (sys time) :=
  match sched with
  | [] => Some s
  | l :: sched' =>
      match step l s with
      | Some s' => exec sched' s'
      | None => None
      end
  end.

Inductive reachable : sys time → Prop :=
| reachable_init : reachable init
| reachable_step l s s' : reachable s → step l s = Some s' → reachable s'.

(** The events task [i] has put so far, in order. *)
Definition events_of (i : nat) (c : list item) : list event :=
  omap (λ it, match it with
              | Ev j e => if decide (j = i) then Some e else None
              | Sentinel => None
              end) c.






End System.

(** ** Specification-side definitions

    The classification rules 2 to 8 of the specification, written from
    its words, to be compared with [classify]. *)

Definition trimmed_lines (chunk : str) : list str := Py.split_nl (Py.strip chunk).

Definition second_line_has (chunk keyword : str) : bool :=
  match trimmed_lines chunk !! 1%nat with
  | Some line => Py.contains line keyword
  | None => false
  end.

Definition first_line (chunk : str) : str := hd [] (Py.split_nl chunk).

Definition rules_6_to_8 (chunk : str) : kind :=
  if Py.startswith (first_line chunk) kw_TASK then TASK
  else if Py.contains chunk kw_ERROR then ERROR
  else MSG.

Definition rules_2_to_8 (chunk : str) : kind :=
  if second_line_has chunk kw_ok then OK
  else if second_line_has chunk kw_changed then CHANGED
  else if second_line_has chunk kw_failed || second_line_has chunk kw_fatal then ERROR
  else if second_line_has chunk kw_unreachable then UNREACHABLE
  else rules_6_to_8 chunk.



(** The summary header of a play without hosts, closed by a blank line. *)
Definition bare_recap_chunk : str :=
  Py.lit "PLAY RECAP *********" ++ [Py.LF; Py.LF].

(** A summary with one host line. *)
Definition recap_chunk : str :=
  Py.lit "PLAY RECAP *********" ++ [Py.LF]
  ++ Py.lit "web1 : ok=2 changed=0 unreachable=0 failed=0" ++ [Py.LF; Py.LF].

Definition task_ok_chunk : str :=
  Py.lit "TASK [staging : Install sudo] ****" ++ [Py.LF]
  ++ Py.lit "ok: [staging1.eeple.net]" ++ [Py.LF; Py.LF].

(** The four cursor movements around every lane update: up to the row,
    right past the name, back down, back to the first column. *)
Definition cursor_moves {time} (r : renderer time) (playbooks : list str)
    (position : nat) : list str * list str :=
  let diff := Z.of_nat (length playbooks) - Z.of_nat position in
  ([csi diff "A"; csi (longest_name r + 2) "C"],
   [csi diff "B"; csi (columns r + 1) "D"]).

(** ** Transitions and invariants of the event loop *)

(** What follows the read loop: the DONE event and the return value,
    when the loop ended without raising. *)
Definition after_loop (playbook : str) (p : process) (r : list event * bool)
  : list event * option Z :=
  if r.2 then (r.1 ++ [done_event playbook (returncode p)], Some (returncode p))
  else (r.1, None).

(** The events a task at point [js] still puts and its return value, if
    it is left to run. *)
Definition future (playbook : str) (p : process) (js : job_state)
  : list event * option Z :=
  match js with
  | Queued | Entered => run_playbook playbook p
  | Spawning =>
      if spawns p then after_loop playbook p (read_loop playbook [] (stdout p))
      else ([], None)
  | Reading task rest => after_loop playbook p (read_loop playbook task rest)
  | Waiting => ([done_event playbook (returncode p)], Some (returncode p))
  | Returned rc => ([], Some rc)
  | Failed _ | Cancelled => ([], None)
  end.

(** The task has put its START: it is past the first statement of
    [run_playbook]. *)
Definition past_start (js : job_state) : bool :=
  match js with
  | Queued | Entered | Cancelled => false
  | _ => true
  end.

Definition alive (m : main_state) : Prop :=
  match m with
  | Gathering | AwaitPrinter _ => True
  | Exited _ | MainRaised => False
  end.

(** What the printer has done so far agrees with the items it took. *)
Definition printer_sound {time} (r : renderer time) (taken : list item) : Prop :=
  (∀ pb, pb ∈ (recaps r).*1 → ∃ i e, Ev i e ∈ taken ∧ playbook e = pb) ∧
  (∀ i e, Ev i e ∈ taken → msgtype e = START → is_Some (starts r !! playbook e)) ∧
  (∀ i e, Ev i e ∈ taken → msgtype e = DONE → is_Some (ends r !! playbook e)).

Section Invariants.
Context {time : Type}.
Variable fmt_elapsed : time → time → str.
Variable cfg : config.

(** The steps of [step], one constructor for each. *)
Inductive trans : sys time → sys time → Prop :=
| trans_acquire s i n job :
    alive (main s) → tasks s !! i = Some Queued → jobs cfg !! i = Some job →
    permits s = S n →
    trans s (Sys n (<[i := Entered]> (tasks s)) (chan s) (rd s)
                 (main s) (printer s) (rstate s))
| trans_job s i js playbook p js' evs :
    alive (main s) → tasks s !! i = Some js →
    jobs cfg !! i = Some (playbook, p) →
    run_playbook_step playbook p js = Some (js', evs) →
    trans s (Sys (if finished js' then S (permits s) else permits s)
                 (<[i := js']> (tasks s)) (chan s ++ (Ev i <$> evs)) (rd s)
                 (main s) (printer s) (rstate s))
| trans_sentinel s results :
    main s = Gathering → existsb failed (tasks s) = false →
    gathered (tasks s) = Some results →
    trans s (Sys (permits s) (tasks s) (chan s ++ [Sentinel]) (rd s)
                 (AwaitPrinter results) (printer s) (rstate s))
| trans_gather_raises s :
    main s = Gathering → existsb failed (tasks s) = true →
    trans s (crash s)
| trans_exit s results :
    main s = AwaitPrinter results → printer s = Reported →
    trans s (Sys (permits s) (tasks s) (chan s) (rd s)
                 (Exited (aggregate results)) (printer s) (rstate s))
| trans_printer_raises s results e :
    main s = AwaitPrinter results → printer s = PrinterRaised e →
    trans s (crash s)
| trans_event s i ev now r e :
    alive (main s) → printer s = Draining →
    chan s !! rd s = Some (Ev i ev) →
    loop_body (playbooks cfg) now ev (rstate s) = (r, e) →
    trans s (Sys (permits s) (tasks s) (chan s) (S (rd s)) (main s)
                 (match e with None => Draining | Some e => PrinterRaised e end)
                 (match e with None => r | Some _ => write ENABLE_CURSOR r end))
| trans_break s :
    alive (main s) → printer s = Draining →
    chan s !! rd s = Some Sentinel →
    trans s (Sys (permits s) (tasks s) (chan s) (S (rd s)) (main s)
                 Reporting (write ENABLE_CURSOR (rstate s)))
| trans_report s r e :
    alive (main s) → printer s = Reporting →
    final_report fmt_elapsed (rstate s) = (r, e) →
    trans s (Sys (permits s) (tasks s) (chan s) (rd s) (main s)
                 (match e with None => Reported | Some e => PrinterRaised e end)
                 r)
| trans_cancelled s i job :
    main s = MainRaised → tasks s !! i = Some Spawning →
    jobs cfg !! i = Some job →
    trans s (Sys (S (permits s)) (<[i := Cancelled]> (tasks s)) (chan s) (rd s)
                 (main s) (printer s) (rstate s)).

Definition inv_length (s : sys time) : Prop :=
  length (tasks s) = length (jobs cfg).

Definition inv_permits (s : sys time) : Prop :=
  (permits s + holders (tasks s) = max_playbooks cfg)%nat.

Definition inv_script (s : sys time) : Prop :=
  ∀ i playbook p js,
    jobs cfg !! i = Some (playbook, p) → tasks s !! i = Some js →
    events_of i (chan s) `prefix_of` (run_playbook playbook p).1 ∧
    (js ≠ Cancelled →
     events_of i (chan s) ++ (future playbook p js).1 = (run_playbook playbook p).1 ∧
     (future playbook p js).2 = (run_playbook playbook p).2).

Definition inv_producers (s : sys time) : Prop :=
  ∀ i e, Ev i e ∈ chan s → is_Some (jobs cfg !! i).

Definition inv_main (s : sys time) : Prop :=
  (Sentinel ∈ chan s →
   (∃ c, chan s = c ++ [Sentinel] ∧ Sentinel ∉ c) ∧ is_Some (gathered (tasks s))) ∧
  (main s = Gathering → Sentinel ∉ chan s) ∧
  (∀ results, main s = AwaitPrinter results →
     gathered (tasks s) = Some results ∧ Sentinel ∈ chan s) ∧
  (∀ rc, main s = Exited rc →
     ∃ results, gathered (tasks s) = Some results ∧ rc = aggregate results).

Definition inv_printer (s : sys time) : Prop :=
  (rd s ≤ length (chan s))%nat ∧
  (printer s = Draining →
   (Sentinel ∉ take (rd s) (chan s)) ∧
   printer_sound (rstate s) (take (rd s) (chan s))) ∧
  (printer s = Reporting →
   Sentinel ∈ take (rd s) (chan s) ∧
   printer_sound (rstate s) (take (rd s) (chan s))) ∧
  (printer s = Reported → Sentinel ∈ chan s).

End Invariants.

(** Concrete runs, with integer clock readings. *)

Definition demo_fmt (e s : Z) : str := Py.of_int (e - s).

(** A process that prints nothing and exits with [rc]. *)
Definition quiet (rc : Z) : process := Process true [] rc.

(** A task from its start to its return when its process is [quiet]. *)
Definition whole_job (i : nat) : list (label Z) := replicate 5 (LJob i).

(** Two quiet jobs one after the other, the printer behind them. *)
Definition run_two : list (label Z) :=
  whole_job 0 ++ whole_job 1
  ++ [LPrinter 1; LPrinter 2; LPrinter 3; LPrinter 4; LMain;
      LPrinter 5; LPrinter 6; LMain].

Definition cfg_two : config :=
  Config [(Py.lit "a.yml", quiet 0); (Py.lit "b.yml", quiet 2)] 5 80.

(** One job exits with 1, the other is killed by signal 1 (SIGHUP). *)
Definition cfg_signal : config :=
  Config [(Py.lit "a.yml", quiet 1); (Py.lit "b.yml", quiet (-1))] 5 80.

Definition final_of (cfg : config) (sched : list (label Z)) : sys Z :=
  default (init cfg) (exec demo_fmt cfg sched (init cfg)).

(** The first process cannot be started; the second prints a task. *)
Definition cfg_spawn_fails : config :=
  Config [(Py.lit "a.yml", Process false [] 0);
          (Py.lit "b.yml",
           Process true [Line (Py.lit "TASK [x]" ++ [Py.LF]); Line BLANK] 0)] 5 80.

(** The second job starts its process, then the spawn of the first
    fails and [amain] is resumed. *)
Definition run_spawn_fails : list (label Z) :=
  [LJob 1; LJob 1; LJob 1; LJob 0; LJob 0; LJob 0; LMain].

(** A semaphore of one permit for two jobs. *)
Definition cfg_narrow : config :=
  Config [(Py.lit "a.yml", quiet 0); (Py.lit "b.yml", quiet 0)] 1 80.

(** The first job up to the reading of its process's output. *)
Definition run_first : list (label Z) := [LJob 0; LJob 0; LJob 0].



(** One job whose output is a summary. *)
Definition cfg_recap : config :=
  Config [(Py.lit "site.yml",
           Process true [Line (Py.lit "PLAY RECAP ****" ++ [Py.LF]);
                         Line (Py.lit "web1 : ok=1" ++ [Py.LF]);
                         Line BLANK] 0)] 5 80.

(** The job from start to return, the sentinel, and the printer up to
    the point where it leaves its loop. *)
Definition run_recap : list (label Z) :=
  replicate 8 (LJob 0)
  ++ [LMain; LPrinter 10; LPrinter 11; LPrinter 12; LPrinter 13].

(** The renderer of two playbooks on an 80 column terminal, before any
    event. *)
Definition demo_playbooks : list str := [Py.lit "a.yml"; Py.lit "b.yml"].

Definition demo_renderer : renderer Z := (prologue demo_playbooks 80).1.

Definition demo_ok_event : event := Event OK (Py.lit "b.yml") task_ok_chunk.

(** The line [print("Could not find playbook:", playbook, file=sys.stderr)]
    writes. *)
Definition could_not_find (playbook : str) : str :=
  Py.lit "Could not find playbook: " ++ playbook ++ [Py.LF].

(** The [for] loop of [check_playbooks] from a value of [fail] and the
    text on stderr so far; [isfile] is [os.path.isfile]. *)
Fixpoint check_playbooks_loop (isfile : str → bool) (playbooks : list str)
    (fail : bool) (stderr : list str) : bool * list str :=
  match playbooks with
  | [] => (fail, stderr)
  | playbook :: rest =>
      if isfile playbook then check_playbooks_loop isfile rest fail stderr
      else check_playbooks_loop isfile rest true
             (stderr ++ [could_not_find playbook])
  end.

Definition check_playbooks (isfile : str → bool) (playbooks : list str)
  : bool * list str :=
  check_playbooks_loop isfile playbooks false [].

(** The truth value of [os.environ.get(name)]: a string that is set and
    not empty. *)
Definition env_truthy (value : option str) : bool :=
  match value with
  | Some (_ :: _) => true
  | Some [] | None => false
  end.

(** The first statement of [amain] after [parse_args]: [Some (1, stderr)]
    when it returns 1, [None] when it goes on to run the playbooks.
    [check_playbooks] is not called when the variable is not set. *)
Definition amain_verify (verify : option str) (isfile : str → bool)
    (playbooks : list str) : option (Z * list str) :=
  if env_truthy verify then
    let '(fail, stderr) := check_playbooks isfile playbooks in
    if fail then Some (1, stderr) else None
  else None.

(** ** amain: from its first statement to the event loop *)

(** What [amain] reads of its environment before it creates the
    tasks.  [env_int] is Python's [int] on a string, [None] when it
    raises ValueError. *)
Record environ := Environ {
  env_verify : option str;         (* os.environ.get("ANSIBLE_PARALLEL_VERIFY_PLAYBOOKS") *)
  env_max_playbooks : option str;  (* os.environ.get("ANSIBLE_PARALLEL_MAX_PLAYBOOKS") *)
  env_isfile : str → bool;         (* os.path.isfile *)
  env_int : str → option Z;        (* int(text) *)
  env_columns : Z                  (* get_terminal_size().columns *)
}.

(** [int(os.environ.get("ANSIBLE_PARALLEL_MAX_PLAYBOOKS", 5))]: without
    the variable the default is the integer 5, with it the value is a
    string that [int] parses or rejects. *)
Definition max_playbooks_of_env (int : str → option Z) (value : option str)
  : option Z :=
  match value with
  | None => Some 5
  | Some text => int text
  end.

(** [asyncio.Semaphore(value)]: ValueError for a negative value. *)
Definition Semaphore (value : Z) : option nat :=
  if value <? 0 then None else Some (Z.to_nat value).

(** How [amain] gets to its event loop, or does not. *)
Inductive entry :=
| CheckFailed (stderr : list str)  (* [return 1]: a playbook is missing *)
| SemaphoreError                   (* ValueError raised by [int] or [Semaphore] *)
| Loop (cfg : config).             (* the tasks are created: the loop starts at [init cfg] *)

Definition amain_entry (env : environ) (jobs : list (str * process)) : entry :=
  match amain_verify (env_verify env) (env_isfile env) (fst <$> jobs) with
  | Some (_, stderr) => CheckFailed stderr
  | None =>
      match max_playbooks_of_env (env_int env) (env_max_playbooks env)
            ≫= Semaphore with
      | None => SemaphoreError
      | Some size => Loop (Config jobs size (env_columns env))
      end
  end.

(** [amain] returns [rc]. *)
Definition amain_returns {time : Type} (fmt_elapsed : time → time → str)
    (env : environ) (jobs : list (str * process)) (rc : Z) : Prop :=
  match amain_entry env jobs with
  | CheckFailed _ => rc = 1
  | SemaphoreError => False
  | Loop cfg => ∃ s : sys time, reachable fmt_elapsed cfg s ∧ main s = Exited rc
  end.

(** [amain] is left by an exception. *)
Definition amain_raises {time : Type} (fmt_elapsed : time → time → str)
    (env : environ) (jobs : list (str * process)) : Prop :=
  match amain_entry env jobs with
  | CheckFailed _ => False
  | SemaphoreError => True
  | Loop cfg => ∃ s : sys time, reachable fmt_elapsed cfg s ∧ main s = MainRaised
  end.

(** [int] on the decimal literals of the examples: digits, with an
    optional minus sign in front. *)
Fixpoint demo_digits (acc : Z) (text : str) : option Z :=
  match text with
  | [] => Some acc
  | c :: rest =>
      if ((48 <=? c) && (c <=? 57))%N
      then demo_digits (10 * acc + (Z.of_N c - 48)) rest
      else None
  end.

Definition demo_int (text : str) : option Z :=
  match text with
  | [] => None
  | c :: rest =>
      if (c =? 45)%N then
        match rest with
        | [] => None
        | _ :: _ => Z.opp <$> demo_digits 0 rest
        end
      else demo_digits 0 text
  end.

(** An environment: the two variables, every playbook file present or
    every one missing, an 80 column terminal. *)
Definition demo_env (verify max_playbooks : option string) (present : bool)
  : environ :=
  Environ (Py.lit <$> verify) (Py.lit <$> max_playbooks) (λ _, present)
          demo_int 80.

(** What an event writes into its lane, between the cursor movements. *)
Definition lane_text {time} (r : renderer time) (ev : event) : list str :=
  match msgtype ev with
  | START => [ERASE_LINE; ATTRS_OFF; Py.lit "Started"]
  | DONE => [ERASE_LINE; ATTRS_OFF; msg ev]
  | TASK => [ERASE_LINE; ATTRS_OFF;
             truncate (hd [] (Py.split_nl (msg ev)))
                      (columns r - longest_name r - 4)]
  | _ => []
  end.

(** [recaps.get(playbook, [])]: the chunks kept for a playbook. *)
Fixpoint recaps_get (recaps : list (str * list str)) (playbook : str) : list str :=
  match recaps with
  | [] => []
  | (k, v) :: r => if Py.eqb k playbook then v else recaps_get r playbook
  end.

(** The [while True:] loop over the results the queue delivers, each
    with the clock reading of its iteration, as long as they are events. *)
Fixpoint run_loop {time : Type} (playbooks : list str)
    (results : list (time * event)) (r : renderer time)
  : renderer time * option exn :=
  match results with
  | [] => (r, None)
  | (now, ev) :: rest =>
      match loop_body playbooks now ev r with
      | (r', None) => run_loop playbooks rest r'
      | (r', Some e) => (r', Some e)
      end
  end.

(** The events kept for the report of a playbook. *)
Definition reported (pb : str) (ev : event) : Prop :=
  (msgtype ev = RECAP ∨ msgtype ev = ERROR) ∧ playbook ev = pb.

(** Three events of one playbook, with their clock readings. *)
Definition demo_results : list (Z * event) :=
  [(1, Event START (Py.lit "a.yml") []);
   (2, Event RECAP (Py.lit "a.yml") recap_chunk);
   (5, Event DONE (Py.lit "a.yml") (Py.lit "Done."))].

(** The text of the report for one playbook once its header is written:
    the lines of its chunks, the lines holding the summary marker left
    out, each followed by a line feed. *)
Definition report_body (recap : list str) : list str :=
  recap ≫= λ chunk,
    filter (λ line, Py.contains line PLAY_RECAP = false) (Py.split_nl chunk)
      ≫= λ line, [line; [Py.LF]].

(** Job [i] is open in what the printer has taken: its START is taken,
    its DONE is not. *)
Definition open_job (taken : list item) (i : nat) : bool :=
  bool_decide (START ∈ msgtype <$> events_of i taken)
  && negb (bool_decide (DONE ∈ msgtype <$> events_of i taken)).

(** The playbooks of the open jobs, in job order. *)
Definition open_names (jobs : list (str * process)) (taken : list item)
  : list str :=
  omap (λ i, if open_job taken i then fst <$> jobs !! i else None)
       (seq 0 (length jobs)).

Definition inv_running {time} (cfg : config) (s : sys time) : Prop :=
  (printer s = Draining ∨ printer s = Reporting) →
  currently_running (rstate s)
  ≡ₚ open_names (jobs cfg) (take (rd s) (chan s)).

(** A process that can be started and whose output is read without
    error. *)
Definition healthy (p : process) : Prop :=
  spawns p = true ∧ Fault ∉ stdout p.

(** The steps a task can still take. *)
Definition job_fuel (p : process) (js : job_state) : nat :=
  match js with
  | Queued => length (stdout p) + 5
  | Entered => length (stdout p) + 4
  | Spawning => length (stdout p) + 3
  | Reading _ rest => length rest + 2
  | Waiting => 1
  | Returned _ | Failed _ | Cancelled => 0
  end.

Definition jobs_fuel (jobs : list (str * process)) (ts : list job_state) : nat :=
  sum_list (zip_with (λ job js, job_fuel job.2 js) jobs ts).

(** A bound on the steps the event loop can still take. *)
Definition fuel {time} (cfg : config) (s : sys time) : nat :=
  2 * jobs_fuel (jobs cfg) (tasks s)
  + (length (chan s) - rd s)
  + match main s with Gathering => 3 | AwaitPrinter _ => 1 | _ => 0 end
  + match printer s with Draining => 2 | Reporting => 1 | _ => 0 end.

(** Two jobs and a semaphore without permit. *)
Definition cfg_zero : config :=
  Config [(Py.lit "a.yml", quiet 0); (Py.lit "b.yml", quiet 0)] 0 80.

(* ================================================================== *)
(** * Part II.  Properties                                              *)
(* ================================================================== *)

(** ** Python strings *)

Lemma split_nl_cons (s : str) : ∃ l ls, Py.split_nl s = l :: ls.
Proof.
  destruct s as [|c s]; simpl; [eauto|].
  destruct (c =? Py.LF)%N; [eauto|].
  destruct (Py.split_nl s); eauto.
Qed.

Lemma startswith_first_line (p s : str) :
  Py.LF ∉ p → Py.startswith (first_line s) p = Py.startswith s p.
Proof.
  unfold first_line. revert s.
  induction p as [|a p IH]; intros s Hp.
  - by destruct (hd [] (Py.split_nl s)), s.
  - apply not_elem_of_cons in Hp as [Ha Hp].
    destruct s as [|b s]; [done|]. simpl.
    destruct (N.eqb_spec b Py.LF) as [->|Hb].
    + simpl. symmetry. rewrite andb_false_iff. left. by apply N.eqb_neq.
    + specialize (IH s Hp).
      destruct (split_nl_cons s) as (l & ls & Hs). rewrite Hs in IH |- *.
      simpl in *. by rewrite IH.
Qed.

Lemma trimmed_lines_length_lt_2 (chunk : str) :
  (length (trimmed_lines chunk) < 2)%nat ↔ ∃ l, trimmed_lines chunk = [l].
Proof.
  destruct (split_nl_cons (Py.strip chunk)) as (l & ls & Hs).
  unfold trimmed_lines. rewrite Hs. split.
  - destruct ls; simpl; [eauto|lia].
  - intros [l' [= -> ->]]. simpl. lia.
Qed.

(** ** The classifier *)

Lemma prepare_chunk_tail_rules (chunk : str) :
  prepare_chunk_tail chunk = rules_6_to_8 chunk.
Proof.
  unfold prepare_chunk_tail, rules_6_to_8.
  rewrite startswith_first_line; [done|].
  apply (bool_decide_unpack _). by vm_compute.
Qed.

Lemma prepare_chunk_tail_not_recap (chunk : str) :
  prepare_chunk_tail chunk ∈ [TASK; ERROR; MSG].
Proof.
  unfold prepare_chunk_tail.
  destruct (Py.startswith chunk kw_TASK), (Py.contains chunk kw_ERROR);
    set_solver.
Qed.

Lemma classify_kinds (chunk : str) :
  classify chunk ∈ [RECAP; OK; CHANGED; ERROR; UNREACHABLE; TASK; MSG].
Proof.
  unfold classify.
  pose proof (prepare_chunk_tail_not_recap chunk).
  destruct (Py.split_nl (Py.strip chunk)) as [|l0 [|l1 ls]]; [set_solver..|].
  destruct (Py.contains chunk PLAY_RECAP), (Py.contains l1 kw_ok),
    (Py.contains l1 kw_changed), (Py.contains l1 kw_failed),
    (Py.contains l1 kw_fatal), (Py.contains l1 kw_unreachable);
    simpl; set_solver.
Qed.

Lemma classify_not_START_DONE (chunk : str) :
  classify chunk ≠ START ∧ classify chunk ≠ DONE.
Proof.
  pose proof (classify_kinds chunk) as H.
  split; intros E; rewrite E in H; set_solver.
Qed.

(** C4, as amended.  [prepare_chunk] returns kind RECAP exactly for the
    chunks that contain the marker "PLAY RECAP" and whose trimmed line
    list has at least two entries; for those the marker is looked at
    before every keyword, so the event is RECAP whatever else the chunk
    contains. *)
Theorem prepare_chunk_recap (playbook chunk : str) :
  (Py.contains chunk PLAY_RECAP = true →
   (2 ≤ length (trimmed_lines chunk))%nat →
   prepare_chunk playbook chunk = Event RECAP playbook chunk) ∧
  (msgtype (prepare_chunk playbook chunk) = RECAP →
   Py.contains chunk PLAY_RECAP = true ∧ (2 ≤ length (trimmed_lines chunk))%nat).
Proof.
  unfold prepare_chunk, classify, trimmed_lines. simpl.
  pose proof (prepare_chunk_tail_not_recap chunk) as Htail.
  destruct (Py.split_nl (Py.strip chunk)) as [|l0 [|l1 ls]]; simpl.
  - split; [lia|]. intros E. rewrite E in Htail. set_solver.
  - split; [lia|]. intros E. rewrite E in Htail. set_solver.
  - split.
    + intros -> _. done.
    + destruct (Py.contains chunk PLAY_RECAP); [intros _; split; [done|lia]|].
      destruct (Py.contains l1 kw_ok), (Py.contains l1 kw_changed),
        (Py.contains l1 kw_failed), (Py.contains l1 kw_fatal),
        (Py.contains l1 kw_unreachable); simpl; try discriminate;
        intros E; rewrite E in Htail; set_solver.
Qed.

Lemma prepare_chunk_recap_witness :
  prepare_chunk (Py.lit "site.yml") recap_chunk
  = Event RECAP (Py.lit "site.yml") recap_chunk.
Proof.
  apply (proj1 (prepare_chunk_recap (Py.lit "site.yml") recap_chunk)).
  - by vm_compute.
  - vm_compute. lia.
Defined.

(** C4 as stated fails: a chunk that contains the marker but has a single
    line after trimming is classified MSG. *)
Lemma prepare_chunk_recap_counterexample :
  Py.contains bare_recap_chunk PLAY_RECAP = true ∧
  length (trimmed_lines bare_recap_chunk) = 1%nat ∧
  msgtype (prepare_chunk (Py.lit "site.yml") bare_recap_chunk) = MSG.
Proof. by vm_compute. Qed.

(** C5.  For a chunk that [prepare_chunk] does not classify RECAP the
    kind is the one of the first matching rule among rules 2 to 8 of the
    specification: the keyword rules on the second trimmed line (which
    need two lines), then TASK, "ERROR!" and MSG; with fewer than two
    trimmed lines only rules 6 to 8 apply.  The single lines "TASK [x]"
    and "random text" give TASK and MSG. *)
Theorem prepare_chunk_rules (playbook chunk : str) :
  (msgtype (prepare_chunk playbook chunk) ≠ RECAP →
   prepare_chunk playbook chunk = Event (rules_2_to_8 chunk) playbook chunk) ∧
  ((length (trimmed_lines chunk) < 2)%nat →
   prepare_chunk playbook chunk = Event (rules_6_to_8 chunk) playbook chunk) ∧
  msgtype (prepare_chunk playbook (Py.lit "TASK [x]")) = TASK ∧
  msgtype (prepare_chunk playbook (Py.lit "random text")) = MSG.
Proof.
  split; [|split; [|by vm_compute]].
  - unfold prepare_chunk, classify, rules_2_to_8, second_line_has, trimmed_lines.
    simpl. rewrite prepare_chunk_tail_rules.
    destruct (Py.split_nl (Py.strip chunk)) as [|l0 [|l1 ls]]; simpl; try done.
    destruct (Py.contains chunk PLAY_RECAP); [done|]. intros _.
    by destruct (Py.contains l1 kw_ok), (Py.contains l1 kw_changed),
      (Py.contains l1 kw_failed), (Py.contains l1 kw_fatal),
      (Py.contains l1 kw_unreachable).
  - intros [l Hl]%trimmed_lines_length_lt_2.
    unfold prepare_chunk, classify. unfold trimmed_lines in Hl. rewrite Hl.
    by rewrite prepare_chunk_tail_rules.
Qed.

Lemma prepare_chunk_rules_witness :
  prepare_chunk (Py.lit "site.yml") task_ok_chunk
  = Event OK (Py.lit "site.yml") task_ok_chunk.
Proof.
  apply (proj1 (prepare_chunk_rules (Py.lit "site.yml") task_ok_chunk)).
  by vm_compute.
Defined.

(** ** truncate *)

(** C7, as amended.  For an available width of at least one: a string
    longer than the width is cut to its first width-1 characters followed
    by one ellipsis, a string of length exactly the width.  For any
    width, a string no longer than the width is unchanged. *)
Theorem truncate_spec (string : str) (max_width : Z) :
  (Py.len string ≤ max_width → truncate string max_width = string) ∧
  (1 ≤ max_width → max_width < Py.len string →
   truncate string max_width
     = take (Z.to_nat (max_width - 1)) string ++ [ELLIPSIS] ∧
   Py.len (truncate string max_width) = max_width ∧
   last (truncate string max_width) = Some ELLIPSIS).
Proof.
  unfold truncate, Py.slice_to, Py.len. split.
  - intros H. by rewrite (proj2 (Z.leb_le _ _) H).
  - intros H1 H2.
    rewrite (proj2 (Z.leb_gt _ _) H2), (proj2 (Z.ltb_ge _ _)) by lia.
    split; [done|]. split.
    + rewrite length_app, length_take. simpl. lia.
    + by rewrite last_snoc.
Qed.

Lemma truncate_spec_witness :
  truncate (Py.lit "TASK [common : ping]") 8 = Py.lit "TASK [c" ++ [ELLIPSIS] ∧
  truncate (Py.lit "TASK") 8 = Py.lit "TASK".
Proof.
  split.
  - apply (proj2 (truncate_spec (Py.lit "TASK [common : ping]") 8)).
    + lia.
    + vm_compute. done.
  - apply (proj1 (truncate_spec (Py.lit "TASK") 8)).
    vm_compute. discriminate.
Defined.

(** C7 as stated fails for a width below one: the negative slice bound
    counts from the end, so the result is not of the width's length. *)
Lemma truncate_counterexample :
  0 < Py.len (Py.lit "abc") ∧
  truncate (Py.lit "abc") 0 = Py.lit "ab" ++ [ELLIPSIS] ∧
  Py.len (truncate (Py.lit "abc") 0) ≠ 0.
Proof. by vm_compute. Qed.

(** ** The stream reader *)

Lemma eqb_true (a b : str) : a = b → Py.eqb a b = true.
Proof. intros. by apply bool_decide_eq_true. Qed.








(** ** The renderer *)

Lemma index_is_Some (l : list str) (x : str) : x ∈ l → is_Some (Py.index l x).
Proof.
  induction l as [|y l IH]; [by intros ?%elem_of_nil|].
  intros Hx. simpl. unfold Py.eqb. case_bool_decide; [by eexists|].
  apply elem_of_cons in Hx as [->|Hx]; [done|].
  destruct (IH Hx) as [n ->]. by eexists.
Qed.

(** C9.  For an event of kind OK, CHANGED or UNREACHABLE the renderer
    leaves [starts], [ends], [recaps] and [currently_running] as they
    were and writes only the four cursor movements, no lane text.  More
    generally [recaps] changes only for RECAP and ERROR, and an event
    other than START, TASK or DONE writes nothing but the cursor
    movements. *)
Theorem loop_body_frame {time : Type} (playbooks : list str) (now : time)
    (ev : event) (r r' : renderer time) (e : option exn) :
  loop_body playbooks now ev r = (r', e) →
  (msgtype ev ∈ [OK; CHANGED; UNREACHABLE] →
   starts r' = starts r ∧ ends r' = ends r ∧ recaps r' = recaps r ∧
   currently_running r' = currently_running r) ∧
  (recaps r' ≠ recaps r → msgtype ev ∈ [RECAP; ERROR]) ∧
  (msgtype ev ∉ [START; TASK; DONE] →
   match Py.index playbooks (playbook ev) with
   | Some position =>
       e = None ∧
       stream r' = stream r ++ (cursor_moves r playbooks position).1
                            ++ (cursor_moves r playbooks position).2
   | None => e = Some ValueError ∧ stream r' = stream r
   end).
Proof.
  unfold loop_body, cursor_moves.
  destruct ev as [k pb m]. simpl.
  destruct (Py.index playbooks pb) as [position|].
  2: { intros [= <- <-]. simpl. split; [done|]. split; [done|]. done. }
  destruct k; simpl; try (destruct (Py.remove (currently_running r) pb));
    intros [= <- <-]; simpl;
    (split; [try done; intros H; set_solver|]);
    (split; [try done; intros _; set_solver|]);
    try (intros H; set_solver);
    intros _; (split; [done|]); by rewrite <- !app_assoc.
Qed.

(** ** The event loop: steps and reachable states *)

Section Loop.
Context {time : Type}.
Variable fmt_elapsed : time → time → str.
Variable cfg : config.

Implicit Types (s : sys time) (l : label time).

(** After [amain] is left by an exception a step is a pending
    cancellation that comes through. *)
Lemma step_raised l s s' :
  main s = MainRaised → step fmt_elapsed cfg l s = Some s' →
  ∃ i, l = LJob i ∧ tasks s !! i = Some Spawning ∧
       is_Some (jobs cfg !! i) ∧
       s' = Sys (S (permits s)) (<[i := Cancelled]> (tasks s)) (chan s) (rd s)
                (main s) (printer s) (rstate s).
Proof.
  intros Hm. unfold step, cancel_step. rewrite Hm.
  destruct l as [i| |now]; try done.
  destruct (tasks s !! i) as [[]|] eqn:Hi; try done.
  destruct (jobs cfg !! i) as [job|] eqn:Hjob; [|done].
  intros [= <-]. by exists i.
Qed.

Lemma step_alive l s s' :
  step fmt_elapsed cfg l s = Some s' → alive (main s) ∨ main s = MainRaised.
Proof. unfold step. destruct (main s); simpl; auto. done. Qed.

Lemma step_trans l s s' :
  step fmt_elapsed cfg l s = Some s' → trans fmt_elapsed cfg s s'.
Proof.
  intros Hstep. destruct (step_alive _ _ _ Hstep) as [Halive|Hraised]; last first.
  { destruct (step_raised _ _ _ Hraised Hstep) as (i & _ & Hi & [job Hjob] & ->).
    by eapply trans_cancelled. }
  assert (match l with
          | LJob i => job_step cfg i s
          | LMain => main_step s
          | LPrinter now => printer_step fmt_elapsed cfg now s
          end = Some s') as H.
  { unfold step in Hstep. by destruct (main s). }
  clear Hstep. destruct l as [i| |now].
  - unfold job_step in H.
    destruct (tasks s !! i) as [js|] eqn:Hjs; [|done].
    destruct (jobs cfg !! i) as [[pb p]|] eqn:Hjob; [|by destruct js].
    destruct (decide (js = Queued)) as [->|Hq].
    + destruct (permits s) as [|n] eqn:Hn; [done|].
      injection H as <-. by eapply trans_acquire.
    + assert (match run_playbook_step pb p js with
              | Some (js', evs) =>
                  Some (Sys (if finished js' then S (permits s) else permits s)
                          (<[i:=js']> (tasks s)) (chan s ++ (Ev i <$> evs))
                          (rd s) (main s) (printer s) (rstate s))
              | None => None
              end = Some s') as H' by (by destruct js).
      destruct (run_playbook_step pb p js) as [[js' evs]|] eqn:Hrun; [|done].
      injection H' as <-. by eapply trans_job.
  - unfold main_step in H.
    destruct (main s) as [|results| |] eqn:Hm; try done.
    + destruct (existsb failed (tasks s)) eqn:Hf.
      * injection H as <-. by apply trans_gather_raises.
      * destruct (gathered (tasks s)) as [results|] eqn:Hg; [|done].
        injection H as <-. by apply trans_sentinel.
    + destruct (printer s) eqn:Hp; try done; injection H as <-.
      * rewrite <- Hp. by apply trans_exit.
      * by eapply trans_printer_raises.
  - unfold printer_step in H.
    destruct (printer s) eqn:Hp; try done.
    + destruct (chan s !! rd s) as [[i ev|]|] eqn:Hget; [| |done].
      * destruct (loop_body (playbooks cfg) now ev (rstate s)) as [r [e|]] eqn:Hb;
          injection H as <-.
        -- by apply (trans_event _ _ s i ev now r (Some e)).
        -- by apply (trans_event _ _ s i ev now r None).
      * injection H as <-. by apply trans_break.
    + destruct (final_report fmt_elapsed (rstate s)) as [r [e|]] eqn:Hr;
        injection H as <-.
      * by apply (trans_report _ _ s r (Some e)).
      * by apply (trans_report _ _ s r None).
Qed.

(** A property that holds initially and is kept by every step holds
    in every reachable state. *)
Lemma reachable_ind_trans (P : sys time → Prop) :
  P (init cfg) →
  (∀ s s', reachable fmt_elapsed cfg s → P s →
           trans fmt_elapsed cfg s s' → P s') →
  ∀ s, reachable fmt_elapsed cfg s → P s.
Proof.
  intros Hinit Hstep s Hs. induction Hs as [|l s s' Hs IH Hl]; [done|].
  eapply Hstep; [done..|]. by eapply step_trans.
Qed.

Lemma exec_reachable sched s s' :
  reachable fmt_elapsed cfg s → exec fmt_elapsed cfg sched s = Some s' →
  reachable fmt_elapsed cfg s'.
Proof.
  revert s. induction sched as [|l sched IH]; intros s Hs; simpl.
  - by intros [= <-].
  - destruct (step fmt_elapsed cfg l s) as [s1|] eqn:Hl; [|done].
    apply IH. by eapply reachable_step.
Qed.

Lemma init_tasks : tasks (init (time:=time) cfg) = replicate (length (jobs cfg)) Queued.
Proof. unfold init. by destruct (prologue _ _). Qed.

Lemma init_chan : chan (init (time:=time) cfg) = [].
Proof. unfold init. by destruct (prologue _ _). Qed.

Lemma init_main : main (init (time:=time) cfg) = Gathering.
Proof. unfold init. by destruct (prologue _ _). Qed.

Lemma init_permits : permits (init (time:=time) cfg) = max_playbooks cfg.
Proof. unfold init. by destruct (prologue _ _). Qed.

Lemma init_rd : rd (init (time:=time) cfg) = 0%nat.
Proof. unfold init. by destruct (prologue _ _). Qed.

End Loop.

(** ** The semaphore *)

Lemma holders_cons (js : job_state) (ts : list job_state) :
  holders (js :: ts) = ((if holds_permit js then 1 else 0) + holders ts)%nat.
Proof.
  unfold holders. rewrite filter_cons.
  destruct (holds_permit js); by case_decide.
Qed.

Lemma holders_insert (ts : list job_state) (i : nat) (js js' : job_state) :
  ts !! i = Some js →
  (holders (<[i := js']> ts) + (if holds_permit js then 1 else 0)
   = holders ts + (if holds_permit js' then 1 else 0))%nat.
Proof.
  revert i. induction ts as [|t ts IH]; intros [|i] Hi; try done; simpl in *.
  - injection Hi as ->. rewrite !holders_cons. lia.
  - rewrite !holders_cons. specialize (IH i Hi). lia.
Qed.

Lemma holders_cancel (ts : list job_state) :
  (holders (cancel <$> ts) ≤ holders ts)%nat.
Proof.
  induction ts as [|t ts IH]; [done|].
  rewrite fmap_cons, !holders_cons. destruct t; simpl; lia.
Qed.

Lemma run_playbook_step_holds (playbook : str) (p : process)
    (js js' : job_state) (evs : list event) :
  run_playbook_step playbook p js = Some (js', evs) →
  holds_permit js = true ∧ holds_permit js' = negb (finished js') ∧
  js' ≠ Cancelled ∧ js' ≠ Queued ∧ js' ≠ Entered.
Proof.
  destruct js as [| | |task [|[line|] rest]| | | |]; simpl; try done.
  - by intros [= <- <-].
  - destruct (spawns p); by intros [= <- <-].
  - by intros [= <- <-].
  - destruct (Py.eqb line []); [by intros [= <- <-]|].
    destruct (Py.eqb line BLANK); by intros [= <- <-].
  - by intros [= <- <-].
  - by intros [= <- <-].
Qed.

Section Permits.
Context {time : Type}.
Variable fmt_elapsed : time → time → str.
Variable cfg : config.

Lemma inv_length_holds (s : sys time) :
  reachable fmt_elapsed cfg s → inv_length cfg s.
Proof.
  revert s. apply reachable_ind_trans; unfold inv_length.
  - by rewrite init_tasks, length_replicate.
  - intros s1 s2 _ IH Ht.
    destruct Ht; simpl; rewrite ?length_insert, ?length_fmap; done.
Qed.

Lemma inv_permits_holds (s : sys time) :
  reachable fmt_elapsed cfg s → inv_permits cfg s.
Proof.
  revert s. apply reachable_ind_trans; unfold inv_permits.
  - rewrite init_tasks, init_permits.
    assert (∀ n, holders (replicate n Queued) = 0%nat) as ->; [|lia].
    induction n as [|n IH]; [done|]. simpl. by rewrite holders_cons, IH.
  - intros s1 s2 _ IH Ht.
    destruct Ht as [s i n job _ Hi _ Hn|s i js pb p js' evs _ Hi _ Hrun
                   | | | | | | | |s i job _ Hi _];
      simpl; try done.
    + pose proof (holders_insert _ _ _ Entered Hi) as H. simpl in H. lia.
    + pose proof (holders_insert _ _ _ js' Hi) as H.
      apply run_playbook_step_holds in Hrun as (Hj & Hh & _).
      rewrite Hj, Hh in H. destruct (finished js'); simpl in H; lia.
    + pose proof (holders_cancel (tasks s)). lia.
    + pose proof (holders_cancel (tasks s)). lia.
    + pose proof (holders_insert _ _ _ Cancelled Hi) as H. simpl in H. lia.
Qed.

End Permits.

(** ** The events of one task *)

Lemma events_of_app (i : nat) (c1 c2 : list item) :
  events_of i (c1 ++ c2) = events_of i c1 ++ events_of i c2.
Proof. unfold events_of. by rewrite omap_app. Qed.

Lemma events_of_self (i : nat) (evs : list event) :
  events_of i (Ev i <$> evs) = evs.
Proof.
  induction evs as [|e evs IH]; [done|].
  unfold events_of in *. csimpl. rewrite decide_True by done. simpl.
  by rewrite IH.
Qed.

Lemma events_of_other (i j : nat) (evs : list event) :
  i ≠ j → events_of j (Ev i <$> evs) = [].
Proof.
  intros Hij. induction evs as [|e evs IH]; [done|].
  unfold events_of in *. csimpl. by rewrite decide_False.
Qed.

Lemma elem_of_events_of (i : nat) (e : event) (c : list item) :
  e ∈ events_of i c ↔ Ev i e ∈ c.
Proof.
  unfold events_of. rewrite list_elem_of_omap. split.
  - intros ([j e'|] & Hin & Heq); [|done].
    case_decide; [|done]. by simplify_eq.
  - intros Hin. exists (Ev i e). split; [done|]. by rewrite decide_True.
Qed.

Lemma run_playbook_unfold (playbook : str) (p : process) :
  run_playbook playbook p
  = if spawns p then
      (start_event playbook
         :: (after_loop playbook p (read_loop playbook [] (stdout p))).1,
       (after_loop playbook p (read_loop playbook [] (stdout p))).2)
    else ([start_event playbook], None).
Proof.
  unfold run_playbook, after_loop.
  destruct (spawns p); [|done].
  by destruct (read_loop playbook [] (stdout p)) as [evs []].
Qed.

(** One step of [run_playbook_step] puts the next events of [future]. *)
Lemma future_step (playbook : str) (p : process) (js js' : job_state)
    (evs : list event) :
  run_playbook_step playbook p js = Some (js', evs) →
  (future playbook p js).1 = evs ++ (future playbook p js').1 ∧
  (future playbook p js).2 = (future playbook p js').2.
Proof.
  destruct js as [| | |task [|[line|] rest]| | | |]; simpl; try done.
  - intros [= <- <-]. rewrite run_playbook_unfold. simpl.
    by destruct (spawns p).
  - destruct (spawns p); by intros [= <- <-].
  - by intros [= <- <-].
  - destruct (Py.eqb line []); [by intros [= <- <-]|].
    destruct (Py.eqb line BLANK); intros [= <- <-]; [|done].
    unfold after_loop. simpl.
    by destruct (read_loop playbook [] rest) as [evs' []].
  - by intros [= <- <-].
  - by intros [= <- <-].
Qed.

Section Script.
Context {time : Type}.
Variable fmt_elapsed : time → time → str.
Variable cfg : config.

Lemma inv_script_holds (s : sys time) :
  reachable fmt_elapsed cfg s → inv_script cfg s.
Proof.
  revert s. apply reachable_ind_trans; unfold inv_script.
  - intros i pb p js Hjob. rewrite init_tasks, init_chan.
    intros [-> _]%lookup_replicate. simpl.
    split; [apply prefix_nil|done].
  - intros s1 s2 _ IH Ht.
    destruct Ht as [s i n job _ Hi _ Hn|s i js0 pb0 p0 js' evs _ Hi Hj0 Hrun
                   | | | | | | | |s i job _ Hi _]; simpl; try done.
    + intros k pb p js Hjob Hk.
      destruct (decide (k = i)) as [->|Hne].
      * rewrite list_lookup_insert_eq in Hk by (by eapply lookup_lt_Some).
        injection Hk as <-.
        destruct (IH i pb p Queued Hjob Hi) as [Hpre Heq]. split; [done|].
        intros _. by apply Heq.
      * rewrite list_lookup_insert_ne in Hk by done. by apply IH.
    + intros k pb p js Hjob Hk.
      destruct (decide (k = i)) as [->|Hne].
      * rewrite list_lookup_insert_eq in Hk by (by eapply lookup_lt_Some).
        injection Hk as <-. rewrite Hj0 in Hjob. injection Hjob as <- <-.
        rewrite events_of_app, events_of_self.
        destruct (IH i pb0 p0 js0 Hj0 Hi) as [_ Heq].
        destruct Heq as [Heq1 Heq2]; [by intros ->|].
        destruct (future_step _ _ _ _ _ Hrun) as [Hf1 Hf2].
        rewrite Hf1, app_assoc in Heq1. rewrite Hf2 in Heq2.
        split; [|done]. rewrite <- Heq1. by apply prefix_app_r.
      * rewrite list_lookup_insert_ne in Hk by done.
        rewrite events_of_app, events_of_other, app_nil_r by done.
        by apply IH.
    + intros k pb p js Hjob Hk.
      rewrite events_of_app. simpl. rewrite app_nil_r. by apply IH.
    + intros k pb p js Hjob Hk.
      rewrite list_lookup_fmap in Hk.
      destruct (tasks s !! k) as [js0|] eqn:Hk0; [|done].
      injection Hk as <-.
      destruct (IH k pb p js0 Hjob Hk0) as [Hpre Heq]. split; [done|].
      by destruct js0.
    + intros k pb p js Hjob Hk.
      rewrite list_lookup_fmap in Hk.
      destruct (tasks s !! k) as [js0|] eqn:Hk0; [|done].
      injection Hk as <-.
      destruct (IH k pb p js0 Hjob Hk0) as [Hpre Heq]. split; [done|].
      by destruct js0.
    + intros k pb p js Hjob Hk.
      destruct (decide (k = i)) as [->|Hne].
      * rewrite list_lookup_insert_eq in Hk by (by eapply lookup_lt_Some).
        injection Hk as <-.
        destruct (IH i pb p Spawning Hjob Hi) as [Hpre _]. by split.
      * rewrite list_lookup_insert_ne in Hk by done. by apply IH.
Qed.

Lemma inv_producers_holds (s : sys time) :
  reachable fmt_elapsed cfg s → inv_producers cfg s.
Proof.
  revert s. apply reachable_ind_trans; unfold inv_producers.
  - intros i e. rewrite init_chan. by intros ?%elem_of_nil.
  - intros s1 s2 _ IH Ht.
    destruct Ht as [|s i js0 pb0 p0 js' evs _ Hi Hj0 Hrun| | | | | | | |];
      simpl; try done.
    + intros k e [Hin|Hin]%elem_of_app; [by eapply IH|].
      apply list_elem_of_fmap in Hin as (e' & [= -> ->] & _). by eexists.
    + intros k e [Hin|Hin]%elem_of_app; [by eapply IH|].
      by apply list_elem_of_singleton in Hin.
Qed.

End Script.

(** ** gather and the sentinel *)

Lemma gathered_lookup (ts : list job_state) (results : list Z) (i : nat)
    (js : job_state) :
  gathered ts = Some results → ts !! i = Some js →
  ∃ rc, js = Returned rc ∧ results !! i = Some rc.
Proof.
  intros Hg%mapM_Some_1 Hi.
  destruct (Forall2_lookup_l _ _ _ _ _ Hg Hi) as (rc & Hrc & Hjs).
  exists rc. split; [|done]. by destruct js; simplify_eq/=.
Qed.

Lemma gathered_length (ts : list job_state) (results : list Z) :
  gathered ts = Some results → length results = length ts.
Proof. intros Hg%mapM_Some_1. symmetry. by eapply Forall2_length. Qed.

Lemma gathered_cancel (ts : list job_state) (results : list Z) :
  gathered ts = Some results → cancel <$> ts = ts.
Proof.
  intros Hg. apply list_eq. intros i. rewrite list_lookup_fmap.
  destruct (ts !! i) as [js|] eqn:Hi; [|done].
  by destruct (gathered_lookup _ _ _ _ Hg Hi) as (rc & -> & _).
Qed.

Lemma gathered_failed (ts : list job_state) :
  existsb failed ts = true → gathered ts = None.
Proof.
  intros (js & Hin & Hf)%existsb_exists.
  destruct (gathered ts) as [results|] eqn:Hg; [|done].
  apply list_elem_of_In, list_elem_of_lookup in Hin as [i Hi].
  destruct (gathered_lookup _ _ _ _ Hg Hi) as (rc & -> & _). done.
Qed.

Lemma failed_exists (ts : list job_state) (i : nat) (e : exn) :
  ts !! i = Some (Failed e) → existsb failed ts = true.
Proof.
  intros Hi. apply existsb_exists. exists (Failed e). split; [|done].
  apply list_elem_of_In, list_elem_of_lookup. by exists i.
Qed.

Section Main.
Context {time : Type}.
Variable fmt_elapsed : time → time → str.
Variable cfg : config.

Lemma inv_main_holds (s : sys time) :
  reachable fmt_elapsed cfg s → inv_main s.
Proof.
  revert s. apply reachable_ind_trans; unfold inv_main.
  - rewrite init_chan, init_main.
    split; [by intros ?%elem_of_nil|]. split; [by intros _ ?%elem_of_nil|].
    done.
  - intros s1 s2 _ IH Ht.
    destruct IH as (IHs & IHg & IHa & IHe).
    destruct Ht as [s i n job Hal Hi _ Hn|s i js0 pb0 p0 js' evs Hal Hi Hj0 Hrun
                   |s results Hm Hf Hg|s Hm Hf|s results Hm Hp
                   |s results e Hm Hp| | | |s i job Hm Hi _]; simpl; try done.
    + (* acquire: the task is not over, so no sentinel yet *)
      assert (gathered (tasks s) = None) as Hnone.
      { destruct (gathered (tasks s)) as [rs|] eqn:Hg; [|done].
        by destruct (gathered_lookup _ _ _ _ Hg Hi) as (rc & ? & _). }
      assert (Sentinel ∉ chan s) as Hns.
      { intros Hin. destruct (IHs Hin) as [_ [rs Hrs]]. congruence. }
      split; [done|]. split; [done|]. split.
      * intros rs Hm. destruct (IHa rs Hm). congruence.
      * intros rc Hm. by destruct (main s).
    + assert (gathered (tasks s) = None) as Hnone.
      { destruct (gathered (tasks s)) as [rs|] eqn:Hg; [|done].
        destruct (gathered_lookup _ _ _ _ Hg Hi) as (rc & -> & _). done. }
      assert (Sentinel ∉ chan s) as Hns.
      { intros Hin. destruct (IHs Hin) as [_ [rs Hrs]]. congruence. }
      split; [|split; [|split]].
      * intros [Hin|Hin]%elem_of_app; [done|].
        by apply list_elem_of_fmap in Hin as (? & ? & _).
      * intros _ [Hin|Hin]%elem_of_app; [done|].
        by apply list_elem_of_fmap in Hin as (? & ? & _).
      * intros rs Hm. destruct (IHa rs Hm). congruence.
      * intros rc Hm. by destruct (main s).
    + split; [|split; [done|split]].
      * intros _. split; [|by eexists]. exists (chan s). split; [done|].
        by apply IHg.
      * intros rs [= <-]. split; [done|]. set_solver.
      * done.
    + assert (Sentinel ∉ chan s) as Hns by (by apply IHg).
      done.
    + destruct (IHa _ Hm) as [Hg Hin].
      split; [done|]. split; [done|]. split; [done|].
      intros rc [= <-]. by eexists.
    + destruct (IHa _ Hm) as [Hg Hin].
      rewrite (gathered_cancel _ _ Hg). done.
    + (* a cancellation comes through: the task had not returned *)
      assert (Sentinel ∉ chan s) as Hns.
      { intros Hin. destruct (IHs Hin) as [_ [rs Hrs]].
        by destruct (gathered_lookup _ _ _ _ Hrs Hi) as (rc & ? & _). }
      rewrite Hm. done.
Qed.

End Main.

(** ** The printer *)

Lemma recaps_append_keys (rc : list (str * list str)) (pb m pb' : str) :
  pb' ∈ (recaps_append rc pb m).*1 ↔ pb' ∈ rc.*1 ∨ pb' = pb.
Proof.
  induction rc as [|[k v] rc IH]; simpl.
  - rewrite list_elem_of_singleton. set_solver.
  - unfold Py.eqb. case_bool_decide as Hk; csimpl.
    + subst k. rewrite elem_of_cons. set_solver.
    + rewrite !elem_of_cons, IH. tauto.
Qed.

(** What one iteration of the loop does to the three dictionaries. *)
Lemma loop_body_maps {time : Type} (playbooks : list str) (now : time)
    (ev : event) (r r' : renderer time) :
  loop_body playbooks now ev r = (r', None) →
  starts r' = (if decide (msgtype ev = START)
               then <[playbook ev := now]> (starts r) else starts r) ∧
  ends r' = (if decide (msgtype ev = DONE)
             then <[playbook ev := now]> (ends r) else ends r) ∧
  recaps r' = (if decide (msgtype ev = RECAP ∨ msgtype ev = ERROR)
               then recaps_append (recaps r) (playbook ev) (msg ev)
               else recaps r).
Proof.
  unfold loop_body. destruct ev as [k pb m]. simpl.
  destruct (Py.index playbooks pb) as [position|]; [|done].
  destruct k; simpl; try (destruct (Py.remove (currently_running r) pb));
    intros [= <-]; simpl; repeat split; try done;
    by (rewrite decide_True by tauto) || (rewrite decide_False by naive_solver).
Qed.

Lemma loop_body_sound {time : Type} (playbooks : list str) (now : time)
    (ev : event) (r r' : renderer time) (taken : list item) (i : nat) :
  loop_body playbooks now ev r = (r', None) →
  printer_sound r taken → printer_sound r' (taken ++ [Ev i ev]).
Proof.
  intros (Hs & He & Hr)%loop_body_maps (Hrec & Hst & Hen).
  split; [|split].
  - intros pb. rewrite Hr. clear Hr.
    destruct (decide (msgtype ev = RECAP ∨ msgtype ev = ERROR)) as [Hk|Hk].
    + intros [Hin| ->]%recaps_append_keys.
      * destruct (Hrec pb Hin) as (j & e & Hje & Hpb).
        exists j, e. split; [|done]. apply elem_of_app. by left.
      * exists i, ev. split; [|done]. apply elem_of_app. right.
        by apply list_elem_of_singleton.
    + intros Hin. destruct (Hrec pb Hin) as (j & e & Hje & Hpb).
      exists j, e. split; [|done]. apply elem_of_app. by left.
  - intros j e [Hin|Hin]%elem_of_app Hk.
    + rewrite Hs. destruct (decide (msgtype ev = START)); [|by eapply Hst].
      apply lookup_insert_is_Some'. right. by eapply Hst.
    + apply list_elem_of_singleton in Hin as [= -> ->].
      rewrite Hs, decide_True by done. apply lookup_insert_is_Some'. by left.
  - intros j e [Hin|Hin]%elem_of_app Hk.
    + rewrite He. destruct (decide (msgtype ev = DONE)); [|by eapply Hen].
      apply lookup_insert_is_Some'. right. by eapply Hen.
    + apply list_elem_of_singleton in Hin as [= -> ->].
      rewrite He, decide_True by done. apply lookup_insert_is_Some'. by left.
Qed.

Lemma printer_sound_sentinel {time : Type} (r : renderer time) (taken : list item) :
  printer_sound r taken →
  printer_sound (write ENABLE_CURSOR r) (taken ++ [Sentinel]).
Proof.
  intros (Hrec & Hst & Hen). split; [|split]; simpl.
  - intros pb Hin. destruct (Hrec pb Hin) as (j & e & Hje & Hpb).
    exists j, e. split; [|done]. apply elem_of_app. by left.
  - intros j e [Hin|Hin]%elem_of_app; [by eapply Hst|].
    by apply list_elem_of_singleton in Hin.
  - intros j e [Hin|Hin]%elem_of_app; [by eapply Hen|].
    by apply list_elem_of_singleton in Hin.
Qed.

Section Printer.
Context {time : Type}.
Variable fmt_elapsed : time → time → str.
Variable cfg : config.

Lemma init_printer_sound :
  printer_sound (rstate (init (time:=time) cfg)) [].
Proof.
  unfold init, prologue. destruct (playbooks cfg); simpl;
    (split; [by intros pb ?%elem_of_nil|]);
    split; by intros i e ?%elem_of_nil.
Qed.

Lemma inv_printer_holds (s : sys time) :
  reachable fmt_elapsed cfg s → inv_printer s.
Proof.
  revert s. apply reachable_ind_trans; unfold inv_printer.
  - rewrite init_chan, init_rd. simpl.
    pose proof init_printer_sound as Hsound.
    split; [done|]. split; [|split].
    + intros _. split; [by intros ?%elem_of_nil|done].
    + unfold init. destruct (prologue _ _) as [r [e|]]; done.
    + unfold init. destruct (prologue _ _) as [r [e|]]; done.
  - intros s1 s2 _ IH Ht.
    destruct IH as (IHrd & IHd & IHr & IHp).
    destruct Ht as [s i n job Hal Hi _ Hn|s i js0 pb0 p0 js' evs Hal Hi Hj0 Hrun
                   |s results Hm Hf Hg|s Hm Hf|s results Hm Hp
                   |s results e Hm Hp|s i ev now r e Hal Hp Hget Hbody
                   |s Hal Hp Hget|s r e Hal Hp Hrep|]; simpl; [..|done].
    + done.
    + rewrite length_app, take_app_le by done.
      split; [lia|]. split; [done|]. split; [done|].
      intros Hp. apply elem_of_app. left. by apply IHp.
    + rewrite length_app, take_app_le by done.
      split; [lia|]. split; [done|]. split; [done|].
      intros Hp. apply elem_of_app. left. by apply IHp.
    + split; [done|]. by destruct (printer s).
    + done.
    + split; [done|]. by destruct (printer s).
    + apply lookup_lt_Some in Hget as Hlt.
      rewrite (take_S_r _ _ _ Hget). destruct (IHd Hp) as [Hns Hsound].
      split; [lia|]. destruct e as [e|]; [done|].
      split; [|done]. intros _. split.
      * intros [Hin|Hin]%elem_of_app; [done|].
        by apply list_elem_of_singleton in Hin.
      * by eapply loop_body_sound.
    + apply lookup_lt_Some in Hget as Hlt.
      rewrite (take_S_r _ _ _ Hget). destruct (IHd Hp) as [Hns Hsound].
      split; [lia|]. split; [done|]. split; [|done].
      intros _. split.
      * apply elem_of_app. right. by apply list_elem_of_singleton.
      * by apply printer_sound_sentinel.
    + split; [done|]. destruct e as [e|]; [done|].
      split; [done|]. split; [done|]. intros _.
      destruct (IHr Hp) as [Hin _].
      apply elem_of_take in Hin as (k & Hk & _).
      apply list_elem_of_lookup. by exists k.
Qed.

End Printer.

(** ** run_playbook as a whole *)

Lemma run_playbook_returns (playbook : str) (p : process) (rc : Z) :
  (run_playbook playbook p).2 = Some rc →
  rc = returncode p ∧ spawns p = true ∧
  (run_playbook playbook p).1
  = start_event playbook :: (read_loop playbook [] (stdout p)).1
      ++ [done_event playbook rc].
Proof.
  unfold run_playbook. destruct (spawns p); [|done].
  destruct (read_loop playbook [] (stdout p)) as [evs []]; simpl; [|done].
  by intros [= <-].
Qed.

Lemma run_playbook_prefix (playbook : str) (p : process) :
  (run_playbook playbook p).1
  `prefix_of` start_event playbook :: (read_loop playbook [] (stdout p)).1
                ++ [done_event playbook (returncode p)].
Proof.
  unfold run_playbook. destruct (spawns p).
  - destruct (read_loop playbook [] (stdout p)) as [evs []]; simpl; [done|].
    apply prefix_cons, prefix_app_r. done.
  - apply prefix_cons, prefix_nil.
Qed.

Lemma read_loop_prepared (playbook : str) (stream : list read) :
  ∀ task, Forall (λ e, ∃ chunk, e = prepare_chunk playbook chunk)
                 (read_loop playbook task stream).1.
Proof.
  induction stream as [|[line|] rest IH]; intros task; simpl.
  - destruct task; simpl; [done|]. constructor; [by eexists|done].
  - destruct (Py.eqb line []).
    { destruct task; simpl; [done|]. constructor; [by eexists|done]. }
    destruct (Py.eqb line BLANK); [|done].
    specialize (IH []). destruct (read_loop playbook [] rest) as [evs ok].
    simpl. constructor; [by eexists|done].
  - done.
Qed.

(** ** The aggregate exit code *)

Lemma aggregate_from (a : Z) (results : list Z) :
  foldl Z.add a results = a + foldr Z.add 0 results.
Proof.
  revert a. induction results as [|x l IH]; intros a; simpl; [lia|].
  rewrite IH. lia.
Qed.

Lemma aggregate_sum (results : list Z) : aggregate results = foldr Z.add 0 results.
Proof. unfold aggregate. by rewrite aggregate_from. Qed.

Lemma aggregate_zero (results : list Z) :
  (∀ c, c ∈ results → c = 0) → aggregate results = 0.
Proof.
  rewrite aggregate_sum. induction results as [|x l IH]; intros H; [done|].
  simpl. rewrite IH, (H x); [done|set_solver..].
Qed.

Lemma aggregate_zero_nonneg (results : list Z) :
  (∀ c, c ∈ results → 0 ≤ c) → aggregate results = 0 →
  ∀ c, c ∈ results → c = 0.
Proof.
  rewrite aggregate_sum. induction results as [|x l IH]; intros H Hsum c Hc.
  - by apply elem_of_nil in Hc.
  - simpl in Hsum.
    assert (0 ≤ foldr Z.add 0 l) as Hl.
    { clear -H. induction l as [|y l IH]; simpl; [done|].
      assert (0 ≤ y) by (apply H; set_solver).
      assert (0 ≤ foldr Z.add 0 l); [|lia].
      apply IH. intros c Hc. apply H. set_solver. }
    assert (0 ≤ x) by (apply H; set_solver).
    apply elem_of_cons in Hc as [->|Hc]; [lia|].
    apply IH; [|lia|done]. intros c' Hc'. apply H. set_solver.
Qed.

Lemma check_playbooks_loop_spec (isfile : str → bool) (playbooks : list str) :
  ∀ fail stderr,
    check_playbooks_loop isfile playbooks fail stderr
    = (fail || existsb (λ p, negb (isfile p)) playbooks,
       stderr ++ (could_not_find <$> filter (λ p, isfile p = false) playbooks)).
Proof.
  induction playbooks as [|p rest IH]; intros fail stderr; simpl.
  - by rewrite orb_false_r, app_nil_r.
  - rewrite filter_cons.
    destruct (decide (isfile p = false)) as [Hp|Hp].
    + rewrite Hp, IH. simpl. rewrite orb_true_r. simpl.
      by rewrite <- app_assoc.
    + apply not_false_is_true in Hp. by rewrite Hp, IH.
Qed.

Lemma check_playbooks_outcome (isfile : str → bool) (playbooks : list str) :
  ((check_playbooks isfile playbooks).1 = true ↔
   ∃ p, p ∈ playbooks ∧ isfile p = false) ∧
  (check_playbooks isfile playbooks).2
  = could_not_find <$> filter (λ p, isfile p = false) playbooks.
Proof.
  unfold check_playbooks. rewrite check_playbooks_loop_spec. simpl.
  split; [|done].
  rewrite existsb_exists. split.
  - intros (p & Hin & Hp). exists p. split; [by apply list_elem_of_In|].
    by destruct (isfile p).
  - intros (p & Hin & Hp). exists p. split; [by apply list_elem_of_In|].
    by rewrite Hp.
Qed.

(** When the playbook check ends [amain], the variable is set to a
    non-empty text and a playbook is missing; otherwise the loop starts
    with the playbooks of the command line. *)
Lemma amain_entry_check (env : environ) (args : list (str * process))
    (stderr : list str) :
  amain_entry env args = CheckFailed stderr →
  env_truthy (env_verify env) = true ∧
  ∃ pb, pb ∈ fst <$> args ∧ env_isfile env pb = false.
Proof.
  unfold amain_entry, amain_verify.
  destruct (env_truthy (env_verify env)); last first.
  { simpl. by destruct (_ ≫= Semaphore). }
  destruct (check_playbooks (env_isfile env) (fst <$> args)) as [fail err] eqn:Hc.
  destruct fail; last first.
  { by destruct (_ ≫= Semaphore). }
  intros _. split; [done|].
  apply (check_playbooks_outcome (env_isfile env) (fst <$> args)).
  by rewrite Hc.
Qed.

Lemma amain_entry_jobs (env : environ) (args : list (str * process))
    (cfg : config) :
  amain_entry env args = Loop cfg → jobs cfg = args.
Proof.
  unfold amain_entry.
  destruct (amain_verify _ _ _) as [[rc stderr]|]; [done|].
  destruct (_ ≫= Semaphore) as [size|]; [|done]. by intros [= <-].
Qed.

Section Exit.
Context {time : Type}.
Variable fmt_elapsed : time → time → str.
Variable cfg : config.

(** When the loop ends with [amain] returning, every task has returned
    the exit code of its process and [amain] returns their sum. *)
Lemma exited_sum (s : sys time) (rc : Z) :
  reachable fmt_elapsed cfg s → main s = Exited rc →
  tasks s = Returned <$> ((λ job, returncode job.2) <$> jobs cfg) ∧
  rc = aggregate ((λ job, returncode job.2) <$> jobs cfg).
Proof.
  intros Hs Hm. set (codes := (λ job, returncode job.2) <$> jobs cfg).
  destruct (inv_main_holds _ _ _ Hs) as (_ & _ & _ & He).
  destruct (He rc Hm) as (results & Hg & ->).
  pose proof (inv_length_holds _ _ _ Hs) as Hlen.
  pose proof (inv_script_holds _ _ _ Hs) as Hscript.
  assert (results = codes) as ->.
  { apply list_eq. intros i. unfold codes. rewrite list_lookup_fmap.
    destruct (jobs cfg !! i) as [[pb p]|] eqn:Hjob; simpl.
    - destruct (lookup_lt_is_Some_2 (tasks s) i) as [js Hjs].
      { rewrite Hlen. by eapply lookup_lt_Some. }
      destruct (gathered_lookup _ _ _ _ Hg Hjs) as (c & -> & Hc).
      destruct (Hscript i pb p _ Hjob Hjs) as [_ [_ H2]]; [done|].
      simpl in H2. symmetry in H2.
      apply run_playbook_returns in H2 as (-> & _). done.
    - apply lookup_ge_None. rewrite (gathered_length _ _ Hg), Hlen.
      by apply lookup_ge_None. }
  split; [|done].
  apply list_eq. intros i. rewrite list_lookup_fmap.
  destruct (tasks s !! i) as [js|] eqn:Hjs.
  - destruct (gathered_lookup _ _ _ _ Hg Hjs) as (c & -> & ->). done.
  - apply lookup_ge_None in Hjs.
    rewrite (proj2 (lookup_ge_None codes i)); [done|].
    by rewrite (gathered_length _ _ Hg).
Qed.

End Exit.

Ltac by_exec sched :=
  eapply (exec_reachable _ _ sched);
  [apply reachable_init|vm_compute; reflexivity].

(** C1, as amended.  Whenever [amain] returns, the value it returns is
    either 1, returned by the playbook check before any job is started
    (the variable ANSIBLE_PARALLEL_VERIFY_PLAYBOOKS is set to a non-empty
    text and a playbook is missing), or the arithmetic sum of the exit
    codes the jobs' processes ended with, every job task having returned
    its code; codes {0, 0, 2} and {1, 1} sum to 2.  The sum is zero when
    every code is zero, and when no code is negative a zero sum means
    that every code is zero. *)
Theorem aggregate_exit_code {time : Type} (fmt_elapsed : time → time → str)
    (env : environ) (args : list (str * process)) (rc : Z) :
  amain_returns fmt_elapsed env args rc →
  let codes := (λ job, returncode job.2) <$> args in
  ((rc = 1 ∧ env_truthy (env_verify env) = true ∧
    (∃ pb, pb ∈ fst <$> args ∧ env_isfile env pb = false) ∧
    ∃ stderr, amain_entry env args = CheckFailed stderr) ∨
   (rc = aggregate codes ∧
    ∃ cfg (s : sys time),
      amain_entry env args = Loop cfg ∧ jobs cfg = args ∧
      reachable fmt_elapsed cfg s ∧ main s = Exited rc ∧
      tasks s = Returned <$> codes)) ∧
  aggregate codes = foldr Z.add 0 codes ∧
  aggregate [0; 0; 2] = 2 ∧ aggregate [1; 1] = 2 ∧
  ((∀ c, c ∈ codes → c = 0) → aggregate codes = 0) ∧
  ((∀ c, c ∈ codes → 0 ≤ c) → aggregate codes = 0 → ∀ c, c ∈ codes → c = 0).
Proof.
  intros Hret codes. split.
  - unfold amain_returns in Hret.
    destruct (amain_entry env args) as [stderr| |cfg] eqn:Hentry; [|done|].
    + left. destruct (amain_entry_check _ _ _ Hentry) as [Hv Hmiss].
      split; [done|]. split; [done|]. split; [done|]. by exists stderr.
    + right. destruct Hret as (s & Hs & Hm).
      pose proof (amain_entry_jobs _ _ _ Hentry) as Hjobs.
      destruct (exited_sum fmt_elapsed cfg s rc Hs Hm) as [Ht Hrc].
      rewrite Hjobs in Ht, Hrc. split; [done|]. by exists cfg, s.
  - split; [apply aggregate_sum|]. split; [done|]. split; [done|].
    split; [apply aggregate_zero|apply aggregate_zero_nonneg].
Qed.

Lemma aggregate_exit_code_witness : 2 = aggregate [0; 2].
Proof.
  assert (amain_returns demo_fmt (demo_env None None true) (jobs cfg_two) 2)
    as Hret.
  { assert (amain_entry (demo_env None None true) (jobs cfg_two) = Loop cfg_two)
      as Hentry by (vm_compute; reflexivity).
    unfold amain_returns. rewrite Hentry.
    exists (final_of cfg_two run_two).
    split; [by_exec run_two|vm_compute; reflexivity]. }
  destruct (aggregate_exit_code demo_fmt _ _ 2 Hret) as [[H|H] _].
  - discriminate (proj1 H).
  - exact (proj1 H).
Defined.

(** C1 as stated fails twice.  The codes 1 and -1 are not all zero and
    sum to zero, which is what [amain] returns.  And with the playbook
    check enabled and a playbook file missing [amain] returns 1 without
    running any job, whatever the processes would have returned. *)
Lemma aggregate_exit_code_counterexample :
  (amain_returns demo_fmt (demo_env None None true) (jobs cfg_signal) 0 ∧
   (λ job, returncode job.2) <$> jobs cfg_signal = [1; -1]) ∧
  (amain_returns demo_fmt (demo_env (Some "1"%string) None false)
                 (jobs cfg_two) 1 ∧
   aggregate ((λ job, returncode job.2) <$> jobs cfg_two) = 2).
Proof.
  split; (split; [|vm_compute; reflexivity]).
  - assert (amain_entry (demo_env None None true) (jobs cfg_signal)
            = Loop cfg_signal) as Hentry by (vm_compute; reflexivity).
    unfold amain_returns. rewrite Hentry.
    exists (final_of cfg_signal run_two).
    split; [by_exec run_two|vm_compute; reflexivity].
  - assert (∃ stderr, amain_entry (demo_env (Some "1"%string) None false)
                        (jobs cfg_two) = CheckFailed stderr) as [stderr Hentry]
      by (eexists; vm_compute; reflexivity).
    unfold amain_returns. by rewrite Hentry.
Qed.

(** ** The order of a job's events *)

Lemma done_event_fields (pb : str) (rc : Z) :
  msgtype (done_event pb rc) = DONE ∧
  playbook (done_event pb rc) = pb.
Proof. unfold done_event. by destruct (rc =? 0). Qed.

Lemma read_loop_kinds (pb : str) (task : list str) (stream : list read) :
  Forall (λ e, msgtype e ≠ START ∧ msgtype e ≠ DONE ∧ playbook e = pb)
         (read_loop pb task stream).1.
Proof.
  eapply Forall_impl; [apply read_loop_prepared|].
  intros e [chunk ->]. simpl.
  destruct (classify_not_START_DONE chunk). done.
Qed.

Lemma after_loop_kinds (pb : str) (p : process) (task : list str)
    (stream : list read) :
  Forall (λ e, msgtype e ≠ START ∧ playbook e = pb)
         (after_loop pb p (read_loop pb task stream)).1.
Proof.
  pose proof (read_loop_kinds pb task stream) as H.
  assert (Forall (λ e, msgtype e ≠ START ∧ playbook e = pb)
                 (read_loop pb task stream).1) as H'.
  { eapply Forall_impl; [done|]. naive_solver. }
  unfold after_loop. destruct (read_loop pb task stream) as [evs []];
    simpl in *; [|done].
  apply Forall_app. split; [done|]. constructor; [|done].
  destruct (done_event_fields pb (returncode p)) as [-> ->]. done.
Qed.

Lemma future_kinds (pb : str) (p : process) (js : job_state) :
  past_start js = true →
  Forall (λ e, msgtype e ≠ START ∧ playbook e = pb)
         (future pb p js).1.
Proof.
  destruct js; simpl; try done; intros _.
  - destruct (spawns p); [apply after_loop_kinds|done].
  - apply after_loop_kinds.
  - constructor; [|done].
    destruct (done_event_fields pb (returncode p)) as [-> ->]. done.
Qed.

Lemma run_playbook_playbook (pb : str) (p : process) :
  Forall (λ e, playbook e = pb) (run_playbook pb p).1.
Proof.
  rewrite run_playbook_unfold. destruct (spawns p); simpl.
  - constructor; [done|].
    eapply Forall_impl; [apply after_loop_kinds|]. naive_solver.
  - by constructor.
Qed.

(** C2, as amended.  At every moment the events a job has put on the
    channel, whatever the other jobs put in between, are a prefix of:
    one START with empty payload, the classified chunks of its output
    (none of kind START or DONE), one DONE.  The START is on the channel
    from the moment the task is at the spawn of its process.  When
    [run_playbook] returns, the events are the whole sequence and the
    payload of DONE is "Done." for exit code zero and the message naming
    the exit code otherwise.  (A job that is cancelled or whose reads
    raise stops before its DONE.) *)
Theorem run_playbook_event_order {time : Type} (fmt_elapsed : time → time → str)
    (cfg : config) (s : sys time) (i : nat) (pb : str) (p : process)
    (js : job_state) :
  reachable fmt_elapsed cfg s →
  jobs cfg !! i = Some (pb, p) → tasks s !! i = Some js →
  let chunks := (read_loop pb [] (stdout p)).1 in
  let script := Event START pb [] :: chunks ++ [done_event pb (returncode p)] in
  events_of i (chan s) `prefix_of` script ∧
  (past_start js = true → ∃ evs, events_of i (chan s) = Event START pb [] :: evs) ∧
  (∀ rc, js = Returned rc →
     rc = returncode p ∧ spawns p = true ∧ events_of i (chan s) = script) ∧
  Forall (λ e, (∃ chunk, e = prepare_chunk pb chunk) ∧
               msgtype e ≠ START ∧ msgtype e ≠ DONE) chunks ∧
  msgtype (done_event pb (returncode p)) = DONE ∧
  (returncode p = 0 → msg (done_event pb (returncode p)) = Py.lit "Done.") ∧
  (returncode p ≠ 0 →
   msg (done_event pb (returncode p))
   = Py.lit "Exited with error code: " ++ Py.of_int (returncode p)).
Proof.
  intros Hs Hjob Hjs chunks script.
  destruct (inv_script_holds _ _ _ Hs i pb p js Hjob Hjs) as [Hpre Heq].
  split; [|split; [|split; [|split; [|split; [|split]]]]].
  - etrans; [done|]. apply run_playbook_prefix.
  - intros Hpast.
    destruct Heq as [Heq _]; [by intros ->|].
    pose proof (future_kinds pb p js Hpast) as Hk.
    rewrite run_playbook_unfold in Heq.
    destruct (events_of i (chan s)) as [|e evs].
    + simpl in Heq. rewrite Heq in Hk.
      destruct (spawns p); apply Forall_cons in Hk as [[Hk _] _]; done.
    + exists evs. f_equal.
      destruct (spawns p); by injection Heq as -> _.
  - intros rc ->. destruct Heq as [Heq1 Heq2]; [done|]. simpl in *.
    rewrite app_nil_r in Heq1. symmetry in Heq2.
    apply run_playbook_returns in Heq2 as (-> & Hsp & Hrun).
    by rewrite Heq1, Hrun.
  - apply Forall_and. split; [apply read_loop_prepared|].
    eapply Forall_impl; [apply read_loop_kinds|]. naive_solver.
  - apply done_event_fields.
  - intros ->. done.
  - intros Hrc. unfold done_event.
    by rewrite (proj2 (Z.eqb_neq _ _) Hrc).
Qed.

Lemma run_playbook_event_order_witness :
  events_of 1 (chan (final_of cfg_two run_two))
  = [Event START (Py.lit "b.yml") [];
     Event DONE (Py.lit "b.yml") (Py.lit "Exited with error code: 2")].
Proof.
  assert (reachable demo_fmt cfg_two (final_of cfg_two run_two)) as Hreach
    by by_exec run_two.
  destruct (run_playbook_event_order demo_fmt cfg_two _ 1
              (Py.lit "b.yml") (quiet 2) (Returned 2) Hreach eq_refl eq_refl)
    as (_ & _ & H & _).
  destruct (H 2 eq_refl) as (_ & _ & Hev). exact Hev.
Defined.

(** C2 as stated fails: the process of the second job is spawned, yet
    after the spawn failure of the first job the task is cancelled with
    START as its only event, and nothing runs any more. *)
Lemma run_playbook_event_order_counterexample :
  reachable demo_fmt cfg_spawn_fails (final_of cfg_spawn_fails run_spawn_fails) ∧
  (snd <$> jobs cfg_spawn_fails !! 1%nat) = Some (Process true
     [Line (Py.lit "TASK [x]" ++ [Py.LF]); Line BLANK] 0) ∧
  tasks (final_of cfg_spawn_fails run_spawn_fails) = [Failed OSError; Cancelled] ∧
  events_of 1 (chan (final_of cfg_spawn_fails run_spawn_fails))
  = [Event START (Py.lit "b.yml") []] ∧
  ∀ l, step demo_fmt cfg_spawn_fails l (final_of cfg_spawn_fails run_spawn_fails)
       = None.
Proof.
  split; [by_exec run_spawn_fails|].
  split; [done|]. split; [vm_compute; reflexivity|].
  split; [vm_compute; reflexivity|].
  intros l. unfold step.
  assert (main (final_of cfg_spawn_fails run_spawn_fails) = MainRaised) as ->
    by (vm_compute; reflexivity).
  destruct l as [i| |now]; try done. unfold cancel_step.
  assert (tasks (final_of cfg_spawn_fails run_spawn_fails)
          = [Failed OSError; Cancelled]) as -> by (vm_compute; reflexivity).
  by destruct i as [|[|i]].
Qed.

(** ** The concurrency gate *)



Section Gate.
Context {time : Type}.
Variable fmt_elapsed : time → time → str.
Variable cfg : config.


Lemma entered_no_events (s : sys time) (i : nat) :
  reachable fmt_elapsed cfg s → tasks s !! i = Some Entered →
  events_of i (chan s) = [].
Proof.
  intros Hs Hi.
  destruct (lookup_lt_is_Some_2 (jobs cfg) i) as [[pb p] Hjob].
  { rewrite <- (inv_length_holds _ _ _ Hs). by eapply lookup_lt_Some. }
  destruct (inv_script_holds _ _ _ Hs i pb p _ Hjob Hi) as [_ [Heq _]]; [done|].
  simpl in Heq. apply (f_equal length) in Heq. rewrite length_app in Heq.
  apply length_zero_iff_nil. lia.
Qed.






End Gate.





(** ** Failure of a job *)

Lemma cancel_over (js : job_state) :
  cancel js = (if decide (js = Spawning) then Spawning
               else if finished js then js else Cancelled).
Proof. by destruct js. Qed.

Section Failure.
Context {time : Type}.
Variable fmt_elapsed : time → time → str.
Variable cfg : config.

(** Once [amain] is left by an exception every task is over or has its
    cancellation pending inside [create_subprocess_exec], and the printer
    is cancelled or has raised. *)
Lemma main_raised (s : sys time) :
  reachable fmt_elapsed cfg s → main s = MainRaised →
  (∀ i js, tasks s !! i = Some js → finished js = true ∨ js = Spawning) ∧
  (printer s = PrinterCancelled ∨ ∃ e, printer s = PrinterRaised e).
Proof.
  revert s. apply (reachable_ind_trans fmt_elapsed cfg
    (λ s, main s = MainRaised →
          (∀ i js, tasks s !! i = Some js → finished js = true ∨ js = Spawning) ∧
          (printer s = PrinterCancelled ∨ ∃ e, printer s = PrinterRaised e))).
  - by rewrite init_main.
  - intros s1 s2 Hs1 IH Ht.
    destruct Ht as [s i n job Hal|s i js0 pb0 p0 js' evs Hal
                   |s results Hm Hf Hg|s Hm Hf|s results Hm Hp
                   |s results e Hm Hp|s i ev now r e Hal
                   |s Hal|s r e Hal|s i job Hm Hi _]; simpl; try done;
      try (intros Hm; rewrite Hm in Hal; done).
    + intros _. split.
      * intros i js Hi. rewrite list_lookup_fmap in Hi.
        destruct (tasks s !! i) as [js0|]; [|done]. injection Hi as <-.
        destruct js0; simpl; auto.
      * destruct (inv_printer_holds _ _ _ Hs1) as (_ & _ & Hr & Hp).
        destruct (inv_main_holds _ _ _ Hs1) as (_ & Hg & _).
        specialize (Hg Hm).
        destruct (printer s) eqn:Hpr; eauto.
        -- destruct Hr as [Hin _]; [done|]. exfalso. apply Hg.
           apply elem_of_take in Hin as (k & Hk & _).
           apply list_elem_of_lookup. by exists k.
        -- exfalso. by apply Hg, Hp.
    + intros _. split.
      * intros i js Hi. rewrite list_lookup_fmap in Hi.
        destruct (tasks s !! i) as [js0|]; [|done]. injection Hi as <-.
        destruct js0; simpl; auto.
      * rewrite Hp. eauto.
    + intros _. destruct (IH Hm) as [IHt IHp]. split; [|done].
      intros j js Hj. destruct (decide (j = i)) as [->|Hne].
      * rewrite list_lookup_insert_eq in Hj by (by eapply lookup_lt_Some).
        injection Hj as <-. by left.
      * rewrite list_lookup_insert_ne in Hj by done. by eapply IHt.
Qed.

(** A task that has raised stays as it is. *)
Lemma failed_stays (s s' : sys time) (l : label time) (i : nat) (e : exn) :
  step fmt_elapsed cfg l s = Some s' → tasks s !! i = Some (Failed e) →
  tasks s' !! i = Some (Failed e).
Proof.
  intros Hstep%step_trans Hi.
  destruct Hstep as [s k n job Hal Hk|s k js0 pb0 p0 js' evs Hal Hk Hj0 Hrun
                    |s results Hm Hf Hg|s Hm Hf|s results Hm Hp
                    |s results e' Hm Hp|s k ev now r e' Hal
                    |s Hal|s r e' Hal|s k job Hm Hk _]; simpl; try done.
  - rewrite list_lookup_insert_ne; [done|]. intros ->. congruence.
  - rewrite list_lookup_insert_ne; [done|]. intros ->.
    rewrite Hi in Hk. injection Hk as <-. done.
  - by rewrite list_lookup_fmap, Hi.
  - by rewrite list_lookup_fmap, Hi.
  - rewrite list_lookup_insert_ne; [done|]. intros ->. congruence.
Qed.

End Failure.

(** C8, as amended.  When the spawn of a job's process fails the task
    gives its permit back, but the failure is not confined to the job:
    the task stays failed, [gather] passes the exception to [amain],
    which from then on neither puts the sentinel nor returns an exit
    code, and the printer never prints the final report.  The only step
    [amain] still takes is to be left by the exception; with it every
    sibling that is not over and the printer are cancelled.  Afterwards
    every task is over or has its cancellation pending inside
    [create_subprocess_exec], the only steps left are such cancellations
    coming through, and no job puts another event: a sibling that had
    not put its DONE never does. *)
Theorem spawn_failure_propagates {time : Type} (fmt_elapsed : time → time → str)
    (cfg : config) :
  (∀ (s : sys time) i pb p,
     alive (main s) → tasks s !! i = Some Spawning →
     jobs cfg !! i = Some (pb, p) → spawns p = false →
     step fmt_elapsed cfg (LJob i) s
     = Some (Sys (S (permits s)) (<[i := Failed OSError]> (tasks s)) (chan s)
                 (rd s) (main s) (printer s) (rstate s))) ∧
  (∀ (s : sys time) i e,
     reachable fmt_elapsed cfg s → tasks s !! i = Some (Failed e) →
     (permits s + holders (tasks s) = max_playbooks cfg)%nat ∧
     holds_permit (Failed e) = false ∧
     (∀ l s', step fmt_elapsed cfg l s = Some s' →
        tasks s' !! i = Some (Failed e)) ∧
     (Sentinel ∉ chan s) ∧
     (main s = Gathering ∨ main s = MainRaised) ∧
     printer s ≠ Reporting ∧ printer s ≠ Reported ∧
     (main s = Gathering →
      step fmt_elapsed cfg LMain s = Some (crash s) ∧
      main (crash s) = MainRaised ∧
      chan (crash s) = chan s ∧
      (∀ j js, tasks s !! j = Some js → finished js = false →
         tasks (crash s) !! j
         = Some (if decide (js = Spawning) then Spawning else Cancelled)) ∧
      (printer s = Draining → printer (crash s) = PrinterCancelled)) ∧
     (main s = MainRaised →
      (∀ j js, tasks s !! j = Some js → finished js = true ∨ js = Spawning) ∧
      (printer s = PrinterCancelled ∨ ∃ e', printer s = PrinterRaised e') ∧
      (∀ l s', step fmt_elapsed cfg l s = Some s' →
         ∃ j, l = LJob j ∧ tasks s !! j = Some Spawning ∧
              tasks s' = <[j := Cancelled]> (tasks s) ∧
              permits s' = S (permits s) ∧ chan s' = chan s ∧
              main s' = MainRaised ∧ printer s' = printer s))).
Proof.
  split.
  - intros s i pb p Hal Hi Hjob Hsp. unfold step, job_step.
    rewrite Hi, Hjob. simpl. rewrite Hsp, app_nil_r.
    by destruct (main s).
  - intros s i e Hs Hi.
    destruct (inv_main_holds _ _ _ Hs) as (Hsen & Hg & Ha & He).
    destruct (inv_printer_holds _ _ _ Hs) as (_ & _ & Hr & Hp).
    pose proof (failed_exists _ _ _ Hi) as Hex.
    pose proof (gathered_failed _ Hex) as Hnone.
    assert (Sentinel ∉ chan s) as Hns.
    { intros Hin. destruct (Hsen Hin) as [_ [rs Hrs]]. congruence. }
    split; [apply (inv_permits_holds _ _ _ Hs)|]. split; [done|].
    split; [intros l s' Hstep; by eapply failed_stays|].
    split; [done|]. split; [|split; [|split; [|split]]].
    + destruct (main s) as [|rs|rc|] eqn:Hm; eauto.
      * destruct (Ha rs eq_refl). congruence.
      * destruct (He rc eq_refl) as (rs & ? & _). congruence.
    + intros Hrep. destruct (Hr Hrep) as [Hin _].
      apply Hns. apply elem_of_take in Hin as (k & Hk & _).
      apply list_elem_of_lookup. by exists k.
    + intros Hrep. by apply Hns, Hp.
    + intros Hm. split.
      { unfold step, main_step. by rewrite Hm, Hex. }
      split; [reflexivity|]. split; [reflexivity|]. split.
      * intros j js Hj Hfin. simpl. rewrite list_lookup_fmap, Hj. simpl.
        rewrite cancel_over. destruct (decide (js = Spawning)); [done|].
        by rewrite Hfin.
      * simpl. by intros ->.
    + intros Hm.
      destruct (main_raised fmt_elapsed cfg s Hs Hm) as [Ht Hpr].
      split; [done|]. split; [done|].
      intros l s' Hstep.
      destruct (step_raised _ _ _ _ _ Hm Hstep) as (j & -> & Hj & _ & ->).
      exists j. by rewrite Hm.
Qed.

Lemma spawn_failure_propagates_witness :
  (Sentinel ∉ chan (final_of cfg_spawn_fails run_spawn_fails)) ∧
  printer (final_of cfg_spawn_fails run_spawn_fails) ≠ Reported.
Proof.
  assert (reachable demo_fmt cfg_spawn_fails
            (final_of cfg_spawn_fails run_spawn_fails)) as Hreach
    by by_exec run_spawn_fails.
  destruct (proj2 (spawn_failure_propagates demo_fmt cfg_spawn_fails)
              _ 0%nat OSError Hreach eq_refl)
    as (_ & _ & _ & H1 & _ & _ & H2 & _).
  split; [exact H1|exact H2].
Defined.

(** C8 as stated fails: after the spawn failure of the first job the
    second job, whose process was running, is cancelled instead of
    running to completion, the printer is cancelled too, and [amain] is
    left by the exception. *)
Lemma spawn_failure_counterexample :
  reachable demo_fmt cfg_spawn_fails (final_of cfg_spawn_fails run_spawn_fails) ∧
  tasks (final_of cfg_spawn_fails run_spawn_fails) = [Failed OSError; Cancelled] ∧
  printer (final_of cfg_spawn_fails run_spawn_fails) = PrinterCancelled ∧
  main (final_of cfg_spawn_fails run_spawn_fails) = MainRaised.
Proof.
  split; [by_exec run_spawn_fails|]. repeat split; vm_compute; reflexivity.
Qed.

(** ** The final report *)

Lemma foldl_write_maps {time : Type} (texts : list str) (r : renderer time) :
  starts (foldl (λ r text, write text r) r texts) = starts r ∧
  ends (foldl (λ r text, write text r) r texts) = ends r.
Proof.
  revert r. induction texts as [|t texts IH]; intros r; [done|].
  simpl. destruct (IH (write t r)) as [-> ->]. done.
Qed.

Lemma report_chunks_maps {time : Type} (recap : list str) (r : renderer time) :
  starts (foldl (λ r chunk, foldl (λ r text, write text r) r
                              (report_lines (Py.split_nl chunk))) r recap)
  = starts r ∧
  ends (foldl (λ r chunk, foldl (λ r text, write text r) r
                            (report_lines (Py.split_nl chunk))) r recap)
  = ends r.
Proof.
  revert r. induction recap as [|c recap IH]; intros r; [done|].
  simpl. destruct (IH (foldl (λ r text, write text r) r
                         (report_lines (Py.split_nl c)))) as [-> ->].
  apply foldl_write_maps.
Qed.

(** With both timestamps recorded for every key the report is written
    to its end. *)
Lemma report_loop_ok {time : Type} (fmt_elapsed : time → time → str)
    (items : list (str * list str)) :
  ∀ r : renderer time,
    (∀ pb, pb ∈ items.*1 → is_Some (starts r !! pb) ∧ is_Some (ends r !! pb)) →
    (report_loop fmt_elapsed items r).2 = None.
Proof.
  induction items as [|[pb recap] items IH]; intros r Hkeys; [done|].
  simpl. unfold report_header.
  destruct (Hkeys pb) as [[t0 Ht0] [t1 Ht1]]; [set_solver|].
  rewrite Ht0, Ht1. apply IH. intros pb' Hin.
  destruct (report_chunks_maps recap
    (write (Py.lit "# Playbook " ++ pb ++ Py.lit ", ran in "
            ++ fmt_elapsed t1 t0 ++ Py.lit "s" ++ [Py.LF]) r)) as [-> ->].
  simpl. apply Hkeys. set_solver.
Qed.

Lemma loop_body_raises {time : Type} (playbooks : list str) (now : time)
    (ev : event) (r r' : renderer time) (e : exn) :
  loop_body playbooks now ev r = (r', Some e) → e = ValueError.
Proof.
  unfold loop_body.
  destruct (Py.index playbooks (playbook ev)); [|by intros [= _ <-]].
  destruct (decide (msgtype ev = DONE)); [|done].
  destruct (Py.remove _ _); [done|]. by intros [= _ <-].
Qed.

Lemma take_through_sentinel (c : list item) (n : nat) :
  (∃ c', c = c' ++ [Sentinel] ∧ Sentinel ∉ c') → Sentinel ∈ take n c →
  take n c = c.
Proof.
  intros (c' & -> & Hns) Hin.
  destruct (decide (n ≤ length c')%nat) as [Hle|Hgt].
  - rewrite take_app_le in Hin by done. exfalso. apply Hns.
    apply elem_of_take in Hin as (k & Hk & _).
    apply list_elem_of_lookup. by exists k.
  - apply take_ge. rewrite length_app. simpl. lia.
Qed.

Section Report.
Context {time : Type}.
Variable fmt_elapsed : time → time → str.
Variable cfg : config.

(** With the sentinel on the channel every job has put its whole
    sequence of events, under its own name. *)
Lemma sentinel_scripts (s : sys time) (i : nat) (e : event) :
  reachable fmt_elapsed cfg s → Sentinel ∈ chan s → Ev i e ∈ chan s →
  ∃ pb p, jobs cfg !! i = Some (pb, p) ∧ playbook e = pb ∧
          tasks s !! i = Some (Returned (returncode p)) ∧
          events_of i (chan s)
          = start_event pb :: (read_loop pb [] (stdout p)).1
              ++ [done_event pb (returncode p)].
Proof.
  intros Hs Hsen Hin.
  destruct (inv_producers_holds _ _ _ Hs i e Hin) as [[pb p] Hjob].
  destruct (lookup_lt_is_Some_2 (tasks s) i) as [js Hjs].
  { rewrite (inv_length_holds _ _ _ Hs). by eapply lookup_lt_Some. }
  destruct (inv_main_holds _ _ _ Hs) as (Hm & _).
  destruct (Hm Hsen) as [_ [rs Hg]].
  destruct (gathered_lookup _ _ _ _ Hg Hjs) as (rc & -> & _).
  destruct (inv_script_holds _ _ _ Hs i pb p _ Hjob Hjs) as [_ [H1 H2]]; [done|].
  simpl in H1, H2. rewrite app_nil_r in H1. symmetry in H2.
  apply run_playbook_returns in H2 as (-> & _ & Hrun).
  exists pb, p. split; [done|]. split; [|split; [done|by rewrite H1]].
  pose proof (run_playbook_playbook pb p) as Hpb.
  rewrite <- H1 in Hpb. rewrite Forall_forall in Hpb.
  by apply Hpb, elem_of_events_of.
Qed.

Lemma reporting_keys (s : sys time) (pb : str) :
  reachable fmt_elapsed cfg s → printer s = Reporting →
  pb ∈ (recaps (rstate s)).*1 →
  is_Some (starts (rstate s) !! pb) ∧ is_Some (ends (rstate s) !! pb).
Proof.
  intros Hs Hp Hin.
  destruct (inv_printer_holds _ _ _ Hs) as (_ & _ & Hr & _).
  destruct (Hr Hp) as [Hsen (Hrec & Hst & Hen)].
  assert (Sentinel ∈ chan s) as Hsen'.
  { apply elem_of_take in Hsen as (k & Hk & _).
    apply list_elem_of_lookup. by exists k. }
  destruct (inv_main_holds _ _ _ Hs) as (Hm & _).
  destruct (Hm Hsen') as [Hlast _].
  rewrite (take_through_sentinel _ _ Hlast Hsen) in *.
  destruct (Hrec pb Hin) as (i & e & Hie & <-).
  destruct (sentinel_scripts s i e Hs Hsen' Hie)
    as (pb' & p & Hjob & -> & Hjs & Hev).
  split.
  - apply (Hst i (start_event pb')); [|done].
    apply elem_of_events_of. rewrite Hev. apply elem_of_cons. by left.
  - destruct (done_event_fields pb' (returncode p)) as [Hk Hn].
    rewrite <- Hn at 1. apply (Hen i); [|done].
    apply elem_of_events_of. rewrite Hev.
    apply elem_of_cons. right. apply elem_of_app. right.
    by apply list_elem_of_singleton.
Qed.

Lemma reporting_ok (s : sys time) :
  reachable fmt_elapsed cfg s → printer s = Reporting →
  (final_report fmt_elapsed (rstate s)).2 = None.
Proof.
  intros Hs Hp. unfold final_report. apply report_loop_ok.
  intros pb Hin. simpl. by apply reporting_keys.
Qed.

Lemma printer_raises_value_error (s : sys time) (e : exn) :
  reachable fmt_elapsed cfg s → printer s = PrinterRaised e → e = ValueError.
Proof.
  intros Hs. revert e. revert s Hs.
  apply (reachable_ind_trans fmt_elapsed cfg
    (λ s, ∀ e, printer s = PrinterRaised e → e = ValueError)).
  - intros e. unfold init, prologue.
    destruct (playbooks cfg); simpl; [by intros [= <-]|done].
  - intros s1 s2 Hs1 IH Ht.
    destruct Ht as [s i n job Hal|s i js0 pb0 p0 js' evs Hal
                   |s results Hm Hf Hg|s Hm Hf|s results Hm Hp
                   |s results e Hm Hp|s i ev now r e Hal Hp Hget Hbody
                   |s Hal|s r e Hal Hp Hrep|]; simpl; try done.
    + intros e. destruct (printer s) eqn:Hp; try done. apply IH.
    + intros e'. rewrite Hp. intros [= <-]. by apply IH.
    + destruct e as [e|]; [|done]. intros e' [= <-].
      by eapply loop_body_raises.
    + pose proof (reporting_ok s Hs1 Hp) as Hok.
      rewrite Hrep in Hok. simpl in Hok. by subst e.
Qed.

End Report.

Section Between.
Context {time : Type}.
Variable fmt_elapsed : time → time → str.
Variable cfg : config.

Lemma events_of_cons_self (i : nat) (e : event) (c : list item) :
  events_of i (Ev i e :: c) = e :: events_of i c.
Proof. unfold events_of. simpl. by rewrite decide_True. Qed.

(** On the channel a classified chunk of a job comes after the START
    of the job and, once the sentinel is put, before its DONE. *)
Lemma chunk_between (s : sys time) (c1 c2 : list item) (i : nat) (e : event) :
  reachable fmt_elapsed cfg s → chan s = c1 ++ Ev i e :: c2 →
  msgtype e ≠ START → msgtype e ≠ DONE →
  (∃ e0, Ev i e0 ∈ c1 ∧ msgtype e0 = START ∧ playbook e0 = playbook e) ∧
  (Sentinel ∈ chan s →
   ∃ e1, Ev i e1 ∈ c2 ∧ msgtype e1 = DONE ∧ playbook e1 = playbook e).
Proof.
  intros Hs Hchan HnS HnD.
  assert (Ev i e ∈ chan s) as Hin by (rewrite Hchan; set_solver).
  destruct (inv_producers_holds _ _ _ Hs i e Hin) as [[pb p] Hjob].
  destruct (lookup_lt_is_Some_2 (tasks s) i) as [js Hjs].
  { rewrite (inv_length_holds _ _ _ Hs). by eapply lookup_lt_Some. }
  destruct (inv_script_holds _ _ _ Hs i pb p _ Hjob Hjs) as [[k Hpre] _].
  assert (events_of i (chan s)
          = events_of i c1 ++ e :: events_of i c2) as Hsplit.
  { by rewrite Hchan, events_of_app, events_of_cons_self. }
  assert (playbook e = pb) as Hpb.
  { pose proof (run_playbook_playbook pb p) as HF.
    rewrite Forall_forall in HF. apply HF. rewrite Hpre.
    apply elem_of_app. left. by apply elem_of_events_of. }
  split.
  - rewrite Hsplit, run_playbook_unfold in Hpre.
    destruct (events_of i c1) as [|e0 l] eqn:H1.
    + exfalso. apply HnS.
      destruct (spawns p); simpl in Hpre; by injection Hpre as <- _.
    + exists e0. split; [apply elem_of_events_of; rewrite H1; set_solver|].
      destruct (spawns p); simpl in Hpre; injection Hpre as <- _;
        by rewrite Hpb.
  - intros Hsen.
    destruct (sentinel_scripts fmt_elapsed cfg s i e Hs Hsen Hin)
      as (pb' & p' & Hjob' & _ & _ & Hev).
    rewrite Hjob in Hjob'. injection Hjob' as <- <-.
    rewrite Hsplit in Hev. apply (f_equal last) in Hev.
    rewrite app_comm_cons, last_snoc, last_app, last_cons in Hev.
    destruct (done_event_fields pb (returncode p)) as [Hk Hn].
    destruct (last (events_of i c2)) as [y|] eqn:Hlast.
    + injection Hev as ->. exists (done_event pb (returncode p)).
      split; [|by rewrite Hpb].
      apply elem_of_events_of. by eapply last_Some_elem_of.
    + injection Hev as ->. done.
Qed.

End Between.

(** C10.  When the printer is about to write the final report, every
    playbook of [recaps] has an entry in [starts] and in [ends], so the
    report is written without a KeyError; the printer never raises one.
    The reasons: the sentinel is put only when every job task has
    returned, and on the channel the RECAP and ERROR events of a job
    come after its START and before its DONE. *)
Theorem final_report_keys {time : Type} (fmt_elapsed : time → time → str)
    (cfg : config) (s : sys time) :
  reachable fmt_elapsed cfg s →
  (printer s = Reporting →
   (∀ pb, pb ∈ (recaps (rstate s)).*1 →
      is_Some (starts (rstate s) !! pb) ∧ is_Some (ends (rstate s) !! pb)) ∧
   (final_report fmt_elapsed (rstate s)).2 = None) ∧
  printer s ≠ PrinterRaised KeyError ∧
  (Sentinel ∈ chan s → ∀ i js, tasks s !! i = Some js → ∃ rc, js = Returned rc) ∧
  (∀ c1 c2 i e,
     chan s = c1 ++ Ev i e :: c2 → msgtype e = RECAP ∨ msgtype e = ERROR →
     (∃ e0, Ev i e0 ∈ c1 ∧ msgtype e0 = START ∧ playbook e0 = playbook e) ∧
     (Sentinel ∈ chan s →
      ∃ e1, Ev i e1 ∈ c2 ∧ msgtype e1 = DONE ∧ playbook e1 = playbook e)).
Proof.
  intros Hs. split; [|split; [|split]].
  - intros Hp. split.
    + intros pb. by apply (reporting_keys fmt_elapsed cfg).
    + by apply (reporting_ok fmt_elapsed cfg).
  - intros Hp.
    by pose proof (printer_raises_value_error fmt_elapsed cfg s _ Hs Hp).
  - intros Hsen i js Hjs.
    destruct (inv_main_holds _ _ _ Hs) as (Hm & _).
    destruct (Hm Hsen) as [_ [rs Hg]].
    destruct (gathered_lookup _ _ _ _ Hg Hjs) as (rc & -> & _). by exists rc.
  - intros c1 c2 i e Hchan Hk.
    apply (chunk_between fmt_elapsed cfg s c1 c2 i e Hs Hchan);
      by destruct Hk as [-> | ->].
Qed.

Lemma final_report_keys_witness :
  is_Some (starts (rstate (final_of cfg_recap run_recap)) !! Py.lit "site.yml") ∧
  is_Some (ends (rstate (final_of cfg_recap run_recap)) !! Py.lit "site.yml") ∧
  (final_report demo_fmt (rstate (final_of cfg_recap run_recap))).2 = None.
Proof.
  assert (reachable demo_fmt cfg_recap (final_of cfg_recap run_recap)) as Hreach
    by by_exec run_recap.
  assert (printer (final_of cfg_recap run_recap) = Reporting) as Hp
    by (vm_compute; reflexivity).
  destruct (proj1 (final_report_keys demo_fmt cfg_recap _ Hreach) Hp)
    as [Hkeys Hok].
  destruct (Hkeys (Py.lit "site.yml")) as [H1 H2].
  { vm_compute. apply list_elem_of_here. }
  split; [exact H1|]. split; [exact H2|exact Hok].
Defined.

Lemma loop_body_frame_witness :
  starts (loop_body demo_playbooks 7 demo_ok_event demo_renderer).1
  = starts demo_renderer ∧
  ends (loop_body demo_playbooks 7 demo_ok_event demo_renderer).1
  = ends demo_renderer ∧
  recaps (loop_body demo_playbooks 7 demo_ok_event demo_renderer).1
  = recaps demo_renderer ∧
  currently_running (loop_body demo_playbooks 7 demo_ok_event demo_renderer).1
  = currently_running demo_renderer.
Proof.
  apply (proj1 (loop_body_frame demo_playbooks 7 demo_ok_event demo_renderer
                  _ _ (surjective_pairing _))).
  apply elem_of_cons. by left.
Defined.


(** ** check_playbooks and the start of amain *)

(** X1.  [check_playbooks] looks at every playbook, without stopping at
    the first one that is missing: it returns True exactly when some
    playbook is not a file, and it prints one line for each missing
    playbook, in the order of the command line. *)
Theorem check_playbooks_spec (isfile : str → bool) (playbooks : list str) :
  ((check_playbooks isfile playbooks).1 = true ↔
   ∃ p, p ∈ playbooks ∧ isfile p = false) ∧
  (check_playbooks isfile playbooks).2
  = could_not_find <$> filter (λ p, isfile p = false) playbooks ∧
  ((check_playbooks isfile playbooks).1 = false ↔
   (check_playbooks isfile playbooks).2 = []).
Proof.
  unfold check_playbooks. rewrite check_playbooks_loop_spec. simpl.
  split; [|split; [done|]].
  - rewrite existsb_exists. split.
    + intros (p & Hin & Hp). exists p. split; [by apply list_elem_of_In|].
      by destruct (isfile p).
    + intros (p & Hin & Hp). exists p. split; [by apply list_elem_of_In|].
      by rewrite Hp.
  - induction playbooks as [|p rest IH]; [done|].
    simpl. rewrite filter_cons.
    destruct (decide (isfile p = false)) as [Hp|Hp].
    + by rewrite Hp.
    + apply not_false_is_true in Hp. by rewrite Hp.
Qed.

(** X2.  [amain] returns 1 before anything is started exactly when
    ANSIBLE_PARALLEL_VERIFY_PLAYBOOKS is set to a non-empty string
    (whatever the string, "0" included) and some playbook is not a file;
    stderr then names every missing playbook.  In every other case it
    goes on, having printed nothing. *)
Theorem amain_verify_spec (verify : option str) (isfile : str → bool)
    (playbooks : list str) :
  (∀ rc stderr,
     amain_verify verify isfile playbooks = Some (rc, stderr) ↔
     (∃ c v, verify = Some (c :: v)) ∧
     (∃ p, p ∈ playbooks ∧ isfile p = false) ∧
     rc = 1 ∧
     stderr = could_not_find <$> filter (λ p, isfile p = false) playbooks) ∧
  (amain_verify verify isfile playbooks = None ↔
   verify = None ∨ verify = Some [] ∨ ∀ p, p ∈ playbooks → isfile p = true) ∧
  amain_verify (Some (Py.lit "0")) isfile playbooks
  = amain_verify (Some (Py.lit "1")) isfile playbooks.
Proof.
  destruct (check_playbooks_outcome isfile playbooks) as (Hfail & Herr).
  unfold amain_verify.
  destruct (check_playbooks isfile playbooks) as [fail stderr0] eqn:Hc.
  simpl in Hfail, Herr.
  split; [|split; [|done]].
  - intros rc stderr. destruct verify as [[|c v]|]; simpl.
    + split; [done|]. by intros [(? & ? & ?) _].
    + destruct fail.
      * split.
        -- intros [= <- <-]. split; [by eauto|]. split; [by apply Hfail|done].
        -- intros (_ & _ & -> & ->). by rewrite Herr.
      * split; [done|]. intros (_ & Hm & _). apply Hfail in Hm. done.
    + split; [done|]. by intros [(? & ? & ?) _].
  - destruct verify as [[|c v]|]; simpl; [naive_solver| |naive_solver].
    destruct fail.
    + split; [done|]. intros [?|[?|Hall]]; [done..|].
      destruct (proj1 Hfail eq_refl) as (p & Hin & Hp).
      rewrite (Hall p Hin) in Hp. done.
    + split; [|done]. intros _. right. right. intros p Hin.
      destruct (isfile p) eqn:Hp; [done|].
      assert (false = true); [|done]. apply Hfail. eauto.
Qed.

(** ** More on the stream reader *)





(** ** More on the classifier *)

Lemma startswith_spec (s p : str) :
  Py.startswith s p = true ↔ ∃ b, s = p ++ b.
Proof.
  revert s. induction p as [|a p IH]; intros s; simpl.
  - split; [intros _; by exists s|by destruct s].
  - destruct s as [|c s]; simpl.
    + split; [done|]. by intros [b ?].
    + rewrite andb_true_iff, N.eqb_eq, IH. split.
      * intros [-> [b ->]]. by exists b.
      * intros [b [= -> ->]]. eauto.
Qed.

Lemma contains_spec (s p : str) :
  Py.contains s p = true ↔ ∃ a b, s = a ++ p ++ b.
Proof.
  induction s as [|c s IH]; cbn [Py.contains].
  - rewrite orb_false_r, startswith_spec. split.
    + intros [b Hb]. by exists [], b.
    + intros (a & b & H). symmetry in H.
      apply app_eq_nil in H as [-> H]. apply app_eq_nil in H as [-> ->].
      by exists [].
  - rewrite orb_true_iff, startswith_spec, IH. split.
    + intros [[b Hb]|(a & b & ->)].
      * by exists [], b.
      * by exists (c :: a), b.
    + intros ([|c' a] & b & H).
      * left. by exists b.
      * right. injection H as -> ->. by exists a, b.
Qed.

Lemma split_nl_length (s : str) :
  (2 ≤ length (Py.split_nl s))%nat ↔ Py.LF ∈ s.
Proof.
  induction s as [|c s IH]; simpl.
  - split; [lia|by intros ?%elem_of_nil].
  - rewrite elem_of_cons. destruct (N.eqb_spec c Py.LF) as [->|Hc].
    + destruct (split_nl_cons s) as (l & ls & ->). simpl. split; [by left|lia].
    + destruct (split_nl_cons s) as (l & ls & Hs). rewrite Hs in IH |- *.
      simpl in *. rewrite IH. split; [by right|]. by intros [?|?].
Qed.

(** X4.  [prepare_chunk] gives RECAP exactly to the chunks in which the
    text "PLAY RECAP" occurs somewhere and which, once stripped of the
    white space around them, still hold a line feed. *)
Theorem prepare_chunk_recap_iff (pb chunk : str) :
  msgtype (prepare_chunk pb chunk) = RECAP ↔
  (∃ a b, chunk = a ++ PLAY_RECAP ++ b) ∧ Py.LF ∈ Py.strip chunk.
Proof.
  rewrite <- contains_spec, <- split_nl_length.
  unfold prepare_chunk, classify. simpl.
  pose proof (prepare_chunk_tail_not_recap chunk) as Htail.
  destruct (Py.split_nl (Py.strip chunk)) as [|l0 [|l1 ls]]; simpl.
  - split; [|lia]. intros E. rewrite E in Htail. set_solver.
  - split; [|lia]. intros E. rewrite E in Htail. set_solver.
  - destruct (Py.contains chunk PLAY_RECAP); [split; [split; [done|lia]|done]|].
    split; [|by intros [? _]].
    destruct (Py.contains l1 kw_ok), (Py.contains l1 kw_changed),
      (Py.contains l1 kw_failed), (Py.contains l1 kw_fatal),
      (Py.contains l1 kw_unreachable); simpl; try discriminate;
      intros E; rewrite E in Htail; set_solver.
Qed.

(** ** More on truncate *)

Lemma truncate_short (string : str) (max_width : Z) :
  Py.len string ≤ max_width → truncate string max_width = string.
Proof. intros H. unfold truncate. by rewrite (proj2 (Z.leb_le _ _) H). Qed.

Lemma truncate_long (string : str) (max_width : Z) :
  1 ≤ max_width → max_width < Py.len string →
  truncate string max_width
  = take (Z.to_nat (max_width - 1)) string ++ [ELLIPSIS].
Proof.
  intros H1 H2. unfold truncate, Py.slice_to.
  by rewrite (proj2 (Z.leb_gt _ _) H2), (proj2 (Z.ltb_ge _ _)) by lia.
Qed.

Lemma truncate_zero (string : str) :
  string ≠ [] →
  truncate string 0 = take (length string - 1) string ++ [ELLIPSIS].
Proof.
  intros Hne. unfold truncate, Py.slice_to, Py.len.
  assert (0 < length string)%nat by (destruct string; simpl; [done|lia]).
  rewrite (proj2 (Z.leb_gt _ _)) by lia. simpl.
  f_equal. f_equal. lia.
Qed.

(** X5.  For a width that is not negative [truncate] never lengthens
    the string and truncating twice is truncating once; for a width of at
    least one the result is as long as the shorter of the string and the
    width. *)
Theorem truncate_fits (string : str) (max_width : Z) :
  0 ≤ max_width →
  Py.len (truncate string max_width) ≤ Py.len string ∧
  truncate (truncate string max_width) max_width = truncate string max_width ∧
  (1 ≤ max_width →
   Py.len (truncate string max_width) = Z.min (Py.len string) max_width).
Proof.
  intros Hw.
  assert (Py.len string ≤ max_width ∨ max_width < Py.len string) as [Hle|Hgt]
    by lia.
  { rewrite !(truncate_short _ _ Hle). repeat split; lia. }
  destruct (decide (max_width = 0)) as [->|Hne].
  - assert (string ≠ []) as Hs by (intros ->; simpl in Hgt; unfold Py.len in Hgt; simpl in Hgt; lia).
    rewrite (truncate_zero _ Hs).
    assert (length (take (length string - 1) string) = (length string - 1)%nat)
      as Hlen by (rewrite length_take; lia).
    split; [|split; [|lia]].
    + unfold Py.len in *. rewrite length_app, Hlen. simpl. lia.
    + rewrite truncate_zero by (by destruct (take _ string)).
      rewrite length_app, Hlen. simpl.
      replace (length string - 1 + 1 - 1)%nat
        with (length (take (length string - 1) string)) by lia.
      by rewrite take_app_length.
  - rewrite (truncate_long string max_width) by lia.
    assert (Py.len (take (Z.to_nat (max_width - 1)) string ++ [ELLIPSIS])
            = max_width) as Hlen.
    { unfold Py.len in *. rewrite length_app, length_take. simpl. lia. }
    split; [lia|]. split; [|lia]. apply truncate_short. lia.
Qed.

Lemma truncate_fits_witness :
  Py.len (truncate (Py.lit "TASK [common : ping]") 8) ≤ 20 ∧
  truncate (truncate (Py.lit "TASK [common : ping]") 8) 8
  = truncate (Py.lit "TASK [common : ping]") 8.
Proof.
  destruct (truncate_fits (Py.lit "TASK [common : ping]") 8) as (H1 & H2 & _).
  - lia.
  - split; [exact H1|exact H2].
Defined.

(** ** More on the renderer *)

Lemma index_spec (l : list str) (x : str) (n : nat) :
  Py.index l x = Some n →
  l !! n = Some x ∧ ∀ m, (m < n)%nat → l !! m ≠ Some x.
Proof.
  revert n. induction l as [|y l IH]; intros n; simpl; [done|].
  unfold Py.eqb. case_bool_decide as Hy.
  - intros [= <-]. subst y. split; [done|]. lia.
  - destruct (Py.index l x) as [k|]; [|done]. intros [= <-].
    destruct (IH k eq_refl) as [Hk Hlt]. split; [done|].
    intros [|m] Hm; simpl; [congruence|]. apply Hlt. lia.
Qed.

Lemma index_None (l : list str) (x : str) : Py.index l x = None ↔ x ∉ l.
Proof.
  induction l as [|y l IH]; simpl.
  - split; [by intros _ ?%elem_of_nil|done].
  - unfold Py.eqb. case_bool_decide as Hy.
    + subst y. split; [done|]. intros H. exfalso. apply H. by left.
    + rewrite not_elem_of_cons, <- IH.
      destruct (Py.index l x); simpl; naive_solver.
Qed.

Lemma remove_spec (l l' : list str) (x : str) :
  Py.remove l x = Some l' →
  ∃ a b, l = a ++ x :: b ∧ (x ∉ a) ∧ l' = a ++ b.
Proof.
  revert l'. induction l as [|y l IH]; intros l'; simpl; [done|].
  unfold Py.eqb. case_bool_decide as Hy.
  - intros [= <-]. subst y. exists [], l. split; [done|].
    split; [by intros ?%elem_of_nil|done].
  - destruct (Py.remove l x) as [k|]; [|done]. intros [= <-].
    destruct (IH k eq_refl) as (a & b & -> & Ha & ->).
    exists (y :: a), b. split; [done|]. split; [|done].
    rewrite not_elem_of_cons. split; [congruence|done].
Qed.

Lemma remove_None (l : list str) (x : str) : Py.remove l x = None ↔ x ∉ l.
Proof.
  induction l as [|y l IH]; simpl.
  - split; [by intros _ ?%elem_of_nil|done].
  - unfold Py.eqb. case_bool_decide as Hy.
    + subst y. split; [done|]. intros H. exfalso. apply H. by left.
    + rewrite not_elem_of_cons, <- IH.
      destruct (Py.remove l x); simpl; naive_solver.
Qed.

Lemma loop_body_layout {time : Type} (playbooks : list str) (now : time)
    (ev : event) (r r' : renderer time) :
  loop_body playbooks now ev r = (r', None) →
  ∃ position : nat,
    playbooks !! position = Some (playbook ev) ∧
    (∀ m, (m < position)%nat → playbooks !! m ≠ Some (playbook ev)) ∧
    1 ≤ Z.of_nat (length playbooks) - Z.of_nat position
      ≤ Z.of_nat (length playbooks) ∧
    stream r'
    = stream r ++ (cursor_moves r playbooks position).1
               ++ lane_text r ev
               ++ (cursor_moves r playbooks position).2 ∧
    frameno r' = frameno r + 1 ∧
    longest_name r' = longest_name r ∧ columns r' = columns r.
Proof.
  unfold loop_body, cursor_moves, lane_text.
  destruct (Py.index playbooks (playbook ev)) as [position|] eqn:Hidx; [|done].
  destruct (index_spec _ _ _ Hidx) as [Hpos Hfirst].
  pose proof (lookup_lt_Some _ _ _ Hpos) as Hlt.
  intros Hbody. exists position. split; [done|]. split; [done|]. split; [lia|].
  destruct ev as [k pb m]. simpl in *.
  destruct k; simpl in *;
    try (destruct (Py.remove (currently_running r) pb); [|done]);
    injection Hbody as <-; simpl; rewrite <- ?app_assoc; done.
Qed.

(** X6.  An iteration of the renderer loop that does not raise writes,
    in this order: the cursor up to the lane of the event's playbook and
    right past the longest name, the lane text of the event, and the
    cursor back down by the same number of rows and back to the first
    column.  The lane is that of the first occurrence of the playbook on
    the command line; the number of rows is between 1 and the number of
    playbooks.  The frame number grows by one. *)
Theorem loop_body_writes {time : Type} (playbooks : list str) (now : time)
    (ev : event) (r r' : renderer time) :
  loop_body playbooks now ev r = (r', None) →
  ∃ position : nat,
    playbooks !! position = Some (playbook ev) ∧
    (∀ m, (m < position)%nat → playbooks !! m ≠ Some (playbook ev)) ∧
    1 ≤ Z.of_nat (length playbooks) - Z.of_nat position
      ≤ Z.of_nat (length playbooks) ∧
    stream r'
    = stream r ++ (cursor_moves r playbooks position).1
               ++ lane_text r ev
               ++ (cursor_moves r playbooks position).2 ∧
    frameno r' = frameno r + 1 ∧
    longest_name r' = longest_name r ∧ columns r' = columns r.
Proof. apply loop_body_layout. Qed.

Lemma loop_body_writes_witness :
  frameno (loop_body demo_playbooks 7 demo_ok_event demo_renderer).1 = 1.
Proof.
  destruct (loop_body_writes demo_playbooks 7 demo_ok_event demo_renderer
              (loop_body demo_playbooks 7 demo_ok_event demo_renderer).1)
    as (position & _ & _ & _ & _ & H & _).
  - vm_compute. reflexivity.
  - exact H.
Defined.

(** X7.  An iteration of the renderer loop raises, and then ValueError,
    exactly when the playbook of the event is not one of the playbooks of
    the command line, or the event is a DONE for a playbook that is not
    in [currently_running].  For an unknown playbook nothing has been
    written when it raises. *)
Theorem loop_body_raises_iff {time : Type} (playbooks : list str) (now : time)
    (ev : event) (r : renderer time) :
  ((loop_body playbooks now ev r).2 = None ↔
   playbook ev ∈ playbooks ∧
   (msgtype ev = DONE → playbook ev ∈ currently_running r)) ∧
  ((loop_body playbooks now ev r).2 ≠ None →
   (loop_body playbooks now ev r).2 = Some ValueError) ∧
  (playbook ev ∉ playbooks →
   stream (loop_body playbooks now ev r).1 = stream r).
Proof.
  unfold loop_body. destruct ev as [k pb m]. simpl.
  destruct (Py.index playbooks pb) as [position|] eqn:Hidx.
  - assert (pb ∈ playbooks) as Hin.
    { destruct (index_spec _ _ _ Hidx) as [Hpos _].
      apply list_elem_of_lookup. by exists position. }
    destruct (decide (k = DONE)) as [->|Hk].
    + simpl. destruct (Py.remove (currently_running r) pb) as [l'|] eqn:Hrm;
        simpl.
      * split; [|done]. split; [|done]. intros _. split; [done|]. intros _.
        apply remove_spec in Hrm as (a & b & -> & _). set_solver.
      * split; [|done]. split; [done|]. intros [_ Hrun].
        apply remove_None in Hrm. exfalso. by apply Hrm, Hrun.
    + destruct k; simpl; try done; (split; [|done]); (split; [|done]);
        intros _; (split; [done|]); by intros ?.
  - apply index_None in Hidx. simpl. split; [|done].
    split; [done|]. by intros [? _].
Qed.

Lemma loop_body_ok {time : Type} (playbooks : list str) (now : time)
    (ev : event) (r : renderer time) :
  playbook ev ∈ playbooks →
  (msgtype ev = DONE → playbook ev ∈ currently_running r) →
  ∃ r', loop_body playbooks now ev r = (r', None).
Proof.
  intros Hin Hrun. destruct (index_is_Some _ _ Hin) as [position Hidx].
  unfold loop_body. destruct ev as [k pb m]. simpl in *. rewrite Hidx.
  destruct (decide (k = DONE)) as [->|Hk].
  - simpl. destruct (Py.remove (currently_running r) pb) as [l'|] eqn:Hrm.
    + by eexists.
    + apply remove_None in Hrm. exfalso. by apply Hrm, Hrun.
  - destruct k; simpl; try done; by eexists.
Qed.

(** What one iteration of the loop does to [currently_running]. *)
Lemma loop_body_running {time : Type} (playbooks : list str) (now : time)
    (ev : event) (r r' : renderer time) :
  loop_body playbooks now ev r = (r', None) →
  match msgtype ev with
  | START => currently_running r' = currently_running r ++ [playbook ev]
  | DONE => Py.remove (currently_running r) (playbook ev)
            = Some (currently_running r')
  | _ => currently_running r' = currently_running r
  end.
Proof.
  unfold loop_body. destruct ev as [k pb m]. simpl.
  destruct (Py.index playbooks pb) as [position|]; [|done].
  destruct k; simpl; try (destruct (Py.remove (currently_running r) pb));
    by intros [= <-].
Qed.

(** X8.  A START event followed by the DONE event of the same playbook,
    for a playbook of the command line, never raises; it records both
    timestamps, leaves [recaps] alone and leaves in [currently_running]
    the playbooks that were there (the very same list when the playbook
    was not already running). *)
Theorem start_then_done {time : Type} (playbooks : list str) (t0 t1 : time)
    (pb m0 m1 : str) (r : renderer time) :
  pb ∈ playbooks →
  ∃ r1 r2,
    loop_body playbooks t0 (Event START pb m0) r = (r1, None) ∧
    loop_body playbooks t1 (Event DONE pb m1) r1 = (r2, None) ∧
    starts r2 !! pb = Some t0 ∧ ends r2 !! pb = Some t1 ∧
    recaps r2 = recaps r ∧
    currently_running r2 ≡ₚ currently_running r ∧
    (pb ∉ currently_running r → currently_running r2 = currently_running r).
Proof.
  intros Hin.
  destruct (loop_body_ok playbooks t0 (Event START pb m0) r Hin) as [r1 H1];
    [done|].
  pose proof (loop_body_running _ _ _ _ _ H1) as Hrun1. simpl in Hrun1.
  destruct (loop_body_maps _ _ _ _ _ H1) as (Hs1 & He1 & Hr1). simpl in *.
  destruct (loop_body_ok playbooks t1 (Event DONE pb m1) r1 Hin) as [r2 H2].
  { intros _. simpl. rewrite Hrun1. set_solver. }
  pose proof (loop_body_running _ _ _ _ _ H2) as Hrun2. simpl in Hrun2.
  destruct (loop_body_maps _ _ _ _ _ H2) as (Hs2 & He2 & Hr2). simpl in *.
  exists r1, r2. split; [done|]. split; [done|].
  rewrite Hs2, He2, Hr2, Hs1, Hr1.
  split; [by rewrite lookup_insert_eq|]. split; [by rewrite lookup_insert_eq|].
  split; [done|].
  rewrite Hrun1 in Hrun2.
  apply remove_spec in Hrun2 as (a & b & Heq & Ha & ->).
  assert (a ++ b ≡ₚ currently_running r) as Hperm.
  { apply (Permutation_app_inv_r [pb]).
    rewrite Heq. rewrite <- app_assoc. apply Permutation_app_head.
    by rewrite <- Permutation_cons_append. }
  split; [done|].
  intros Hnot.
  destruct (decide (b = [])) as [->|Hb].
  - rewrite app_nil_r. by apply app_inj_tail in Heq as [-> _].
  - exfalso. destruct (exists_last Hb) as (b' & y & ->).
    rewrite app_comm_cons, app_assoc in Heq.
    apply app_inj_tail in Heq as [Heq _].
    apply Hnot. rewrite Heq. set_solver.
Qed.

Lemma start_then_done_witness :
  ∃ r2, currently_running r2 = currently_running demo_renderer ∧
        starts r2 !! Py.lit "b.yml" = Some 3.
Proof.
  destruct (start_then_done demo_playbooks 3 9 (Py.lit "b.yml") [] [] demo_renderer)
    as (r1 & r2 & _ & _ & Hs & _ & _ & _ & Hrun).
  - apply elem_of_cons. right. apply elem_of_cons. by left.
  - exists r2. split; [|exact Hs]. apply Hrun. vm_compute.
    by intros ?%elem_of_nil.
Defined.

(** ** The report buffer *)

Lemma recaps_append_get (rc : list (str * list str)) (pb m pb' : str) :
  recaps_get (recaps_append rc pb m) pb'
  = if decide (pb' = pb) then recaps_get rc pb ++ [m] else recaps_get rc pb'.
Proof.
  induction rc as [|[k v] rc IH]; simpl.
  - unfold Py.eqb. case_bool_decide; case_decide; naive_solver.
  - unfold Py.eqb in *. case_bool_decide as Hk; simpl; unfold Py.eqb.
    + subst k. case_bool_decide; case_decide; naive_solver.
    + rewrite IH. case_bool_decide as Hk'; case_decide; naive_solver.
Qed.

Lemma recaps_append_key_list (rc : list (str * list str)) (pb m : str) :
  (recaps_append rc pb m).*1
  = if decide (pb ∈ rc.*1) then rc.*1 else rc.*1 ++ [pb].
Proof.
  induction rc as [|[k v] rc IH].
  - by destruct (decide (pb ∈ ([] : list (str * list str)).*1))
      as [?%elem_of_nil|?].
  - cbn [recaps_append]. unfold Py.eqb. rewrite fmap_cons.
    case_bool_decide as Hk; rewrite fmap_cons; cbn [fst].
    + subst k. rewrite decide_True; [done|]. by left.
    + rewrite IH. destruct (decide (pb ∈ rc.*1)) as [Hin|Hin].
      * rewrite decide_True; [done|]. by right.
      * rewrite decide_False; [done|].
        rewrite not_elem_of_cons. split; [congruence|done].
Qed.

(** X9.  [recaps[playbook].append(msg)] behaves as a dictionary that
    keeps insertion order: the chunks of the playbook gain [msg] at the
    end, the chunks of every other playbook are untouched, a playbook
    seen before keeps its place, a new one goes last, and no playbook is
    listed twice. *)
Theorem recaps_append_spec (rc : list (str * list str)) (pb m : str) :
  recaps_get (recaps_append rc pb m) pb = recaps_get rc pb ++ [m] ∧
  (∀ pb', pb' ≠ pb → recaps_get (recaps_append rc pb m) pb' = recaps_get rc pb') ∧
  (pb ∈ rc.*1 → (recaps_append rc pb m).*1 = rc.*1) ∧
  (pb ∉ rc.*1 → (recaps_append rc pb m).*1 = rc.*1 ++ [pb]) ∧
  (NoDup rc.*1 → NoDup (recaps_append rc pb m).*1).
Proof.
  split; [|split; [|split; [|split]]].
  - by rewrite recaps_append_get, decide_True.
  - intros pb' Hne. by rewrite recaps_append_get, decide_False.
  - intros Hin. by rewrite recaps_append_key_list, decide_True.
  - intros Hin. by rewrite recaps_append_key_list, decide_False.
  - intros Hnd. rewrite recaps_append_key_list. case_decide; [done|].
    apply NoDup_app. split; [done|]. split; [|apply NoDup_singleton].
    intros x Hx ->%list_elem_of_singleton. done.
Qed.

Lemma recaps_append_spec_witness :
  NoDup (recaps_append [(Py.lit "a.yml", [Py.lit "x"])] (Py.lit "b.yml")
                       (Py.lit "y")).*1.
Proof.
  apply (recaps_append_spec [(Py.lit "a.yml", [Py.lit "x"])]).
  apply NoDup_singleton.
Defined.

Lemma run_loop_recaps {time : Type} (playbooks : list str)
    (results : list (time * event)) :
  ∀ r r' : renderer time,
    run_loop playbooks results r = (r', None) →
    (∀ pb, recaps_get (recaps r') pb
           = recaps_get (recaps r) pb
             ++ (msg <$> filter (reported pb) results.*2)) ∧
    (recaps r).*1 `prefix_of` (recaps r').*1 ∧
    (NoDup (recaps r).*1 → NoDup (recaps r').*1).
Proof.
  induction results as [|[now ev] rest IH]; intros r r'; simpl.
  - intros [= <-]. split; [|done]. intros pb. by rewrite app_nil_r.
  - destruct (loop_body playbooks now ev r) as [r1 [e|]] eqn:Hbody; [done|].
    intros Hrest. destruct (IH r1 r' Hrest) as (Hget & Hpre & Hnd).
    destruct (loop_body_maps _ _ _ _ _ Hbody) as (_ & _ & Hr1).
    split; [|split].
    + intros pb. rewrite Hget, Hr1. cbn [fmap list_fmap snd].
      rewrite filter_cons.
      destruct (decide (reported pb ev)) as [[Hk Hpb]|Hn].
      * rewrite decide_True by done. rewrite recaps_append_get.
        rewrite decide_True by done. subst pb.
        rewrite fmap_cons. by rewrite <- app_assoc.
      * destruct (decide (msgtype ev = RECAP ∨ msgtype ev = ERROR)) as [Hk|Hk];
          [|done].
        rewrite recaps_append_get, decide_False; [done|].
        intros ->. by apply Hn.
    + etrans; [|done]. rewrite Hr1. case_decide; [|done].
      rewrite recaps_append_key_list. case_decide; [done|].
      by apply prefix_app_r.
    + intros Hr. apply Hnd. rewrite Hr1. case_decide; [|done].
      rewrite recaps_append_key_list. case_decide; [done|].
      apply NoDup_app. split; [done|]. split; [|apply NoDup_singleton].
      intros x Hx ->%list_elem_of_singleton. done.
Qed.

(** X10.  When the renderer loop has handled a sequence of events
    without raising, the report buffer of each playbook holds the
    payloads of exactly its RECAP and ERROR events, in the order they
    came; the playbooks already in the buffer stay first, in their order,
    and none is listed twice. *)
Theorem run_loop_accumulates {time : Type} (playbooks : list str)
    (results : list (time * event)) (r r' : renderer time) :
  run_loop playbooks results r = (r', None) →
  (∀ pb, recaps_get (recaps r') pb
         = recaps_get (recaps r) pb
           ++ (msg <$> filter (reported pb) results.*2)) ∧
  (recaps r).*1 `prefix_of` (recaps r').*1 ∧
  (NoDup (recaps r).*1 → NoDup (recaps r').*1) ∧
  (∀ pb, pb ∈ (recaps r').*1 ↔
         pb ∈ (recaps r).*1 ∨ ∃ ev, ev ∈ results.*2 ∧ reported pb ev).
Proof.
  intros Hrun. destruct (run_loop_recaps _ _ _ _ Hrun) as (Hget & Hpre & Hnd).
  split; [done|]. split; [done|]. split; [done|].
  clear Hget Hpre Hnd. revert r r' Hrun.
  induction results as [|[now ev] rest IH]; intros r r'; simpl.
  - intros [= <-] pb. split; [by left|]. intros [?|(ev & Hin & _)]; [done|].
    by apply elem_of_nil in Hin.
  - destruct (loop_body playbooks now ev r) as [r1 [e|]] eqn:Hbody; [done|].
    intros Hrest pb. rewrite (IH r1 r' Hrest pb).
    destruct (loop_body_maps _ _ _ _ _ Hbody) as (_ & _ & Hr1). rewrite Hr1.
    destruct (decide (msgtype ev = RECAP ∨ msgtype ev = ERROR)) as [Hk|Hk].
    + rewrite recaps_append_keys. split.
      * intros [[Hin| ->]|(ev' & Hin & Hrep)]; [by left| |].
        -- right. exists ev. split; [by left|done].
        -- right. exists ev'. split; [by right|done].
      * intros [Hin|(ev' & [->|Hin]%elem_of_cons & Hrep)]; [by left; left| |].
        -- left. right. by destruct Hrep as [_ <-].
        -- right. by exists ev'.
    + split.
      * intros [Hin|(ev' & Hin & Hrep)]; [by left|].
        right. exists ev'. split; [by right|done].
      * intros [Hin|(ev' & [->|Hin]%elem_of_cons & Hrep)]; [by left| |].
        -- by destruct Hrep as [? _].
        -- right. by exists ev'.
Qed.

Lemma run_loop_accumulates_witness :
  recaps_get (recaps (run_loop demo_playbooks demo_results demo_renderer).1)
             (Py.lit "a.yml")
  = [recap_chunk].
Proof.
  apply (proj1 (run_loop_accumulates demo_playbooks demo_results demo_renderer
                  (run_loop demo_playbooks demo_results demo_renderer).1
                  ltac:(vm_compute; reflexivity))
           (Py.lit "a.yml")).
Defined.

(** ** More on the final report *)

Lemma report_lines_filter (lines : list str) :
  report_lines lines
  = filter (λ line, Py.contains line PLAY_RECAP = false) lines
      ≫= λ line, [line; [Py.LF]].
Proof.
  induction lines as [|l lines IH]; [done|].
  simpl. rewrite filter_cons.
  destruct (Py.contains l PLAY_RECAP) eqn:Hl.
  - by rewrite decide_False.
  - rewrite decide_True by done. csimpl. by rewrite IH.
Qed.

Lemma foldl_write_stream {time : Type} (texts : list str) (r : renderer time) :
  stream (foldl (λ r text, write text r) r texts) = stream r ++ texts.
Proof.
  revert r. induction texts as [|t texts IH]; intros r; simpl.
  - by rewrite app_nil_r.
  - rewrite IH. simpl. by rewrite <- app_assoc.
Qed.

Lemma report_chunks_stream {time : Type} (recap : list str) (r : renderer time) :
  stream (foldl (λ r chunk, foldl (λ r text, write text r) r
                              (report_lines (Py.split_nl chunk))) r recap)
  = stream r ++ report_body recap.
Proof.
  unfold report_body. revert r.
  induction recap as [|c recap IH]; intros r; csimpl.
  - by rewrite app_nil_r.
  - rewrite IH, foldl_write_stream, report_lines_filter.
    by rewrite <- app_assoc.
Qed.

Lemma report_loop_stream {time : Type} (fmt_elapsed : time → time → str)
    (items : list (str * list str)) :
  ∀ r r' : renderer time,
    report_loop fmt_elapsed items r = (r', None) →
    stream r'
    = stream r ++ (items ≫= λ item,
                     default [] (report_header fmt_elapsed r item.1)
                       :: report_body item.2).
Proof.
  induction items as [|[pb recap] items IH]; intros r r'; csimpl.
  - intros [= <-]. by rewrite app_nil_r.
  - destruct (report_header fmt_elapsed r pb) as [header|] eqn:Hh; [|done].
    intros Hrest. rewrite (IH _ _ Hrest), report_chunks_stream. simpl.
    rewrite <- !app_assoc. simpl. f_equal. f_equal. f_equal.
    apply list_bind_ext; [|done]. intros [pb' recap']. simpl.
    unfold report_header.
    destruct (report_chunks_maps recap (write header r)) as [-> ->]. done.
Qed.

Lemma report_loop_missing {time : Type} (fmt_elapsed : time → time → str)
    (items : list (str * list str)) :
  ∀ r : renderer time,
    (report_loop fmt_elapsed items r).2 = None →
    ∀ pb, pb ∈ items.*1 → is_Some (starts r !! pb) ∧ is_Some (ends r !! pb).
Proof.
  induction items as [|[pb recap] items IH]; intros r Hok pb' Hin.
  - by apply elem_of_nil in Hin.
  - simpl in Hok. unfold report_header in Hok.
    destruct (ends r !! pb) as [e|] eqn:He; [|done].
    destruct (starts r !! pb) as [s|] eqn:Hs; [|done].
    apply elem_of_cons in Hin as [Heq|Hin];
      [simpl in Heq; subst pb'; split; by eexists|].
    specialize (IH _ Hok pb' Hin).
    destruct (report_chunks_maps recap
      (write (Py.lit "# Playbook " ++ pb ++ Py.lit ", ran in "
              ++ fmt_elapsed e s ++ Py.lit "s" ++ [Py.LF]) r)) as [H1 H2].
    by rewrite H1, H2 in IH.
Qed.

Lemma report_loop_error {time : Type} (fmt_elapsed : time → time → str)
    (items : list (str * list str)) :
  ∀ (r : renderer time) e,
    (report_loop fmt_elapsed items r).2 = Some e → e = KeyError.
Proof.
  induction items as [|[pb recap] items IH]; intros r e; simpl; [done|].
  destruct (report_header fmt_elapsed r pb); [apply IH|by intros [= <-]].
Qed.

(** X11.  The final report is written to its end exactly when every
    playbook of the report buffer has a start and an end timestamp;
    otherwise it stops with KeyError.  Written to its end, it is an empty
    line and then, for each playbook of the buffer in the buffer's order,
    the header line followed by the lines of its chunks, those holding
    "PLAY RECAP" left out, each line followed by a line feed. *)
Theorem final_report_spec {time : Type} (fmt_elapsed : time → time → str)
    (r : renderer time) :
  ((final_report fmt_elapsed r).2 = None ↔
   ∀ pb, pb ∈ (recaps r).*1 → is_Some (starts r !! pb) ∧ is_Some (ends r !! pb)) ∧
  ((final_report fmt_elapsed r).2 ≠ None →
   (final_report fmt_elapsed r).2 = Some KeyError) ∧
  ((final_report fmt_elapsed r).2 = None →
   stream (final_report fmt_elapsed r).1
   = stream r ++ [[Py.LF]]
     ++ (recaps r ≫= λ item,
           default [] (report_header fmt_elapsed r item.1)
             :: report_body item.2)).
Proof.
  unfold final_report. split; [|split].
  - split.
    + intros Hok pb Hin.
      by destruct (report_loop_missing fmt_elapsed _ _ Hok pb Hin).
    + intros Hkeys. by apply report_loop_ok.
  - destruct (report_loop fmt_elapsed (recaps r) (write [Py.LF] r)) as [r' [e|]]
      eqn:Hrep; [|done].
    intros _. simpl. f_equal.
    apply (report_loop_error fmt_elapsed (recaps r) (write [Py.LF] r)).
    by rewrite Hrep.
  - intros Hok.
    destruct (report_loop fmt_elapsed (recaps r) (write [Py.LF] r)) as [r' e]
      eqn:Hrep. simpl in *. subst e.
    rewrite (report_loop_stream _ _ _ _ Hrep). simpl.
    by rewrite <- app_assoc.
Qed.

(** ** The cursor *)

Lemma loop_body_stream {time : Type} (playbooks : list str) (now : time)
    (ev : event) (r : renderer time) :
  stream r `prefix_of` stream (loop_body playbooks now ev r).1.
Proof.
  unfold loop_body. destruct ev as [k pb m]. simpl.
  destruct (Py.index playbooks pb) as [position|]; [|done].
  destruct k; simpl; try (destruct (Py.remove (currently_running r) pb));
    simpl; rewrite <- ?app_assoc; by eexists.
Qed.

Lemma report_loop_prefix {time : Type} (fmt_elapsed : time → time → str)
    (items : list (str * list str)) :
  ∀ r : renderer time,
    stream r `prefix_of` stream (report_loop fmt_elapsed items r).1.
Proof.
  induction items as [|[pb recap] items IH]; intros r; simpl; [done|].
  destruct (report_header fmt_elapsed r pb) as [header|]; [|done].
  etrans; [|apply IH]. rewrite report_chunks_stream. simpl.
  rewrite <- app_assoc. by eexists.
Qed.

Section Cursor.
Context {time : Type}.
Variable fmt_elapsed : time → time → str.
Variable cfg : config.

Lemma cursor_restored_inv (s : sys time) :
  reachable fmt_elapsed cfg s → jobs cfg ≠ [] →
  hd_error (stream (rstate s)) = Some DISABLE_CURSOR ∧
  (printer s ≠ Draining → ENABLE_CURSOR ∈ stream (rstate s)).
Proof.
  intros Hs Hjobs. revert s Hs.
  apply (reachable_ind_trans fmt_elapsed cfg
    (λ s, hd_error (stream (rstate s)) = Some DISABLE_CURSOR ∧
          (printer s ≠ Draining → ENABLE_CURSOR ∈ stream (rstate s)))).
  - unfold init, prologue, playbooks.
    destruct (jobs cfg) as [|job rest]; [done|]. simpl. done.
  - intros s1 s2 Hs1 [IHh IHe] Ht.
    assert (∀ r' : renderer time,
              stream (rstate s1) `prefix_of` stream r' →
              hd_error (stream r') = Some DISABLE_CURSOR) as Hhd.
    { intros r' [k Hk]. rewrite Hk.
      destruct (stream (rstate s1)); [done|]. done. }
    destruct Ht as [s i n job Hal|s i js0 pb0 p0 js' evs Hal
                   |s results Hm Hf Hg|s Hm Hf|s results Hm Hp
                   |s results e Hm Hp|s i ev now r e Hal Hp Hget Hbody
                   |s Hal Hp Hget|s r e Hal Hp Hrep|s i job Hraised Hspawning Hjob]; simpl; try done.
    + destruct (printer s) eqn:Hp; simpl; try done.
      split; [|intros _; set_solver].
      apply (Hhd (write ENABLE_CURSOR (rstate s))). simpl. by eexists.
    + rewrite Hp. simpl. split; [done|]. intros _. apply IHe. by rewrite Hp.
    + pose proof (loop_body_stream (playbooks cfg) now ev (rstate s)) as Hpre.
      rewrite Hbody in Hpre. simpl in Hpre.
      destruct e as [e|].
      * split; [|intros _; simpl; set_solver].
        apply (Hhd (write ENABLE_CURSOR r)). simpl.
        etrans; [done|]. by eexists.
      * split; [by apply Hhd|done].
    + split; [|intros _; simpl; set_solver].
      apply (Hhd (write ENABLE_CURSOR (rstate s))). simpl. by eexists.
    + pose proof (report_loop_prefix fmt_elapsed (recaps (rstate s))
                    (write [Py.LF] (rstate s))) as Hpre.
      unfold final_report in Hrep. rewrite Hrep in Hpre. simpl in Hpre.
      assert (stream (rstate s) `prefix_of` stream r) as Hpre'.
      { etrans; [|done]. by eexists. }
      split; [by apply Hhd|]. intros _.
      destruct Hpre' as [k ->]. apply elem_of_app. left. apply IHe.
      by rewrite Hp.
Qed.

End Cursor.

(** X12.  With at least one playbook, the terminal cursor is hidden by
    the first thing the renderer writes, and whenever the renderer is no
    longer in its loop - it left by the sentinel, by an exception or by
    cancellation - the sequence that shows the cursor again has been
    written. *)
Theorem cursor_restored {time : Type} (fmt_elapsed : time → time → str)
    (cfg : config) (s : sys time) :
  reachable fmt_elapsed cfg s → jobs cfg ≠ [] →
  hd_error (stream (rstate s)) = Some DISABLE_CURSOR ∧
  (printer s ≠ Draining → ENABLE_CURSOR ∈ stream (rstate s)).
Proof. apply cursor_restored_inv. Qed.

Lemma cursor_restored_witness :
  ENABLE_CURSOR ∈ stream (rstate (final_of cfg_spawn_fails run_spawn_fails)).
Proof.
  assert (reachable demo_fmt cfg_spawn_fails
            (final_of cfg_spawn_fails run_spawn_fails)) as Hreach
    by by_exec run_spawn_fails.
  apply (cursor_restored demo_fmt cfg_spawn_fails _ Hreach).
  - done.
  - vm_compute. discriminate.
Defined.

(** ** The renderer never raises *)

Lemma run_playbook_shape (pb : str) (p : process) :
  ∃ mids tl,
    (run_playbook pb p).1 = start_event pb :: mids ++ tl ∧
    Forall (λ e, msgtype e ≠ START ∧ msgtype e ≠ DONE) mids ∧
    (tl = [] ∨ tl = [done_event pb (returncode p)]).
Proof.
  unfold run_playbook. destruct (spawns p).
  - pose proof (read_loop_kinds pb [] (stdout p)) as Hk.
    assert (Forall (λ e, msgtype e ≠ START ∧ msgtype e ≠ DONE)
                   (read_loop pb [] (stdout p)).1) as Hk'.
    { eapply Forall_impl; [done|]. naive_solver. }
    destruct (read_loop pb [] (stdout p)) as [evs []]; simpl in *.
    + exists evs, [done_event pb (returncode p)]. eauto.
    + exists evs, []. rewrite app_nil_r. eauto.
  - exists [], []. eauto.
Qed.

Lemma unique_last {A} (P : A → Prop) (front : list A) (d e : A)
    (l1 rest : list A) :
  Forall P front → ¬ P e → front ++ [d] = l1 ++ e :: rest → rest = [].
Proof.
  revert l1. induction front as [|a front IH]; intros l1 Hf He Heq.
  - destruct l1 as [|x l1]; simpl in Heq.
    + by injection Heq as _ <-.
    + injection Heq as _ Heq. by destruct l1.
  - apply Forall_cons in Hf as [Ha Hf].
    destruct l1 as [|x l1]; simpl in Heq.
    + injection Heq as -> _. done.
    + injection Heq as _ Heq. by eapply IH.
Qed.

(** In a prefix of what a job puts, START is only the first event and
    DONE only the last. *)
Lemma script_prefix_kinds (pb : str) (p : process) (l l1 l2 : list event)
    (e : event) :
  l `prefix_of` (run_playbook pb p).1 → l = l1 ++ e :: l2 →
  (msgtype e = START → l1 = []) ∧
  (msgtype e = DONE → l2 = []) ∧
  (l1 = [] → e = start_event pb) ∧
  (l1 ≠ [] → ∃ l1', l1 = start_event pb :: l1').
Proof.
  intros [k Hk] ->.
  destruct (run_playbook_shape pb p) as (mids & tl & Hshape & Hmids & Htl).
  rewrite Hshape in Hk. clear Hshape.
  assert (Forall (λ e, msgtype e ≠ START) (mids ++ tl)) as Hrest.
  { apply Forall_app. split.
    - eapply Forall_impl; [done|]. naive_solver.
    - destruct Htl as [->| ->]; [done|]. constructor; [|done].
      by destruct (done_event_fields pb (returncode p)) as [-> _]. }
  split; [|split; [|split]].
  - intros Hs. destruct l1 as [|x l1]; [done|]. exfalso.
    simpl in Hk. injection Hk as _ Hk. rewrite Hk in Hrest.
    rewrite <- app_assoc in Hrest. apply Forall_app in Hrest as [_ Hrest].
    apply Forall_cons in Hrest as [Hrest _]. done.
  - intros Hd.
    destruct Htl as [->| ->].
    + exfalso. rewrite app_nil_r in Hk.
      assert (e ∈ start_event pb :: mids) as Hin by (rewrite Hk; set_solver).
      apply elem_of_cons in Hin as [->|Hin]; [done|].
      rewrite Forall_forall in Hmids. by destruct (Hmids e Hin).
    + rewrite app_comm_cons in Hk. rewrite <- app_assoc in Hk. simpl in Hk.
      assert (l2 ++ k = []) as Hnil.
      { eapply (unique_last (λ e, msgtype e ≠ DONE) (start_event pb :: mids));
          [| |exact Hk].
        - constructor; [done|]. eapply Forall_impl; [done|]. naive_solver.
        - by intros ?. }
      by apply app_eq_nil in Hnil as [-> _].
  - intros ->. simpl in Hk. by injection Hk as -> _.
  - intros Hne. destruct l1 as [|x l1]; [done|].
    simpl in Hk. injection Hk as -> _. by eexists.
Qed.

Lemma omap_ext_in {A B} (f g : A → option B) (l : list A) :
  (∀ x, x ∈ l → f x = g x) → omap f l = omap g l.
Proof.
  induction l as [|a l IH]; intros H; [done|].
  csimpl. rewrite (H a), IH; [done| |by left].
  intros x Hx. apply H. by right.
Qed.

Lemma omap_seq_flip {A} (f g : nat → option A) (i : nat) (x : A) :
  ∀ n k, (k ≤ i < k + n)%nat →
    (∀ j, j ≠ i → f j = g j) → f i = None → g i = Some x →
    omap g (seq k n) ≡ₚ x :: omap f (seq k n).
Proof.
  induction n as [|n IH]; intros k Hi Hfg Hf Hg; [lia|].
  csimpl. destruct (decide (k = i)) as [->|Hne].
  - rewrite Hf, Hg. constructor.
    assert (omap g (seq (S i) n) = omap f (seq (S i) n)) as ->; [|done].
    apply omap_ext_in.
    intros j Hj%elem_of_seq. symmetry. apply Hfg. lia.
  - rewrite (Hfg k Hne). destruct (g k) as [y|].
    + rewrite (IH (S k)); [|lia|done..]. apply perm_swap.
    + apply IH; [lia|done..].
Qed.

Lemma open_job_other (taken : list item) (i j : nat) (ev : event) :
  i ≠ j → open_job (taken ++ [Ev i ev]) j = open_job taken j.
Proof.
  intros Hij. unfold open_job. change [Ev i ev] with (Ev i <$> [ev]).
  by rewrite events_of_app, (events_of_other i j [ev] Hij), app_nil_r.
Qed.

Lemma open_job_self (taken : list item) (i : nat) (ev : event) :
  events_of i (taken ++ [Ev i ev]) = events_of i taken ++ [ev].
Proof.
  change [Ev i ev] with (Ev i <$> [ev]).
  by rewrite events_of_app, (events_of_self i [ev]).
Qed.

Lemma open_names_sentinel (jobs : list (str * process)) (taken : list item) :
  open_names jobs (taken ++ [Sentinel]) = open_names jobs taken.
Proof.
  unfold open_names, open_job. apply omap_ext_in.
  intros i _. by rewrite events_of_app, app_nil_r.
Qed.

Section Running.
Context {time : Type}.
Variable fmt_elapsed : time → time → str.
Variable cfg : config.

(** What taking the next event of the queue does to the open jobs. *)
Lemma printer_takes (s : sys time) (i : nat) (ev : event) :
  reachable fmt_elapsed cfg s → chan s !! rd s = Some (Ev i ev) →
  ∃ pb p, jobs cfg !! i = Some (pb, p) ∧ playbook ev = pb ∧
    (msgtype ev = START →
     open_job (take (rd s) (chan s)) i = false ∧
     open_job (take (rd s) (chan s) ++ [Ev i ev]) i = true) ∧
    (msgtype ev = DONE →
     open_job (take (rd s) (chan s)) i = true ∧
     open_job (take (rd s) (chan s) ++ [Ev i ev]) i = false) ∧
    (msgtype ev ≠ START → msgtype ev ≠ DONE →
     open_job (take (rd s) (chan s) ++ [Ev i ev]) i
     = open_job (take (rd s) (chan s)) i).
Proof.
  intros Hs Hget.
  assert (Ev i ev ∈ chan s) as Hin by (apply list_elem_of_lookup; eauto).
  destruct (inv_producers_holds _ _ _ Hs i ev Hin) as [[pb p] Hjob].
  destruct (lookup_lt_is_Some_2 (tasks s) i) as [js Hjs].
  { rewrite (inv_length_holds _ _ _ Hs). by eapply lookup_lt_Some. }
  destruct (inv_script_holds _ _ _ Hs i pb p _ Hjob Hjs) as [Hpre _].
  set (taken := take (rd s) (chan s)) in *.
  assert (events_of i taken ++ [ev] `prefix_of` (run_playbook pb p).1) as Hl.
  { etrans; [|exact Hpre].
    rewrite <- (take_drop (S (rd s)) (chan s)), (take_S_r _ _ _ Hget).
    rewrite events_of_app, open_job_self. by eexists. }
  assert (playbook ev = pb) as Hpb.
  { pose proof (run_playbook_playbook pb p) as HF. rewrite Forall_forall in HF.
    apply HF. destruct Hl as [k ->]. set_solver. }
  destruct (script_prefix_kinds pb p _ (events_of i taken) [] ev Hl eq_refl)
    as (Hstart & _ & Hhead & Hne).
  assert (DONE ∉ msgtype <$> events_of i taken) as Hnd.
  { intros (e' & Hk & He')%list_elem_of_fmap.
    apply list_elem_of_split in He' as (a & b & Hab).
    destruct (script_prefix_kinds pb p _ a (b ++ [ev]) e' Hl) as (_ & Hd & _).
    { rewrite Hab, <- app_assoc. done. }
    symmetry in Hk. specialize (Hd Hk). by destruct b. }
  assert (events_of i taken ≠ [] → START ∈ msgtype <$> events_of i taken) as Hst.
  { intros Hn. destruct (Hne Hn) as [l' ->]. csimpl. by left. }
  assert (∀ tk, open_job tk i = true ↔
                START ∈ msgtype <$> events_of i tk ∧
                DONE ∉ msgtype <$> events_of i tk) as Hopen.
  { intros tk. unfold open_job.
    rewrite andb_true_iff, negb_true_iff, bool_decide_eq_true,
      bool_decide_eq_false. done. }
  assert (∀ tk, open_job tk i = false ↔
                ¬ (START ∈ msgtype <$> events_of i tk ∧
                   DONE ∉ msgtype <$> events_of i tk)) as Hclosed.
  { intros tk. rewrite <- Hopen. by destruct (open_job tk i). }
  exists pb, p. split; [done|]. split; [done|].
  rewrite !Hopen, !Hclosed, open_job_self, fmap_app. csimpl.
  split; [|split].
  - intros Hk. rewrite (Hstart Hk), Hk. csimpl. split.
    + intros [?%elem_of_nil _]. done.
    + split; [by left|]. by intros [?|?%elem_of_nil]%elem_of_cons.
  - intros Hk.
    assert (events_of i taken ≠ []) as Hn.
    { intros Hnil. rewrite (Hhead Hnil) in Hk. done. }
    split; [by auto|]. rewrite Hk. intros [_ Hd]. apply Hd. set_solver.
  - intros Hk1 Hk2.
    assert (events_of i taken ≠ []) as Hn.
    { intros Hnil. rewrite (Hhead Hnil) in Hk1. done. }
    destruct (open_job (taken ++ [Ev i ev]) i) eqn:H1,
      (open_job taken i) eqn:H2; try done.
    + apply Hclosed in H2. exfalso. apply H2. auto.
    + apply Hclosed in H1. exfalso. apply H1.
      rewrite open_job_self, fmap_app. csimpl. split.
      * apply elem_of_app. left. auto.
      * intros [?|[?|?%elem_of_nil]%elem_of_cons]%elem_of_app; done.
Qed.

Lemma open_names_flip (taken taken' : list item) (i : nat) (pb : str)
    (p : process) :
  jobs cfg !! i = Some (pb, p) →
  (∀ j, j ≠ i → open_job taken' j = open_job taken j) →
  open_job taken i = false → open_job taken' i = true →
  open_names (jobs cfg) taken' ≡ₚ pb :: open_names (jobs cfg) taken.
Proof.
  intros Hjob Hother Hf Ht. unfold open_names.
  apply (omap_seq_flip _ _ i pb).
  - apply lookup_lt_Some in Hjob. lia.
  - intros j Hj. by rewrite (Hother j Hj).
  - by rewrite Hf.
  - by rewrite Ht, Hjob.
Qed.

Lemma open_names_same (taken taken' : list item) :
  (∀ j, open_job taken' j = open_job taken j) →
  open_names (jobs cfg) taken' = open_names (jobs cfg) taken.
Proof.
  intros H. unfold open_names. apply omap_ext_in. intros j _. by rewrite H.
Qed.

Lemma inv_running_holds (s : sys time) :
  reachable fmt_elapsed cfg s →
  inv_running cfg s ∧ ∀ e, printer s = PrinterRaised e → jobs cfg = [].
Proof.
  revert s. apply (reachable_ind_trans fmt_elapsed cfg
    (λ s, inv_running cfg s ∧ ∀ e, printer s = PrinterRaised e → jobs cfg = [])).
  - unfold inv_running. rewrite init_chan, init_rd. split.
    + intros _.
      assert (open_names (jobs cfg) [] = []) as Hnone.
      { unfold open_names, open_job. simpl.
        induction (seq 0 (length (jobs cfg))) as [|a l IH]; [done|].
        csimpl. by rewrite IH. }
      simpl. rewrite Hnone. unfold init, prologue.
      by destruct (playbooks cfg).
    + intros e. unfold init, prologue, playbooks.
      by destruct (jobs cfg).
  - intros s1 s2 Hs1 [IHr IHe] Ht.
    destruct (inv_printer_holds _ _ _ Hs1) as (Hrd & _).
    unfold inv_running in *.
    destruct Ht as [s i n job Hal|s i js0 pb0 p0 js' evs Hal
                   |s results Hm Hf Hg|s Hm Hf|s results Hm Hp
                   |s results e Hm Hp|s i ev now r e Hal Hp Hget Hbody
                   |s Hal Hp Hget|s r e Hal Hp Hrep|s i job Hraised Hspawning Hjob]; simpl; try done.
    + by rewrite take_app_le.
    + by rewrite take_app_le.
    + destruct (printer s) eqn:Hp; simpl; split; try done;
        try (by intros [?|?]); eauto.
    + rewrite Hp. simpl. split; [by intros [?|?]|eauto].
    + (* an event is taken *)
      destruct (printer_takes s i ev Hs1 Hget)
        as (pb & p & Hjob & Hpb & HS & HD & HO).
      specialize (IHr (or_introl Hp)).
      rewrite (take_S_r _ _ _ Hget).
      assert (pb ∈ playbooks cfg) as Hin.
      { unfold playbooks. apply list_elem_of_fmap. exists (pb, p).
        split; [done|]. apply list_elem_of_lookup. eauto. }
      destruct (loop_body_ok (playbooks cfg) now ev (rstate s)) as [r' Hok].
      { by rewrite Hpb. }
      { intros Hk. destruct (HD Hk) as [Hopen _]. rewrite Hpb, IHr.
        unfold open_names. apply list_elem_of_omap. exists i.
        split; [|by rewrite Hopen, Hjob].
        apply elem_of_seq. apply lookup_lt_Some in Hjob. lia. }
      rewrite Hok in Hbody. injection Hbody as <- <-.
      split; [|done]. intros _.
      pose proof (loop_body_running _ _ _ _ _ Hok) as Hrun.
      destruct (decide (msgtype ev = START)) as [Hk|Hk1].
      { rewrite Hk in Hrun. rewrite Hrun, Hpb. destruct (HS Hk) as [Hf Ht].
        rewrite (open_names_flip (take (rd s) (chan s)) _ i pb p Hjob
                   (λ j Hj, open_job_other _ i j ev (not_eq_sym Hj)) Hf Ht).
        rewrite <- Permutation_cons_append. by constructor. }
      destruct (decide (msgtype ev = DONE)) as [Hk|Hk2].
      { rewrite Hk in Hrun. destruct (HD Hk) as [Ht Hf].
        pose proof (open_names_flip (take (rd s) (chan s) ++ [Ev i ev])
                      (take (rd s) (chan s)) i pb p Hjob
                      (λ j Hj, eq_sym (open_job_other _ i j ev (not_eq_sym Hj)))
                      Hf Ht) as Hflip.
        apply remove_spec in Hrun as (a & b & Hcr & _ & ->).
        rewrite Hcr, Hflip, Hpb in IHr.
        rewrite <- Permutation_middle in IHr.
        by apply Permutation_cons_inv in IHr. }
      assert (currently_running r' = currently_running (rstate s)) as ->
        by (by destruct (msgtype ev)).
      rewrite IHr.
      rewrite (open_names_same (take (rd s) (chan s))
                 (take (rd s) (chan s) ++ [Ev i ev])); [done|].
      intros j. destruct (decide (j = i)) as [->|Hj]; [by apply HO|].
      by apply open_job_other.
    + specialize (IHr (or_introl Hp)). rewrite (take_S_r _ _ _ Hget).
      split; [|done]. intros _. by rewrite open_names_sentinel.
    + pose proof (reporting_ok fmt_elapsed cfg s Hs1 Hp) as Hok.
      rewrite Hrep in Hok. simpl in Hok. subst e. split; [|done].
      by intros [?|?].
Qed.

End Running.

Section Quiet.
Context {time : Type}.
Variable fmt_elapsed : time → time → str.
Variable cfg : config.

(** With the sentinel on the channel no job is open any more. *)
Lemma sentinel_closes (s : sys time) :
  reachable fmt_elapsed cfg s → Sentinel ∈ chan s →
  open_names (jobs cfg) (chan s) = [].
Proof.
  intros Hs Hsen. unfold open_names.
  assert (∀ i, i ∈ seq 0 (length (jobs cfg)) → open_job (chan s) i = false) as H.
  { intros i Hi%elem_of_seq.
    destruct (lookup_lt_is_Some_2 (jobs cfg) i) as [[pb p] Hjob]; [lia|].
    destruct (lookup_lt_is_Some_2 (tasks s) i) as [js Hjs].
    { rewrite (inv_length_holds _ _ _ Hs). lia. }
    destruct (inv_main_holds _ _ _ Hs) as (Hm & _).
    destruct (Hm Hsen) as [_ [rs Hg]].
    destruct (gathered_lookup _ _ _ _ Hg Hjs) as (rc & -> & _).
    destruct (inv_script_holds _ _ _ Hs i pb p _ Hjob Hjs) as [_ [H1 H2]];
      [done|].
    simpl in H1, H2. rewrite app_nil_r in H1. symmetry in H2.
    apply run_playbook_returns in H2 as (-> & _ & Hrun).
    unfold open_job. rewrite H1, Hrun. rewrite andb_false_iff. right.
    rewrite negb_false_iff. apply bool_decide_eq_true_2.
    rewrite fmap_cons, fmap_app. csimpl.
    destruct (done_event_fields pb (returncode p)) as [-> _]. set_solver. }
  induction (seq 0 (length (jobs cfg))) as [|a l IH]; [done|].
  csimpl. rewrite (H a) by (by left). apply IH.
  intros i Hi. apply H. by right.
Qed.

Lemma reporting_none_running (s : sys time) :
  reachable fmt_elapsed cfg s → printer s = Reporting →
  currently_running (rstate s) = [].
Proof.
  intros Hs Hp.
  destruct (inv_running_holds fmt_elapsed cfg s Hs) as [Hrun _].
  specialize (Hrun (or_intror Hp)).
  destruct (inv_printer_holds _ _ _ Hs) as (_ & _ & Hr & _).
  destruct (Hr Hp) as [Hsen _].
  assert (Sentinel ∈ chan s) as Hsen'.
  { apply elem_of_take in Hsen as (k & Hk & _).
    apply list_elem_of_lookup. by exists k. }
  destruct (inv_main_holds _ _ _ Hs) as (Hm & _).
  destruct (Hm Hsen') as [Hlast _].
  rewrite (take_through_sentinel _ _ Hlast Hsen) in Hrun.
  rewrite (sentinel_closes s Hs Hsen') in Hrun.
  by apply Permutation_nil_r in Hrun.
Qed.

(** A task is cancelled, and the printer is, only when [amain] is left
    by an exception; [amain] returns only after the report. *)
Lemma cancelled_only_after_raise (s : sys time) :
  reachable fmt_elapsed cfg s →
  ((∃ i, tasks s !! i = Some Cancelled) ∨ printer s = PrinterCancelled →
   main s = MainRaised) ∧
  (∀ rc, main s = Exited rc → printer s = Reported).
Proof.
  revert s. apply (reachable_ind_trans fmt_elapsed cfg
    (λ s, ((∃ i, tasks s !! i = Some Cancelled) ∨ printer s = PrinterCancelled →
           main s = MainRaised) ∧
          (∀ rc, main s = Exited rc → printer s = Reported))).
  - rewrite init_tasks, init_main. split; [|done].
    intros [[i [Hi _]%lookup_replicate]|Hp]; [done|].
    unfold init in Hp. by destruct (prologue _ _) as [r [e|]].
  - intros s1 s2 Hs1 [IH IHx] Ht.
    destruct Ht as [s i n job Hal Hi|s i js0 pb0 p0 js' evs Hal Hi Hj Hrun
                   |s results Hm Hf Hg|s Hm Hf|s results Hm Hp
                   |s results e Hm Hp|s i ev now r e Hal Hp Hget Hbody
                   |s Hal Hp Hget|s r e Hal Hp Hrep|s i job Hraised Hspawning Hjob]; simpl; try done.
    + split; [|by intros rc Hm; rewrite Hm in Hal].
      intros [[k Hk]|Hp]; [|by apply IH; right].
      destruct (decide (k = i)) as [->|Hne].
      * rewrite list_lookup_insert_eq in Hk by (by eapply lookup_lt_Some). done.
      * rewrite list_lookup_insert_ne in Hk by done. apply IH. eauto.
    + split; [|by intros rc Hm; rewrite Hm in Hal].
      intros [[k Hk]|Hp]; [|by apply IH; right].
      destruct (decide (k = i)) as [->|Hne].
      * rewrite list_lookup_insert_eq in Hk by (by eapply lookup_lt_Some).
        injection Hk as ->.
        by apply run_playbook_step_holds in Hrun as (_ & _ & ? & _).
      * rewrite list_lookup_insert_ne in Hk by done. apply IH. eauto.
    + split; [|done]. intros H. specialize (IH H). congruence.
    + split; [|by intros rc [= <-]]. intros H. specialize (IH H). congruence.
    + split; [|by intros rc Hm; rewrite Hm in Hal].
      intros [H|H]; [|by destruct e]. rewrite (IH (or_introl H)) in Hal. done.
    + split; [|by intros rc Hm; rewrite Hm in Hal].
      intros [H|H]; [|done]. rewrite (IH (or_introl H)) in Hal. done.
    + split; [|by intros rc Hm; rewrite Hm in Hal].
      intros [H|H]; [|by destruct e]. rewrite (IH (or_introl H)) in Hal. done.
Qed.

(** When [amain] is left by an exception, a job task has raised. *)
Lemma raised_by_a_job (s : sys time) :
  reachable fmt_elapsed cfg s → jobs cfg ≠ [] → main s = MainRaised →
  ∃ i e, tasks s !! i = Some (Failed e).
Proof.
  intros Hs Hjobs. revert s Hs.
  apply (reachable_ind_trans fmt_elapsed cfg
    (λ s, main s = MainRaised → ∃ i e, tasks s !! i = Some (Failed e))).
  - by rewrite init_main.
  - intros s1 s2 Hs1 IH Ht.
    destruct Ht as [s i n job Hal|s i js0 pb0 p0 js' evs Hal
                   |s results Hm Hf Hg|s Hm Hf|s results Hm Hp
                   |s results e Hm Hp|s i ev now r e Hal
                   |s Hal|s r e Hal|s i job Hraised Hspawning Hjob]; simpl; try done;
      try (intros Hm; rewrite Hm in Hal; done).
    + intros _. apply existsb_exists in Hf as (js & Hin & Hfail).
      apply list_elem_of_In, list_elem_of_lookup in Hin as [i Hi].
      destruct js; try done. exists i, e.
      by rewrite list_lookup_fmap, Hi.
    + intros _. exfalso.
      destruct (inv_running_holds fmt_elapsed cfg s Hs1) as [_ Hne].
      by apply Hjobs, (Hne e).
    + intros _. destruct (IH Hraised) as (k & e & Hk). exists k, e.
      rewrite list_lookup_insert_ne; [done|]. intros ->. congruence.
Qed.

End Quiet.

(** X13.  With at least one playbook the renderer never raises, in any
    run: every event it takes names a playbook of the command line and
    every DONE finds its playbook in [currently_running].  While the
    renderer is in its loop [currently_running] holds, up to order, the
    playbooks of the jobs whose START it has taken and whose DONE it has
    not; when it leaves the loop by the sentinel, [currently_running] is
    empty. *)
Theorem renderer_never_raises {time : Type} (fmt_elapsed : time → time → str)
    (cfg : config) (s : sys time) :
  reachable fmt_elapsed cfg s → jobs cfg ≠ [] →
  (∀ e, printer s ≠ PrinterRaised e) ∧
  (printer s = Draining →
   currently_running (rstate s)
   ≡ₚ open_names (jobs cfg) (take (rd s) (chan s))) ∧
  (printer s = Reporting → currently_running (rstate s) = []).
Proof.
  intros Hs Hjobs.
  destruct (inv_running_holds fmt_elapsed cfg s Hs) as [Hrun Hne].
  split; [|split].
  - intros e He. by apply Hjobs, (Hne e).
  - intros Hp. by apply Hrun; left.
  - by apply (reporting_none_running fmt_elapsed cfg).
Qed.

Lemma renderer_never_raises_witness :
  currently_running (rstate (final_of cfg_recap run_recap)) = [].
Proof.
  assert (reachable demo_fmt cfg_recap (final_of cfg_recap run_recap)) as Hreach
    by by_exec run_recap.
  destruct (renderer_never_raises demo_fmt cfg_recap _ Hreach) as (_ & _ & H).
  - done.
  - apply H. vm_compute. reflexivity.
Defined.

(** ** Runs without failure, progress and termination *)

Lemma read_loop_no_fault (pb : str) (stream : list read) :
  ∀ task, Fault ∉ stream → (read_loop pb task stream).2 = true.
Proof.
  induction stream as [|[line|] rest IH]; intros task Hf; simpl; [done| |].
  - destruct (Py.eqb line []); [done|].
    assert (Fault ∉ rest) as Hrest by set_solver.
    destruct (Py.eqb line BLANK); [|by apply IH].
    specialize (IH [] Hrest). by destruct (read_loop pb [] rest).
  - exfalso. apply Hf. by left.
Qed.

Lemma healthy_returns (pb : str) (p : process) :
  healthy p → (run_playbook pb p).2 = Some (returncode p).
Proof.
  intros [Hsp Hf]. unfold run_playbook. rewrite Hsp.
  pose proof (read_loop_no_fault pb (stdout p) [] Hf) as Hok.
  destruct (read_loop pb [] (stdout p)) as [evs ok]. simpl in Hok.
  by subst ok.
Qed.

Section Healthy.
Context {time : Type}.
Variable fmt_elapsed : time → time → str.
Variable cfg : config.

Lemma failed_not_healthy (s : sys time) (i : nat) (e : exn) (pb : str)
    (p : process) :
  reachable fmt_elapsed cfg s → jobs cfg !! i = Some (pb, p) →
  tasks s !! i = Some (Failed e) → (run_playbook pb p).2 = None.
Proof.
  intros Hs Hjob Hjs.
  by destruct (inv_script_holds _ _ _ Hs i pb p _ Hjob Hjs) as [_ [_ <-]].
Qed.


End Healthy.

(** The semaphore cannot be created exactly when the playbook check
    lets [amain] go on and the variable holds a text that [int] rejects
    or a negative number. *)
Lemma amain_entry_semaphore (env : environ) (args : list (str * process)) :
  amain_entry env args = SemaphoreError ↔
  amain_verify (env_verify env) (env_isfile env) (fst <$> args) = None ∧
  ∃ text, env_max_playbooks env = Some text ∧
          (env_int env text = None ∨ ∃ v, env_int env text = Some v ∧ v < 0).
Proof.
  unfold amain_entry, max_playbooks_of_env, Semaphore.
  destruct (amain_verify _ _ _) as [[rc stderr]|]; [naive_solver|].
  destruct (env_max_playbooks env) as [text|]; simpl; [|naive_solver].
  destruct (env_int env text) as [v|] eqn:Hint; simpl; [|naive_solver].
  destruct (Z.ltb_spec v 0); [naive_solver|].
  split; [done|]. intros (_ & text' & Htext & Hor).
  injection Htext as <-. rewrite Hint in Hor.
  destruct Hor as [?|(v' & Hv & ?)]; [done|]. injection Hv as <-. lia.
Qed.

Section Raises.
Context {time : Type}.
Variable fmt_elapsed : time → time → str.
Variable cfg : config.

(** In the event loop [amain] is left by an exception only when a job
    task has raised, and a job task raises only when its process cannot
    be started or its output cannot be read; no task and no printer is
    cancelled as long as [amain] runs. *)
Lemma loop_raises (s : sys time) :
  reachable fmt_elapsed cfg s → jobs cfg ≠ [] →
  (main s = MainRaised →
   ∃ i e pb p, tasks s !! i = Some (Failed e) ∧ jobs cfg !! i = Some (pb, p) ∧
               ¬ healthy p) ∧
  ((∀ job, job ∈ jobs cfg → healthy job.2) →
   main s ≠ MainRaised ∧ printer s ≠ PrinterCancelled ∧
   ∀ i js, tasks s !! i = Some js → js ≠ Cancelled ∧ ∀ e, js ≠ Failed e).
Proof.
  intros Hs Hjobs.
  assert (∀ i e, tasks s !! i = Some (Failed e) →
                 ∃ pb p, jobs cfg !! i = Some (pb, p) ∧ ¬ healthy p) as Hfail.
  { intros i e Hi.
    destruct (lookup_lt_is_Some_2 (jobs cfg) i) as [[pb p] Hjob].
    { rewrite <- (inv_length_holds _ _ _ Hs). by eapply lookup_lt_Some. }
    exists pb, p. split; [done|]. intros Hh.
    pose proof (failed_not_healthy fmt_elapsed cfg s i e pb p Hs Hjob Hi) as Hn.
    by rewrite (healthy_returns pb p Hh) in Hn. }
  assert (main s = MainRaised →
          ∃ i e pb p, tasks s !! i = Some (Failed e) ∧
                      jobs cfg !! i = Some (pb, p) ∧ ¬ healthy p) as Hraise.
  { intros Hm.
    destruct (raised_by_a_job fmt_elapsed cfg s Hs Hjobs Hm) as (i & e & Hi).
    destruct (Hfail i e Hi) as (pb & p & Hjob & Hn). by exists i, e, pb, p. }
  split; [done|]. intros Hall.
  assert (∀ i e, tasks s !! i ≠ Some (Failed e)) as Hnofail.
  { intros i e Hi. destruct (Hfail i e Hi) as (pb & p & Hjob & Hn).
    apply Hn, (Hall (pb, p)). apply list_elem_of_lookup. eauto. }
  assert (main s ≠ MainRaised) as Hmain.
  { intros Hm. destruct (Hraise Hm) as (i & e & _ & _ & Hi & _).
    by apply (Hnofail i e). }
  destruct (cancelled_only_after_raise fmt_elapsed cfg s Hs) as [Hc _].
  split; [done|]. split; [by intros Hp; apply Hmain, Hc; right|].
  intros i js Hi. split.
  - intros ->. apply Hmain, Hc. left. eauto.
  - intros e ->. by apply (Hnofail i e).
Qed.

End Raises.

(** X14.  With at least one playbook, [amain] is left by an exception
    only in two ways.  Either the semaphore cannot be created: the
    variable ANSIBLE_PARALLEL_MAX_PLAYBOOKS holds a text that [int]
    rejects or a negative number, and the ValueError comes before any job
    task exists.  Or a job task has raised, which happens only to a job
    whose process could not be started or whose output could not be
    read.  When every process starts and is read without error and the
    semaphore is created, no run ever raises, no task fails or is
    cancelled, and the printer is never cancelled. *)
Theorem amain_raises_only_for_jobs {time : Type}
    (fmt_elapsed : time → time → str) (env : environ)
    (args : list (str * process)) :
  args ≠ [] →
  (amain_raises fmt_elapsed env args →
   (amain_entry env args = SemaphoreError ∧
    ∃ text, env_max_playbooks env = Some text ∧
            (env_int env text = None ∨ ∃ v, env_int env text = Some v ∧ v < 0)) ∨
   (∃ cfg (s : sys time) i e pb p,
      amain_entry env args = Loop cfg ∧ reachable fmt_elapsed cfg s ∧
      main s = MainRaised ∧ tasks s !! i = Some (Failed e) ∧
      args !! i = Some (pb, p) ∧ ¬ healthy p)) ∧
  (env_max_playbooks env = None → amain_entry env args ≠ SemaphoreError) ∧
  ((∀ job, job ∈ args → healthy job.2) →
   (amain_raises fmt_elapsed env args → amain_entry env args = SemaphoreError) ∧
   ∀ cfg (s : sys time),
     amain_entry env args = Loop cfg → reachable fmt_elapsed cfg s →
     main s ≠ MainRaised ∧ printer s ≠ PrinterCancelled ∧
     ∀ i js, tasks s !! i = Some js → js ≠ Cancelled ∧ ∀ e, js ≠ Failed e).
Proof.
  intros Hargs.
  assert (∀ cfg, amain_entry env args = Loop cfg → jobs cfg ≠ []) as Hne.
  { intros cfg Hentry. by rewrite (amain_entry_jobs _ _ _ Hentry). }
  split; [|split].
  - unfold amain_raises.
    destruct (amain_entry env args) as [stderr| |cfg] eqn:Hentry; [done| |].
    + intros _. left. split; [done|].
      by apply (amain_entry_semaphore env args).
    + intros (s & Hs & Hm). right.
      destruct (proj1 (loop_raises fmt_elapsed cfg s Hs (Hne cfg eq_refl)) Hm)
        as (i & e & pb & p & Hi & Hjob & Hn).
      rewrite (amain_entry_jobs _ _ _ Hentry) in Hjob.
      by exists cfg, s, i, e, pb, p.
  - intros Hnone [_ (text & Htext & _)]%amain_entry_semaphore. congruence.
  - intros Hall.
    assert (∀ cfg (s : sys time),
              amain_entry env args = Loop cfg → reachable fmt_elapsed cfg s →
              main s ≠ MainRaised ∧ printer s ≠ PrinterCancelled ∧
              ∀ i js, tasks s !! i = Some js →
                      js ≠ Cancelled ∧ ∀ e, js ≠ Failed e) as Hloop.
    { intros cfg s Hentry Hs.
      apply (loop_raises fmt_elapsed cfg s Hs (Hne cfg Hentry)).
      by rewrite (amain_entry_jobs _ _ _ Hentry). }
    split; [|done]. unfold amain_raises.
    destruct (amain_entry env args) as [stderr| |cfg] eqn:Hentry; [done..|].
    intros (s & Hs & Hm). by destruct (Hloop cfg s eq_refl Hs) as [? _].
Qed.

Lemma amain_raises_only_for_jobs_witness :
  main (final_of cfg_two run_two) ≠ MainRaised.
Proof.
  assert (jobs cfg_two ≠ []) as Hargs by done.
  assert (∀ job, job ∈ jobs cfg_two → healthy job.2) as Hall.
  { intros job Hin. vm_compute in Hin.
    repeat (apply elem_of_cons in Hin as [->|Hin];
            [split; [reflexivity|by intros ?%elem_of_nil]|]).
    by apply elem_of_nil in Hin. }
  assert (amain_entry (demo_env None None true) (jobs cfg_two) = Loop cfg_two)
    as Hentry by (vm_compute; reflexivity).
  assert (reachable demo_fmt cfg_two (final_of cfg_two run_two)) as Hreach
    by by_exec run_two.
  exact (proj1 (proj2 (proj2 (proj2 (amain_raises_only_for_jobs demo_fmt
                  (demo_env None None true) (jobs cfg_two) Hargs)) Hall)
                  cfg_two _ Hentry Hreach)).
Defined.

Lemma gathered_None (ts : list job_state) :
  gathered ts = None → ∃ i js, ts !! i = Some js ∧ returned js = None.
Proof.
  intros Hg.
  assert (¬ Forall (is_Some ∘ returned) ts) as Hn.
  { intros HF. apply mapM_is_Some_2 in HF as [rs Hrs].
    unfold gathered in Hg. congruence. }
  apply not_Forall_Exists in Hn; [|apply _].
  apply Exists_exists in Hn as (js & Hin & Hjs).
  apply list_elem_of_lookup in Hin as [i Hi]. exists i, js. split; [done|].
  simpl in Hjs. destruct (returned js); [|done]. exfalso. apply Hjs. by eexists.
Qed.

Lemma holders_none (ts : list job_state) :
  existsb holds_permit ts = false → holders ts = 0%nat.
Proof.
  induction ts as [|t ts IH]; [done|]. simpl.
  intros [Ht Hts]%orb_false_iff. rewrite holders_cons, Ht. by apply IH.
Qed.

Lemma holder_can_step (pb : str) (p : process) (js : job_state) :
  holds_permit js = true →
  ∃ js' evs, run_playbook_step pb p js = Some (js', evs).
Proof.
  destruct js as [| | |task [|[line|] rest]| | | |]; simpl; try done; intros _;
    eauto.
  - destruct (spawns p); eauto.
  - destruct (Py.eqb line []); [eauto|]. destruct (Py.eqb line BLANK); eauto.
Qed.

Lemma run_playbook_step_fuel (pb : str) (p : process) (js js' : job_state)
    (evs : list event) :
  run_playbook_step pb p js = Some (js', evs) →
  (job_fuel p js' < job_fuel p js)%nat ∧ (length evs ≤ 1)%nat.
Proof.
  destruct js as [| | |task [|[line|] rest]| | | |]; simpl; try done.
  - intros [= <- <-]. simpl. lia.
  - destruct (spawns p); intros [= <- <-]; simpl; lia.
  - intros [= <- <-]. simpl. destruct task; simpl; lia.
  - destruct (Py.eqb line []).
    { intros [= <- <-]. simpl. destruct task; simpl; lia. }
    destruct (Py.eqb line BLANK); intros [= <- <-]; simpl; lia.
  - intros [= <- <-]. simpl. lia.
  - intros [= <- <-]. simpl. lia.
Qed.

Lemma jobs_fuel_insert (jobs : list (str * process)) (ts : list job_state)
    (i : nat) (pb : str) (p : process) (js js' : job_state) :
  jobs !! i = Some (pb, p) → ts !! i = Some js →
  (jobs_fuel jobs (<[i := js']> ts) + job_fuel p js
   = jobs_fuel jobs ts + job_fuel p js')%nat.
Proof.
  unfold jobs_fuel. revert i ts.
  induction jobs as [|job jobs IH]; intros [|i] [|t ts] Hjob Hi;
    simpl in *; try done.
  - injection Hjob as ->. injection Hi as ->. simpl. lia.
  - specialize (IH i ts Hjob Hi). lia.
Qed.

Lemma jobs_fuel_cancel (jobs : list (str * process)) (ts : list job_state) :
  (jobs_fuel jobs (cancel <$> ts) ≤ jobs_fuel jobs ts)%nat.
Proof.
  unfold jobs_fuel. revert ts.
  induction jobs as [|job jobs IH]; intros [|t ts]; csimpl; try lia.
  specialize (IH ts).
  assert (job_fuel job.2 (cancel t) ≤ job_fuel job.2 t)%nat; [|lia].
  destruct t; simpl; lia.
Qed.

Lemma jobs_fuel_init (jobs : list (str * process)) :
  jobs_fuel jobs (replicate (length jobs) Queued)
  = sum_list ((λ job, length (stdout job.2) + 5)%nat <$> jobs).
Proof.
  unfold jobs_fuel. induction jobs as [|job jobs IH]; [done|].
  simpl. by rewrite IH.
Qed.

Section Progress.
Context {time : Type}.
Variable fmt_elapsed : time → time → str.
Variable cfg : config.

Lemma trans_fuel (s s' : sys time) :
  trans fmt_elapsed cfg s s' → (fuel cfg s' < fuel cfg s)%nat.
Proof.
  intros Ht. unfold fuel.
  destruct Ht as [s i n [pb p] Hal Hi Hjob Hn
                 |s i js0 pb0 p0 js' evs Hal Hi Hj Hrun
                 |s results Hm Hf Hg|s Hm Hf|s results Hm Hp
                 |s results e Hm Hp|s i ev now r e Hal Hp Hget Hbody
                 |s Hal Hp Hget|s r e Hal Hp Hrep|s i job Hraised Hspawning Hjob]; simpl.
  - pose proof (jobs_fuel_insert _ _ _ _ _ _ Entered Hjob Hi) as H.
    simpl in H. lia.
  - pose proof (jobs_fuel_insert _ _ _ _ _ _ js' Hj Hi) as H.
    destruct (run_playbook_step_fuel _ _ _ _ _ Hrun) as [H1 H2].
    rewrite length_app, length_fmap. lia.
  - rewrite Hm, length_app. simpl. lia.
  - pose proof (jobs_fuel_cancel (jobs cfg) (tasks s)) as H.
    rewrite Hm. destruct (printer s); simpl; lia.
  - rewrite Hm, Hp. lia.
  - pose proof (jobs_fuel_cancel (jobs cfg) (tasks s)) as H.
    rewrite Hm, Hp. simpl. lia.
  - apply lookup_lt_Some in Hget. rewrite Hp.
    destruct e; simpl; lia.
  - apply lookup_lt_Some in Hget. rewrite Hp. simpl. lia.
  - rewrite Hp. destruct e; simpl; lia.
  - destruct job as [pb p].
    pose proof (jobs_fuel_insert _ _ _ _ _ _ Cancelled Hjob Hspawning) as H.
    simpl in H. lia.
Qed.

Lemma exec_fuel (sched : list (label time)) :
  ∀ s s' : sys time,
    exec fmt_elapsed cfg sched s = Some s' →
    (length sched + fuel cfg s' ≤ fuel cfg s)%nat.
Proof.
  induction sched as [|l sched IH]; intros s s'; simpl.
  - intros [= <-]. lia.
  - destruct (step fmt_elapsed cfg l s) as [s1|] eqn:Hl; [|done].
    intros Hrest. specialize (IH _ _ Hrest).
    pose proof (trans_fuel _ _ (step_trans _ _ _ _ _ Hl)). lia.
Qed.

Lemma can_step (s : sys time) (now : time) :
  reachable fmt_elapsed cfg s → (1 ≤ max_playbooks cfg)%nat →
  alive (main s) → ∃ l s', step fmt_elapsed cfg l s = Some s'.
Proof.
  intros Hs HK Hal.
  destruct (inv_main_holds _ _ _ Hs) as (_ & _ & Ha & _).
  destruct (inv_printer_holds _ _ _ Hs) as (_ & Hd & _ & _).
  destruct (cancelled_only_after_raise fmt_elapsed cfg s Hs) as [Hc _].
  pose proof (inv_permits_holds _ _ _ Hs) as Hperm. unfold inv_permits in Hperm.
  pose proof (inv_length_holds _ _ _ Hs) as Hlen. unfold inv_length in Hlen.
  destruct (main s) as [|results| |] eqn:Hm; try done.
  - (* at gather *)
    destruct (existsb failed (tasks s)) eqn:Hf.
    { exists LMain, (crash s). unfold step, main_step. by rewrite Hm, Hf. }
    destruct (gathered (tasks s)) as [results|] eqn:Hg.
    { exists LMain. eexists. unfold step, main_step. by rewrite Hm, Hf, Hg. }
    destruct (existsb holds_permit (tasks s)) eqn:Hh.
    + apply existsb_exists in Hh as (js & Hin & Hjs).
      apply list_elem_of_In, list_elem_of_lookup in Hin as [i Hi].
      destruct (lookup_lt_is_Some_2 (jobs cfg) i) as [[pb p] Hjob].
      { rewrite <- Hlen. by eapply lookup_lt_Some. }
      destruct (holder_can_step pb p js Hjs) as (js' & evs & Hrun).
      exists (LJob i). unfold step, job_step.
      rewrite Hm, Hi, Hjob. destruct js; try done; rewrite Hrun; by eexists.
    + destruct (gathered_None _ Hg) as (i & js & Hi & Hr).
      destruct (lookup_lt_is_Some_2 (jobs cfg) i) as [job Hjob].
      { rewrite <- Hlen. by eapply lookup_lt_Some. }
      assert (js = Queued) as ->.
      { destruct js; try done.
        - assert (existsb holds_permit (tasks s) = true); [|congruence].
          apply existsb_exists. exists Entered.
          split; [|done]. apply list_elem_of_In, list_elem_of_lookup. eauto.
        - assert (existsb holds_permit (tasks s) = true); [|congruence].
          apply existsb_exists. exists Spawning.
          split; [|done]. apply list_elem_of_In, list_elem_of_lookup. eauto.
        - assert (existsb holds_permit (tasks s) = true); [|congruence].
          apply existsb_exists. exists (Reading task rest).
          split; [|done]. apply list_elem_of_In, list_elem_of_lookup. eauto.
        - assert (existsb holds_permit (tasks s) = true); [|congruence].
          apply existsb_exists. exists Waiting.
          split; [|done]. apply list_elem_of_In, list_elem_of_lookup. eauto.
        - rewrite (failed_exists _ _ _ Hi) in Hf. done.
        - assert (Gathering = MainRaised) by (apply Hc; left; eauto). done. }
      rewrite (holders_none _ Hh) in Hperm.
      destruct (permits s) as [|n] eqn:Hn; [lia|].
      exists (LJob i). eexists. unfold step, job_step.
      by rewrite Hm, Hi, Hjob, Hn.
  - (* at the printer *)
    destruct (Ha results eq_refl) as [Hg Hsen].
    destruct (printer s) eqn:Hp.
    + destruct (Hd eq_refl) as [Hns _].
      destruct (chan s !! rd s) as [it|] eqn:Hget.
      * exists (LPrinter now). unfold step, printer_step.
        rewrite Hm, Hp, Hget. destruct it as [i ev|]; [|by eexists].
        destruct (loop_body (playbooks cfg) now ev (rstate s)) as [r [e|]];
          by eexists.
      * exfalso. apply Hns. apply lookup_ge_None in Hget.
        by rewrite take_ge.
    + exists (LPrinter now). unfold step, printer_step. rewrite Hm, Hp.
      destruct (final_report fmt_elapsed (rstate s)) as [r [e|]]; by eexists.
    + exists LMain. eexists. unfold step, main_step. by rewrite Hm, Hp.
    + exists LMain. eexists. unfold step, main_step. by rewrite Hm, Hp.
    + assert (AwaitPrinter results = MainRaised) by (by apply Hc; right). done.
Qed.

End Progress.

(** X15.  With a semaphore of at least one permit the event loop never
    blocks: as long as [amain] has neither returned nor raised, some task
    can run - a job task, the printer or [amain] itself. *)
Theorem no_deadlock {time : Type} (fmt_elapsed : time → time → str)
    (cfg : config) (s : sys time) (now : time) :
  reachable fmt_elapsed cfg s → (1 ≤ max_playbooks cfg)%nat →
  alive (main s) → ∃ l s', step fmt_elapsed cfg l s = Some s'.
Proof. exact (can_step fmt_elapsed cfg s now). Qed.

Lemma no_deadlock_witness :
  ∃ l s', step demo_fmt cfg_narrow l (final_of cfg_narrow run_first) = Some s'.
Proof.
  apply (no_deadlock demo_fmt cfg_narrow _ 0).
  - by_exec run_first.
  - vm_compute. lia.
  - vm_compute. exact I.
Defined.

(** X16.  Every run of the event loop is finite, for processes whose
    output ends: each step takes the loop nearer to its end, and a run
    from the start has at most 5 steps plus, for each job, twice the
    number of its output lines plus 10. *)
Theorem runs_are_finite {time : Type} (fmt_elapsed : time → time → str)
    (cfg : config) :
  (∀ l (s s' : sys time),
     step fmt_elapsed cfg l s = Some s' → (fuel cfg s' < fuel cfg s)%nat) ∧
  (∀ sched (s : sys time),
     exec fmt_elapsed cfg sched (init cfg) = Some s →
     (length sched
      ≤ 2 * sum_list ((λ job, length (stdout job.2) + 5)%nat <$> jobs cfg) + 5)%nat).
Proof.
  split.
  - intros l s s' Hstep. by eapply trans_fuel, step_trans.
  - intros sched s Hexec.
    pose proof (exec_fuel fmt_elapsed cfg sched _ _ Hexec) as H.
    assert (fuel cfg (init (time:=time) cfg)
            ≤ 2 * sum_list ((λ job, length (stdout job.2) + 5)%nat <$> jobs cfg)
              + 5)%nat; [|lia].
    unfold fuel. rewrite init_tasks, init_chan, init_rd, init_main.
    rewrite jobs_fuel_init. simpl.
    destruct (printer (init cfg)); lia.
Qed.

Lemma runs_are_finite_witness : (length run_two ≤ 25)%nat.
Proof.
  apply (proj2 (runs_are_finite demo_fmt cfg_two) run_two
           (final_of cfg_two run_two)).
  vm_compute. reflexivity.
Defined.

(** X17.  With a semaphore of no permit (the variable
    ANSIBLE_PARALLEL_MAX_PLAYBOOKS set to 0) and at least one playbook,
    nothing ever runs: no job starts, the printer waits on the empty
    queue and [amain] waits in [gather]; the program neither returns nor
    raises. *)
Theorem zero_permits_hang {time : Type} (fmt_elapsed : time → time → str)
    (cfg : config) :
  max_playbooks cfg = 0%nat → jobs cfg ≠ [] →
  (∀ l, step fmt_elapsed cfg l (init (time:=time) cfg) = None) ∧
  (∀ s : sys time, reachable fmt_elapsed cfg s → s = init cfg) ∧
  main (init (time:=time) cfg) = Gathering ∧
  printer (init (time:=time) cfg) = Draining.
Proof.
  intros HK Hjobs.
  assert (printer (init (time:=time) cfg) = Draining) as Hp.
  { unfold init, prologue, playbooks. by destruct (jobs cfg). }
  assert (∀ l, step fmt_elapsed cfg l (init (time:=time) cfg) = None) as Hstuck.
  { intros l. unfold step. rewrite init_main. destruct l as [i| |now].
    - unfold job_step. rewrite init_tasks, init_permits, HK.
      destruct (replicate (length (jobs cfg)) Queued !! i) as [js|] eqn:Hi;
        [|done].
      apply lookup_replicate in Hi as [-> _].
      by destruct (jobs cfg !! i).
    - unfold main_step. rewrite init_main, init_tasks.
      destruct (jobs cfg) as [|job rest]; [done|]. simpl.
      assert (existsb failed (replicate (length rest) Queued) = false) as ->.
      { induction (length rest) as [|n IH]; [done|]. simpl. by rewrite IH. }
      done.
    - unfold printer_step. by rewrite Hp, init_chan, init_rd. }
  split; [done|]. split; [|by rewrite init_main].
  intros s Hs. induction Hs as [|l s s' Hs IH Hl]; [done|].
  subst s. by rewrite Hstuck in Hl.
Qed.

Lemma zero_permits_hang_witness :
  step demo_fmt cfg_zero (LJob 0) (init cfg_zero) = None.
Proof.
  apply (proj1 (zero_permits_hang demo_fmt cfg_zero eq_refl ltac:(done))).
Defined.



(** ** The width of the lanes *)

Lemma loop_body_consts {time : Type} (playbooks : list str) (now : time)
    (ev : event) (r : renderer time) :
  longest_name (loop_body playbooks now ev r).1 = longest_name r ∧
  columns (loop_body playbooks now ev r).1 = columns r.
Proof.
  unfold loop_body. destruct ev as [k pb m]. simpl.
  destruct (Py.index playbooks pb) as [position|]; [|done].
  by destruct k; simpl; try (destruct (Py.remove (currently_running r) pb)).
Qed.

Lemma foldl_write_consts {time : Type} (texts : list str) (r : renderer time) :
  longest_name (foldl (λ r text, write text r) r texts) = longest_name r ∧
  columns (foldl (λ r text, write text r) r texts) = columns r.
Proof.
  revert r. induction texts as [|t texts IH]; intros r; [done|].
  simpl. destruct (IH (write t r)) as [-> ->]. done.
Qed.

Lemma report_chunks_consts {time : Type} (recap : list str) (r : renderer time) :
  longest_name (foldl (λ r chunk, foldl (λ r text, write text r) r
                                    (report_lines (Py.split_nl chunk))) r recap)
  = longest_name r ∧
  columns (foldl (λ r chunk, foldl (λ r text, write text r) r
                               (report_lines (Py.split_nl chunk))) r recap)
  = columns r.
Proof.
  revert r. induction recap as [|c recap IH]; intros r; [done|].
  simpl. destruct (IH (foldl (λ r text, write text r) r
                         (report_lines (Py.split_nl c)))) as [-> ->].
  apply foldl_write_consts.
Qed.

Lemma report_loop_consts {time : Type} (fmt_elapsed : time → time → str)
    (items : list (str * list str)) :
  ∀ r : renderer time,
    longest_name (report_loop fmt_elapsed items r).1 = longest_name r ∧
    columns (report_loop fmt_elapsed items r).1 = columns r.
Proof.
  induction items as [|[pb recap] items IH]; intros r; simpl; [done|].
  destruct (report_header fmt_elapsed r pb) as [header|]; [|done].
  destruct (IH (foldl (λ r chunk, foldl (λ r text, write text r) r
                                    (report_lines (Py.split_nl chunk)))
                      (write header r) recap)) as [-> ->].
  by destruct (report_chunks_consts recap (write header r)) as [-> ->].
Qed.

Lemma longest_bounds (names : list str) :
  (∀ pb, pb ∈ names → Py.len pb ≤ foldr Z.max 0 (Py.len <$> names)) ∧
  (names ≠ [] → ∃ pb, pb ∈ names ∧ Py.len pb = foldr Z.max 0 (Py.len <$> names)).
Proof.
  induction names as [|n names [IH1 IH2]]; csimpl.
  - split; [by intros pb ?%elem_of_nil|done].
  - split.
    + intros pb [->|Hin]%elem_of_cons; [lia|]. specialize (IH1 pb Hin). lia.
    + intros _. destruct (decide (names = [])) as [->|Hne].
      * exists n. split; [by left|]. simpl. unfold Py.len. lia.
      * destruct (IH2 Hne) as (pb & Hin & Hpb).
        destruct (Z.max_spec (Py.len n) (foldr Z.max 0 (Py.len <$> names)))
          as [[_ ->]|[_ ->]].
        -- exists pb. split; [by right|done].
        -- exists n. split; [by left|done].
Qed.

Section Width.
Context {time : Type}.
Variable fmt_elapsed : time → time → str.
Variable cfg : config.

Lemma width_inv (s : sys time) :
  reachable fmt_elapsed cfg s →
  longest_name (rstate s) = foldr Z.max 0 (Py.len <$> playbooks cfg) ∧
  columns (rstate s) = term_columns cfg.
Proof.
  revert s. apply (reachable_ind_trans fmt_elapsed cfg
    (λ s, longest_name (rstate s) = foldr Z.max 0 (Py.len <$> playbooks cfg) ∧
          columns (rstate s) = term_columns cfg)).
  - unfold init, prologue. by destruct (playbooks cfg).
  - intros s1 s2 Hs1 [IH1 IH2] Ht.
    destruct Ht as [s i n job Hal|s i js0 pb0 p0 js' evs Hal
                   |s results Hm Hf Hg|s Hm Hf|s results Hm Hp
                   |s results e Hm Hp|s i ev now r e Hal Hp Hget Hbody
                   |s Hal Hp Hget|s r e Hal Hp Hrep|s i job Hraised Hspawning Hjob]; simpl; try done.
    + by destruct (printer s).
    + by destruct (printer s).
    + destruct (loop_body_consts (playbooks cfg) now ev (rstate s)) as [H1 H2].
      rewrite Hbody in H1, H2. simpl in H1, H2.
      destruct e; simpl; by rewrite H1, H2.
    + destruct (report_loop_consts fmt_elapsed (recaps (rstate s))
                  (write [Py.LF] (rstate s))) as [H1 H2].
      unfold final_report in Hrep. rewrite Hrep in H1, H2. simpl in H1, H2.
      by rewrite H1, H2.
Qed.

End Width.

(** X19.  Throughout a run the renderer keeps the terminal width it read
    at the start and, as the column where lane text begins, the length of
    the longest playbook name: no playbook name is longer, and with at
    least one playbook some name has exactly this length. *)
Theorem lane_column {time : Type} (fmt_elapsed : time → time → str)
    (cfg : config) (s : sys time) :
  reachable fmt_elapsed cfg s →
  columns (rstate s) = term_columns cfg ∧
  (∀ pb, pb ∈ playbooks cfg → Py.len pb ≤ longest_name (rstate s)) ∧
  (jobs cfg ≠ [] →
   ∃ pb, pb ∈ playbooks cfg ∧ Py.len pb = longest_name (rstate s)).
Proof.
  intros Hs. destruct (width_inv fmt_elapsed cfg s Hs) as [-> ->].
  destruct (longest_bounds (playbooks cfg)) as [H1 H2].
  split; [done|]. split; [done|]. intros Hjobs. apply H2.
  unfold playbooks. by destruct (jobs cfg).
Qed.

Lemma lane_column_witness :
  columns (rstate (final_of cfg_two run_two)) = 80.
Proof.
  assert (reachable demo_fmt cfg_two (final_of cfg_two run_two)) as Hreach
    by by_exec run_two.
  exact (proj1 (lane_column demo_fmt cfg_two _ Hreach)).
Defined.

Lemma split_nl_no_LF (s : str) : ∀ l, l ∈ Py.split_nl s → Py.LF ∉ l.
Proof.
  induction s as [|c s IH]; intros l; simpl.
  - intros ->%list_elem_of_singleton. by intros ?%elem_of_nil.
  - destruct (N.eqb_spec c Py.LF) as [->|Hc].
    + intros [->|Hin]%elem_of_cons; [by intros ?%elem_of_nil|by apply IH].
    + destruct (split_nl_cons s) as (l0 & ls & Hs). rewrite Hs in IH |- *.
      intros [->|Hin]%elem_of_cons.
      * rewrite not_elem_of_cons. split; [done|]. apply IH. by left.
      * apply IH. by right.
Qed.

(** X20.  For a TASK event the renderer writes into the lane, after
    erasing it, the first line of the payload cut by [truncate]: the text
    holds no line feed and, when the terminal leaves at least one column
    after the longest name and its margin, it is not longer than that
    remaining width. *)
Theorem task_lane_fits {time : Type} (playbooks : list str) (now : time)
    (ev : event) (r r' : renderer time) :
  loop_body playbooks now ev r = (r', None) → msgtype ev = TASK →
  ∃ position text,
    stream r' = stream r ++ (cursor_moves r playbooks position).1
                         ++ [ERASE_LINE; ATTRS_OFF; text]
                         ++ (cursor_moves r playbooks position).2 ∧
    text = truncate (hd [] (Py.split_nl (msg ev)))
                    (columns r - longest_name r - 4) ∧
    (Py.LF ∉ text) ∧
    (1 ≤ columns r - longest_name r - 4 →
     Py.len text ≤ columns r - longest_name r - 4).
Proof.
  intros Hbody Hk.
  destruct (loop_body_layout _ _ _ _ _ Hbody)
    as (position & _ & _ & _ & Hstream & _).
  unfold lane_text in Hstream. rewrite Hk in Hstream.
  exists position. eexists. split; [exact Hstream|]. split; [done|].
  set (line := hd [] (Py.split_nl (msg ev))).
  set (w := columns r - longest_name r - 4).
  assert (Py.LF ∉ line) as Hline.
  { apply (split_nl_no_LF (msg ev)). unfold line.
    destruct (split_nl_cons (msg ev)) as (l & ls & ->). by left. }
  split.
  - unfold truncate. destruct (Py.len line <=? w); [done|].
    intros [Hin|Hin]%elem_of_app.
    + apply Hline. unfold Py.slice_to in Hin.
      destruct (w - 1 <? 0);
        apply elem_of_take in Hin as (k & Hk' & _);
        apply list_elem_of_lookup; eauto.
    + by apply list_elem_of_singleton in Hin.
  - intros Hw.
    assert (Py.len line ≤ w ∨ w < Py.len line) as [Hle|Hgt] by lia.
    + by rewrite (truncate_short _ _ Hle).
    + rewrite (truncate_long _ _ Hw Hgt). unfold Py.len in *.
      rewrite length_app, length_take. simpl. lia.
Qed.

Lemma task_lane_fits_witness :
  ∃ position text,
    stream (loop_body demo_playbooks 7
              (Event TASK (Py.lit "a.yml") task_ok_chunk) demo_renderer).1
    = stream demo_renderer ++ (cursor_moves demo_renderer demo_playbooks position).1
        ++ [ERASE_LINE; ATTRS_OFF; text]
        ++ (cursor_moves demo_renderer demo_playbooks position).2 ∧
    (Py.LF ∉ text).
Proof.
  destruct (task_lane_fits demo_playbooks 7
              (Event TASK (Py.lit "a.yml") task_ok_chunk) demo_renderer
              (loop_body demo_playbooks 7
                 (Event TASK (Py.lit "a.yml") task_ok_chunk) demo_renderer).1)
    as (position & text & H1 & _ & H2 & _).
  - vm_compute. reflexivity.
  - reflexivity.
  - exists position, text. split; [exact H1|exact H2].
Defined.
